(** * three-meshline: ribbon tessellation, FIFO advance and picking

    A shallow embedding of [src/MeshLineGeometry.ts] (the class
    [MeshLineGeometry]: [setPoints], [#pointsAreEqual], [#clonePoint],
    [#process], [advance], and the function [memcpy]) and of
    [MeshLineRaycast] from [src/THREE.MeshLine.ts], followed by the
    properties the specification states about them.

    Numbers.  A JavaScript number is modelled by [num]: a finite value is an
    exact rational (the rounding of doubles in arithmetic is abstracted
    away, signed zeros are identified), and the special values [NaN] and
    [+/-Infinity] are kept because the control flow of the code depends on
    them ([NaN === NaN] is false, [0 / 0] is [NaN]).  Storing a number in
    a [Float32Array] rounds it to the nearest binary32 value ([toFloat32]).
    Integers that index arrays are in [Z]; a [Uint16Array] stores them
    modulo 2^16.

    Effects.  The methods mutate the private fields of the geometry object
    and may throw; they are written in a state-and-exception monad whose
    [Throw] result keeps the state reached at the throw.  Attribute objects
    carry an identity, so that reusing one can be told from replacing it,
    and [memcpy] works on named places of the attribute set, so that
    copying an array onto itself behaves as in the source.

    Plan of the file: the embedding; the picker in the words of the
    specification; the vocabulary of the statements; lemmas on lists and
    loops; [setPoints] and [#process] step by step; [advance]; the
    invariant of the geometry; then the properties, one section each. *)

From Stdlib Require Import ZArith QArith Qreduction Bool Lia.
From stdpp Require Import base list strings gmap.

Local Open Scope Z_scope.

(* ===================================================================== *)
(** ** JavaScript numbers *)
(* ===================================================================== *)

Inductive num : Type :=
| NaN
| Inf (negative : bool)
| Fin (q : Q).

Definition ofZ (z : Z) : num := Fin (inject_Z z).

Definition Qneg (q : Q) : bool := Qnum q <? 0.

(** [a === b] on numbers. *)
Definition strict_eq (a b : num) : bool :=
  match a, b with
  | Fin p, Fin q => Qeq_bool p q
  | Inf s, Inf t => Bool.eqb s t
  | _, _ => false
  end.

(** [a / b]. *)
Definition ndiv (a b : num) : num :=
  match a, b with
  | Fin p, Fin q =>
      if Qeq_bool q 0
      then (if Qeq_bool p 0 then NaN else Inf (Qneg p))
      else Fin (Qred (p / q))
  | Fin _, Inf _ => Fin 0
  | Inf s, Fin q => Inf (xorb s (Qneg q))
  | _, _ => NaN
  end.

(** [a + b]. *)
Definition nadd (a b : num) : num :=
  match a, b with
  | Fin p, Fin q => Fin (Qred (p + q))
  | Inf s, Fin _ | Fin _, Inf s => Inf s
  | Inf s, Inf t => if Bool.eqb s t then Inf s else NaN
  | _, _ => NaN
  end.

(** [a * b]. *)
Definition nmul (a b : num) : num :=
  match a, b with
  | Fin p, Fin q => Fin (Qred (p * q))
  | Inf s, Fin q | Fin q, Inf s =>
      if Qeq_bool q 0 then NaN else Inf (xorb s (Qneg q))
  | Inf s, Inf t => Inf (xorb s t)
  | _, _ => NaN
  end.

(** [a > b] and [a < b]; every comparison with [NaN] is false. *)
Definition ngt (a b : num) : bool :=
  match a, b with
  | Fin p, Fin q => negb (Qle_bool p q)
  | Inf false, Fin _ | Fin _, Inf true | Inf false, Inf true => true
  | _, _ => false
  end.

Definition nlt (a b : num) : bool := ngt b a.

(** [a <= b]. *)
Definition nle (a b : num) : bool :=
  match a, b with
  | Fin p, Fin q => Qle_bool p q
  | Inf true, Fin _ | Fin _, Inf false => true
  | Inf s, Inf t => implb t s
  | _, _ => false
  end.

Definition isNaN (a : num) : bool :=
  match a with NaN => true | _ => false end.

Arguments ofZ : simpl never.
Arguments ndiv : simpl never.
Arguments nadd : simpl never.
Arguments nmul : simpl never.

Module Vector3.
Record t : Type := mk { x : num; y : num; z : num }.
End Vector3.
Abbreviation Vector3 := Vector3.t.

(* ===================================================================== *)
(** ** State and exceptions *)
(* ===================================================================== *)

Inductive Result (S A : Type) : Type :=
| Ok (a : A) (s : S)
| Throw (msg : string) (s : S).
Arguments Ok {S A} a s.
Arguments Throw {S A} msg s.

Definition M (S A : Type) : Type := S -> Result S A.

Definition ret {S A} (a : A) : M S A := fun s => Ok a s.

Definition bind {S A B} (m : M S A) (k : A -> M S B) : M S B :=
  fun s => match m s with
           | Ok a s' => k a s'
           | Throw msg s' => Throw msg s'
           end.

Definition throw {S A} (msg : string) : M S A := fun s => Throw msg s.
Definition get {S} : M S S := fun s => Ok s s.
Definition modify {S} (f : S -> S) : M S unit := fun s => Ok tt (f s).

Declare Scope js_scope.
Delimit Scope js_scope with js.
Notation "x <- m ;; k" := (bind m (fun x => k))
  (at level 100, m at next level, right associativity) : js_scope.
Notation "m ;; k" := (bind m (fun _ => k))
  (at level 100, right associativity) : js_scope.
Local Open Scope js_scope.

(** [for (let j = from, n times; j++) body(j)]: the bodies below never
    assign to the loop variable, so the trip count is known on entry. *)
Fixpoint for_loop {S} (n : nat) (j : Z) (step : Z) (body : Z -> M S unit)
  : M S unit :=
  match n with
  | O => ret tt
  | Datatypes.S n' => body j ;; for_loop n' (j + step) step body
  end.

(** Number of iterations of [for (j = 0; j < hi; j += step)]. *)
Definition trips (hi step : Z) : nat := Z.to_nat ((hi + step - 1) / step).

(** [a[i]] for a number [i]: [None] is [undefined]. *)
Definition at_index {A} (a : list A) (i : Z) : option A :=
  if i <? 0 then None else a !! Z.to_nat i.

(** [ta[i] = v] on a typed array: a write outside the array is ignored. *)
Definition typed_write {A} (a : list A) (i : Z) (v : A) : list A :=
  if i <? 0 then a else <[Z.to_nat i := v]> a.

(* ===================================================================== *)
(** ** The geometry object *)
(* ===================================================================== *)

Definition itemSize : Z := 6.

(** A three.js [BufferAttribute] over a typed array.  [object_id] is the
    identity of the object ([new] hands out fresh ones), so that reuse of
    an attribute object can be told from its replacement. *)
Record BufferAttribute (T : Type) : Type := mkAttr {
  object_id : nat;
  array : list T;
  attr_itemSize : Z;
  needsUpdate : bool
}.
Arguments mkAttr {T} _ _ _ _.
Arguments object_id {T} _.
Arguments array {T} _.
Arguments attr_itemSize {T} _.
Arguments needsUpdate {T} _.

Abbreviation Float32BufferAttribute := (BufferAttribute num).
Abbreviation Uint16BufferAttribute := (BufferAttribute Z).

(** [attribute.count], that is [array.length / itemSize]; the division is
    exact for every attribute the geometry creates. *)
Definition count {T} (a : BufferAttribute T) : Z :=
  Z.of_nat (length (array a)) / attr_itemSize a.

Record Attributes : Type := mkAttributes {
  position : Float32BufferAttribute;
  previous : Float32BufferAttribute;
  next : Float32BufferAttribute;
  side : Float32BufferAttribute;
  width : Float32BufferAttribute;
  uv : Float32BufferAttribute;
  index : Uint16BufferAttribute;
  counters : Float32BufferAttribute
}.

(** The argument of [setPoints]: [Array<Vector3>], a plain array of numbers,
    a [Float32Array], or any other value. *)
Inductive Points : Type :=
| Vector3Array (a : list Vector3)
| NumberArray (a : list num)
| Float32Array (a : list num)
| OtherValue.

(** The object itself: [priv_x] is the private field [#x]. *)
Record MeshLineGeometry : Type := mkGeometry {
  priv_positions : list num;
  priv_previous : list num;
  priv_next : list num;
  priv_side : list num;
  priv_width : list num;
  priv_indices_array : list Z;
  priv_uvs : list num;
  priv_counters : list num;
  widthCallback : option (num -> num);
  priv_attributes : option Attributes;
  priv_points : Points;
  (** [BufferGeometry.attributes] and [BufferGeometry.index]: the attribute
      objects registered under their public names, by identity. *)
  geometry_attributes : gmap string nat;
  geometry_index : option nat;
  (** Number of attribute objects created so far. *)
  allocated : nat;
  (** The arguments [widthCallback] has been called with, oldest first. *)
  callback_log : list num
}.

Definition new_MeshLineGeometry : MeshLineGeometry :=
  mkGeometry [] [] [] [] [] [] [] [] None None (NumberArray [])
             ∅ None 0%nat [].

Definition set_positions v (g : MeshLineGeometry) :=
  mkGeometry v (priv_previous g) (priv_next g) (priv_side g) (priv_width g)
    (priv_indices_array g) (priv_uvs g) (priv_counters g) (widthCallback g)
    (priv_attributes g) (priv_points g) (geometry_attributes g)
    (geometry_index g) (allocated g) (callback_log g).
Definition set_previous v (g : MeshLineGeometry) :=
  mkGeometry (priv_positions g) v (priv_next g) (priv_side g) (priv_width g)
    (priv_indices_array g) (priv_uvs g) (priv_counters g) (widthCallback g)
    (priv_attributes g) (priv_points g) (geometry_attributes g)
    (geometry_index g) (allocated g) (callback_log g).
Definition set_next v (g : MeshLineGeometry) :=
  mkGeometry (priv_positions g) (priv_previous g) v (priv_side g) (priv_width g)
    (priv_indices_array g) (priv_uvs g) (priv_counters g) (widthCallback g)
    (priv_attributes g) (priv_points g) (geometry_attributes g)
    (geometry_index g) (allocated g) (callback_log g).
Definition set_side v (g : MeshLineGeometry) :=
  mkGeometry (priv_positions g) (priv_previous g) (priv_next g) v (priv_width g)
    (priv_indices_array g) (priv_uvs g) (priv_counters g) (widthCallback g)
    (priv_attributes g) (priv_points g) (geometry_attributes g)
    (geometry_index g) (allocated g) (callback_log g).
Definition set_width v (g : MeshLineGeometry) :=
  mkGeometry (priv_positions g) (priv_previous g) (priv_next g) (priv_side g) v
    (priv_indices_array g) (priv_uvs g) (priv_counters g) (widthCallback g)
    (priv_attributes g) (priv_points g) (geometry_attributes g)
    (geometry_index g) (allocated g) (callback_log g).
Definition set_indices_array v (g : MeshLineGeometry) :=
  mkGeometry (priv_positions g) (priv_previous g) (priv_next g) (priv_side g)
    (priv_width g) v (priv_uvs g) (priv_counters g) (widthCallback g)
    (priv_attributes g) (priv_points g) (geometry_attributes g)
    (geometry_index g) (allocated g) (callback_log g).
Definition set_uvs v (g : MeshLineGeometry) :=
  mkGeometry (priv_positions g) (priv_previous g) (priv_next g) (priv_side g)
    (priv_width g) (priv_indices_array g) v (priv_counters g) (widthCallback g)
    (priv_attributes g) (priv_points g) (geometry_attributes g)
    (geometry_index g) (allocated g) (callback_log g).
Definition set_counters v (g : MeshLineGeometry) :=
  mkGeometry (priv_positions g) (priv_previous g) (priv_next g) (priv_side g)
    (priv_width g) (priv_indices_array g) (priv_uvs g) v (widthCallback g)
    (priv_attributes g) (priv_points g) (geometry_attributes g)
    (geometry_index g) (allocated g) (callback_log g).
Definition set_widthCallback v (g : MeshLineGeometry) :=
  mkGeometry (priv_positions g) (priv_previous g) (priv_next g) (priv_side g)
    (priv_width g) (priv_indices_array g) (priv_uvs g) (priv_counters g) v
    (priv_attributes g) (priv_points g) (geometry_attributes g)
    (geometry_index g) (allocated g) (callback_log g).
Definition set_attributes v (g : MeshLineGeometry) :=
  mkGeometry (priv_positions g) (priv_previous g) (priv_next g) (priv_side g)
    (priv_width g) (priv_indices_array g) (priv_uvs g) (priv_counters g)
    (widthCallback g) v (priv_points g) (geometry_attributes g)
    (geometry_index g) (allocated g) (callback_log g).
Definition set_points v (g : MeshLineGeometry) :=
  mkGeometry (priv_positions g) (priv_previous g) (priv_next g) (priv_side g)
    (priv_width g) (priv_indices_array g) (priv_uvs g) (priv_counters g)
    (widthCallback g) (priv_attributes g) v (geometry_attributes g)
    (geometry_index g) (allocated g) (callback_log g).
Definition set_geometry_attributes v (g : MeshLineGeometry) :=
  mkGeometry (priv_positions g) (priv_previous g) (priv_next g) (priv_side g)
    (priv_width g) (priv_indices_array g) (priv_uvs g) (priv_counters g)
    (widthCallback g) (priv_attributes g) (priv_points g) v
    (geometry_index g) (allocated g) (callback_log g).
Definition set_geometry_index v (g : MeshLineGeometry) :=
  mkGeometry (priv_positions g) (priv_previous g) (priv_next g) (priv_side g)
    (priv_width g) (priv_indices_array g) (priv_uvs g) (priv_counters g)
    (widthCallback g) (priv_attributes g) (priv_points g)
    (geometry_attributes g) v (allocated g) (callback_log g).
Definition set_allocated v (g : MeshLineGeometry) :=
  mkGeometry (priv_positions g) (priv_previous g) (priv_next g) (priv_side g)
    (priv_width g) (priv_indices_array g) (priv_uvs g) (priv_counters g)
    (widthCallback g) (priv_attributes g) (priv_points g)
    (geometry_attributes g) (geometry_index g) v (callback_log g).
Definition set_callback_log v (g : MeshLineGeometry) :=
  mkGeometry (priv_positions g) (priv_previous g) (priv_next g) (priv_side g)
    (priv_width g) (priv_indices_array g) (priv_uvs g) (priv_counters g)
    (widthCallback g) (priv_attributes g) (priv_points g)
    (geometry_attributes g) (geometry_index g) (allocated g) v.

Abbreviation Geo := (M MeshLineGeometry).

(* ===================================================================== *)
(** ** Typed arrays and attribute objects *)
(* ===================================================================== *)

(** Storing a number in a [Float32Array] rounds it to the nearest binary32
    value, ties to the even significand ([Math.fround]); the number being
    an exact rational here, it is that rational which is rounded.

    [reaches a d e] is [2^e <= a / d], and [nearest_even n d] the integer
    nearest to [n / d], for [a], [n] not negative and [d] positive. *)
Definition reaches (a d e : Z) : bool :=
  d * 2 ^ Z.max 0 e <=? a * 2 ^ Z.max 0 (- e).

Definition nearest_even (n d : Z) : Z :=
  let q := n / d in
  let r := n mod d in
  if 2 * r <? d then q
  else if d <? 2 * r then q + 1
  else if Z.even q then q else q + 1.

(** The binary exponent of a positive [a / d]: the [e] with
    [2^e <= a / d < 2^(e+1)]. *)
Definition exponent_of (a d : Z) : Z :=
  let e0 := Z.log2 a - Z.log2 d in
  if reaches a d e0 then e0 else e0 - 1.

(** A binary32 value is a multiple of [2^(e - 23)], where [e] is the
    exponent of the number and at least -126 (below, the values are
    subnormal); a result of [2^128] or more is an infinity. *)
Definition fround (q : Q) : num :=
  let n := Qnum q in
  let d := Z.pos (Qden q) in
  if n =? 0 then Fin 0
  else
    let a := Z.abs n in
    let e := Z.max (exponent_of a d) (-126) in
    let k := e - 23 in
    let m := nearest_even (a * 2 ^ Z.max 0 (- k)) (d * 2 ^ Z.max 0 k) in
    if 2 ^ 128 * 2 ^ Z.max 0 (- k) <=? m * 2 ^ Z.max 0 k
    then Inf (n <? 0)
    else Fin (Qred (Qmake (Z.sgn n * m * 2 ^ Z.max 0 k)
                          (Z.to_pos (2 ^ Z.max 0 (- k))))).

Definition toFloat32 (v : num) : num :=
  match v with
  | Fin q => fround q
  | _ => v
  end.

Arguments toFloat32 : simpl never.

(** Storing an integer in a [Uint16Array]: reduction modulo 2^16. *)
Definition toUint16 (v : Z) : Z := v mod 65536.

(** [typedArray.set(source)]: overwrites the first [source.length] elements;
    [None] is the [RangeError] raised when the source is longer. *)
Definition typed_set {A T} (conv : A -> T) (target : list T) (source : list A)
  : option (list T) :=
  if (length target <? length source)%nat then None
  else Some (map conv source ++ drop (length source) target).

Record Lens (S A : Type) : Type := mkLens {
  view : S -> A;
  update : A -> S -> S
}.
Arguments mkLens {S A} _ _.
Arguments view {S A} _ _.
Arguments update {S A} _ _ _.

Definition with_array {T} (v : list T) (a : BufferAttribute T) :=
  mkAttr (object_id a) v (attr_itemSize a) (needsUpdate a).
Definition with_needsUpdate {T} (v : bool) (a : BufferAttribute T) :=
  mkAttr (object_id a) (array a) (attr_itemSize a) v.

Definition position_ : Lens Attributes Float32BufferAttribute :=
  mkLens position (fun v a => mkAttributes v (previous a) (next a) (side a)
                    (width a) (uv a) (index a) (counters a)).
Definition previous_ : Lens Attributes Float32BufferAttribute :=
  mkLens previous (fun v a => mkAttributes (position a) v (next a) (side a)
                    (width a) (uv a) (index a) (counters a)).
Definition next_ : Lens Attributes Float32BufferAttribute :=
  mkLens next (fun v a => mkAttributes (position a) (previous a) v (side a)
                    (width a) (uv a) (index a) (counters a)).
Definition side_ : Lens Attributes Float32BufferAttribute :=
  mkLens side (fun v a => mkAttributes (position a) (previous a) (next a) v
                    (width a) (uv a) (index a) (counters a)).
Definition width_ : Lens Attributes Float32BufferAttribute :=
  mkLens width (fun v a => mkAttributes (position a) (previous a) (next a)
                    (side a) v (uv a) (index a) (counters a)).
Definition uv_ : Lens Attributes Float32BufferAttribute :=
  mkLens uv (fun v a => mkAttributes (position a) (previous a) (next a)
                    (side a) (width a) v (index a) (counters a)).
Definition index_ : Lens Attributes Uint16BufferAttribute :=
  mkLens index (fun v a => mkAttributes (position a) (previous a) (next a)
                    (side a) (width a) (uv a) v (counters a)).
Definition counters_ : Lens Attributes Float32BufferAttribute :=
  mkLens counters (fun v a => mkAttributes (position a) (previous a) (next a)
                    (side a) (width a) (uv a) (index a) v).

Abbreviation Attr := (M Attributes).

(** [attribute.copyArray(source)], which is [attribute.array.set(source)]. *)
Definition copyArray {A T} (l : Lens Attributes (BufferAttribute T))
  (conv : A -> T) (source : list A) : Attr unit :=
  fun a =>
    match typed_set conv (array (view l a)) source with
    | Some v => Ok tt (update l (with_array v (view l a)) a)
    | None => Throw "RangeError" a
    end.

(** [attribute.needsUpdate = true]. *)
Definition set_needsUpdate {T} (l : Lens Attributes (BufferAttribute T))
  : Attr unit :=
  modify (fun a => update l (with_needsUpdate true (view l a)) a).

(** Runs code that works on [this.#attributes]; [TypeError] when it is
    [null]. *)
Definition on_attributes {A} (m : Attr A) : Geo A :=
  fun g =>
    match priv_attributes g with
    | None => Throw "TypeError" g
    | Some a =>
        match m a with
        | Ok r a' => Ok r (set_attributes (Some a') g)
        | Throw msg a' => Throw msg (set_attributes (Some a') g)
        end
    end.

(** [new BufferAttribute(typedArray, itemSize)]. *)
Definition new_BufferAttribute {T} (v : list T) (size : Z)
  : Geo (BufferAttribute T) :=
  fun g => Ok (mkAttr (allocated g) v size false)
              (set_allocated (Datatypes.S (allocated g)) g).

(** [this.setAttribute(name, attribute)] and [this.setIndex(attribute)]. *)
Definition setAttribute {T} (name : string) (a : BufferAttribute T)
  : Geo unit :=
  modify (fun g =>
    set_geometry_attributes (<[name := object_id a]> (geometry_attributes g)) g).

Definition setIndex {T} (a : BufferAttribute T) : Geo unit :=
  modify (set_geometry_index (Some (object_id a))).

(* ===================================================================== *)
(** ** [MeshLineGeometry]: setPoints and #process *)
(* ===================================================================== *)

Definition points_length (points : Points) : nat :=
  match points with
  | Vector3Array a => length a
  | NumberArray a | Float32Array a => length a
  | OtherValue => 0
  end.

(** [points[j]] read as a [Vector3], and read as a number. *)
Definition vector3_at (points : Points) (j : Z) : option Vector3 :=
  match points with
  | Vector3Array a => at_index a j
  | _ => None
  end.

Definition number_at (points : Points) (j : Z) : option num :=
  match points with
  | NumberArray a | Float32Array a => at_index a j
  | _ => None
  end.

(** [!!(array.length && array[0] instanceof Vector3)]. *)
Definition isVector3Array (points : Points) : bool :=
  negb (points_length points =? 0)%nat && bool_decide (is_Some (vector3_at points 0)).

Definition push_positions (a b c : num) : Geo unit :=
  modify (fun g => set_positions (priv_positions g ++ [a; b; c]) g).
Definition push_counters (c : num) : Geo unit :=
  modify (fun g => set_counters (priv_counters g ++ [c]) g).
Definition push_previous (a b c : num) : Geo unit :=
  modify (fun g => set_previous (priv_previous g ++ [a; b; c]) g).
Definition push_next (a b c : num) : Geo unit :=
  modify (fun g => set_next (priv_next g ++ [a; b; c]) g).
Definition push_side (v : num) : Geo unit :=
  modify (fun g => set_side (priv_side g ++ [v]) g).
Definition push_width (v : num) : Geo unit :=
  modify (fun g => set_width (priv_width g ++ [v]) g).
Definition push_uvs (u v : num) : Geo unit :=
  modify (fun g => set_uvs (priv_uvs g ++ [u; v]) g).
Definition push_indices_array (a b c : Z) : Geo unit :=
  modify (fun g => set_indices_array (priv_indices_array g ++ [a; b; c]) g).

(** [a === b] where either side may be [undefined]. *)
Definition strict_eq_value (a b : option num) : bool :=
  match a, b with
  | Some u, Some v => strict_eq u v
  | None, None => true
  | _, _ => false
  end.

Definition pointsAreEqual (pointIndexA pointIndexB : Z) : Geo bool :=
  g <- get ;;
  let actualIndexA := pointIndexA * itemSize in
  let actualIndexB := pointIndexB * itemSize in
  ret (strict_eq_value (at_index (priv_positions g) (actualIndexA + 0))
                       (at_index (priv_positions g) (actualIndexB + 0))
       && strict_eq_value (at_index (priv_positions g) (actualIndexA + 1))
                          (at_index (priv_positions g) (actualIndexB + 1))
       && strict_eq_value (at_index (priv_positions g) (actualIndexA + 2))
                          (at_index (priv_positions g) (actualIndexB + 2))).

Definition clonePoint (pointIndex : Z) : Geo (num * num * num) :=
  g <- get ;;
  let actualIndex := pointIndex * itemSize in
  match at_index (priv_positions g) (actualIndex + 0),
        at_index (priv_positions g) (actualIndex + 1),
        at_index (priv_positions g) (actualIndex + 2) with
  | Some x, Some y, Some z => ret (x, y, z)
  | _, _, _ => throw "point missing"
  end.

(** [this.widthCallback(t)], recording the call. *)
Definition call_widthCallback (f : num -> num) (t : num) : Geo num :=
  modify (fun g => set_callback_log (callback_log g ++ [t]) g) ;;
  ret (f t).

Definition process_body (pointCount : Z) (j : Z) : Geo unit :=
  push_side (ofZ 1) ;;
  push_side (ofZ (-1)) ;;
  g <- get ;;
  width <- match widthCallback g with
           | Some f => call_widthCallback f (ndiv (ofZ j) (ofZ (pointCount - 1)))
           | None => ret (ofZ 1)
           end ;;
  push_width width ;;
  push_width width ;;
  push_uvs (ndiv (ofZ j) (ofZ (pointCount - 1))) (ofZ 0) ;;
  push_uvs (ndiv (ofZ j) (ofZ (pointCount - 1))) (ofZ 1) ;;
  (if j <? pointCount - 1 then
     point <- clonePoint j ;;
     let '(p0, p1, p2) := point in
     push_previous p0 p1 p2 ;;
     push_previous p0 p1 p2 ;;
     let n := j * 2 in
     push_indices_array n (n + 1) (n + 2) ;;
     push_indices_array (n + 2) (n + 1) (n + 3)
   else ret tt) ;;
  (if j >? 0 then
     point <- clonePoint j ;;
     let '(p0, p1, p2) := point in
     push_next p0 p1 p2 ;;
     push_next p0 p1 p2
   else ret tt).

(** The [if] branch of the attribute update: eight new attribute objects. *)
Definition allocate_attributes : Geo unit :=
  g <- get ;;
  a_position <- new_BufferAttribute (map toFloat32 (priv_positions g)) 3 ;;
  a_previous <- new_BufferAttribute (map toFloat32 (priv_previous g)) 3 ;;
  a_next <- new_BufferAttribute (map toFloat32 (priv_next g)) 3 ;;
  a_side <- new_BufferAttribute (map toFloat32 (priv_side g)) 1 ;;
  a_width <- new_BufferAttribute (map toFloat32 (priv_width g)) 1 ;;
  a_uv <- new_BufferAttribute (map toFloat32 (priv_uvs g)) 2 ;;
  a_index <- new_BufferAttribute (map toUint16 (priv_indices_array g)) 1 ;;
  a_counters <- new_BufferAttribute (map toFloat32 (priv_counters g)) 1 ;;
  modify (set_attributes
            (Some (mkAttributes a_position a_previous a_next a_side a_width
                                a_uv a_index a_counters))).

(** The [else] branch: the existing objects are refilled. *)
Definition refresh_attributes : Geo unit :=
  g <- get ;;
  on_attributes (
    copyArray position_ toFloat32 (priv_positions g) ;;
    set_needsUpdate position_ ;;
    copyArray previous_ toFloat32 (priv_previous g) ;;
    set_needsUpdate previous_ ;;
    copyArray next_ toFloat32 (priv_next g) ;;
    set_needsUpdate next_ ;;
    copyArray side_ toFloat32 (priv_side g) ;;
    set_needsUpdate side_ ;;
    copyArray width_ toFloat32 (priv_width g) ;;
    set_needsUpdate width_ ;;
    copyArray uv_ toFloat32 (priv_uvs g) ;;
    set_needsUpdate uv_ ;;
    copyArray index_ toUint16 (priv_indices_array g) ;;
    set_needsUpdate index_).

(** [position.count * 3 !== this.#positions.length]. *)
Definition layout_changed (a : Attributes) (g : MeshLineGeometry) : bool :=
  negb (count (position a) * 3 =? Z.of_nat (length (priv_positions g))).

(** [#process], lines 133-195: the arrays are emptied and refilled from
    [this.#positions], whose length is six times the number of points, so
    that the division giving [pointCount] is exact. *)
Definition process_arrays : Geo unit :=
  g0 <- get ;;
  let pointCount := Z.of_nat (length (priv_positions g0)) / itemSize in
  modify (set_previous []) ;;
  modify (set_next []) ;;
  modify (set_side []) ;;
  modify (set_width []) ;;
  modify (set_indices_array []) ;;
  modify (set_uvs []) ;;
  closed <- pointsAreEqual 0 (pointCount - 1) ;;
  point <- (if closed then clonePoint (pointCount - 2) else clonePoint 0) ;;
  (let '(p0, p1, p2) := point in
   push_previous p0 p1 p2 ;;
   push_previous p0 p1 p2) ;;
  for_loop (trips pointCount 1) 0 1 (process_body pointCount) ;;
  closed <- pointsAreEqual (pointCount - 1) 0 ;;
  point <- (if closed then clonePoint 1 else clonePoint (pointCount - 1)) ;;
  (let '(p0, p1, p2) := point in
   push_next p0 p1 p2 ;;
   push_next p0 p1 p2).

(** [#process], lines 197-225: new attribute objects, or the old ones
    refilled. *)
Definition process_attributes : Geo unit :=
  g <- get ;;
  match priv_attributes g with
  | None => allocate_attributes
  | Some a => if layout_changed a g then allocate_attributes
              else refresh_attributes
  end.

(** [#process], lines 227-235. *)
Definition process_register : Geo unit :=
  g <- get ;;
  match priv_attributes g with
  | None => throw "TypeError"
  | Some a =>
      setAttribute "position" (position a) ;;
      setAttribute "previous" (previous a) ;;
      setAttribute "next" (next a) ;;
      setAttribute "side" (side a) ;;
      setAttribute "width" (width a) ;;
      setAttribute "uv" (uv a) ;;
      setAttribute "counters" (counters a) ;;
      setIndex (index a)
  end.

(** [#process].  The two final calls, [computeBoundingSphere] and
    [computeBoundingBox], belong to three.js and write only the bounding
    volumes, which this model does not carry. *)
Definition process : Geo unit :=
  process_arrays ;;
  process_attributes ;;
  process_register.

Definition setPoints_vector3_body (points : Points) (j : Z) : Geo unit :=
  match vector3_at points j with
  | None => throw "point missing"
  | Some p =>
      let c := ndiv (ofZ j) (ofZ (Z.of_nat (points_length points))) in
      push_positions (Vector3.x p) (Vector3.y p) (Vector3.z p) ;;
      push_positions (Vector3.x p) (Vector3.y p) (Vector3.z p) ;;
      push_counters c ;;
      push_counters c
  end.

Definition setPoints_flat_body (points : Points) (j : Z) : Geo unit :=
  let c := ndiv (ofZ j) (ofZ (Z.of_nat (points_length points))) in
  match number_at points (j + 0), number_at points (j + 1),
        number_at points (j + 2) with
  | Some x, Some y, Some z =>
      push_positions x y z ;;
      push_positions x y z ;;
      push_counters c ;;
      push_counters c
  | _, _, _ => throw "point missing"
  end.

Definition setPoints (points : Points) (wcb : option (num -> num))
  : Geo unit :=
  match points with
  | OtherValue => throw "invalid points"
  | _ =>
      if (points_length points =? 0)%nat then ret tt
      else
        modify (set_points points) ;;
        match wcb with
        | Some f => modify (set_widthCallback (Some f))
        | None => ret tt
        end ;;
        modify (set_positions []) ;;
        modify (set_counters []) ;;
        (if isVector3Array points
         then for_loop (points_length points) 0 1
                       (setPoints_vector3_body points)
         else for_loop (trips (Z.of_nat (points_length points)) 3) 0 3
                       (setPoints_flat_body points)) ;;
        process
  end.

(* ===================================================================== *)
(** ** [advance] and [memcpy] *)
(* ===================================================================== *)

(** The typed array of an attribute, as a place that can be read and
    written; [memcpy] is given two such places, which may be the same. *)
Definition array_of (l : Lens Attributes Float32BufferAttribute)
  : Lens Attributes (list num) :=
  mkLens (fun a => array (view l a))
         (fun v a => update l (with_array v (view l a)) a).

Definition memcpy_body (src : Lens Attributes (list num)) (srcBegin : Z)
  (dst : Lens Attributes (list num)) (dstOffset : Z) (i : Z) : Attr unit :=
  a <- get ;;
  match at_index (view src a) (i + srcBegin) with
  | None => throw "missing src value"
  | Some srcValue =>
      modify (fun a => update dst (typed_write (view dst a) (i + dstOffset) srcValue) a)
  end.

Definition memcpy (src : Lens Attributes (list num)) (srcBegin : Z)
  (dst : Lens Attributes (list num)) (dstOffset : Z) (srcLength : Z)
  : Attr unit :=
  a <- get ;;
  if dstOffset + srcLength >? Z.of_nat (length (view dst a))
  then throw "Not enough space to copy from src to dst."
  else for_loop (Z.to_nat srcLength) 0 1
                (memcpy_body src srcBegin dst dstOffset).

(** [array[i] = v] on the typed array of an attribute. *)
Definition store (dst : Lens Attributes (list num)) (i : Z) (v : num)
  : Attr unit :=
  modify (fun a => update dst (typed_write (view dst a) i (toFloat32 v)) a).

Definition advance_attributes (p : Vector3) : Attr unit :=
  a <- get ;;
  let positions := array_of position_ in
  let previous := array_of previous_ in
  let next := array_of next_ in
  let l := Z.of_nat (length (view positions a)) in
  memcpy positions 0 previous 0 l ;;
  memcpy positions itemSize positions 0 (l - itemSize) ;;
  store positions (l - 6) (Vector3.x p) ;;
  store positions (l - 5) (Vector3.y p) ;;
  store positions (l - 4) (Vector3.z p) ;;
  store positions (l - 3) (Vector3.x p) ;;
  store positions (l - 2) (Vector3.y p) ;;
  store positions (l - 1) (Vector3.z p) ;;
  memcpy positions itemSize next 0 (l - itemSize) ;;
  store next (l - 6) (Vector3.x p) ;;
  store next (l - 5) (Vector3.y p) ;;
  store next (l - 4) (Vector3.z p) ;;
  store next (l - 3) (Vector3.x p) ;;
  store next (l - 2) (Vector3.y p) ;;
  store next (l - 1) (Vector3.z p) ;;
  set_needsUpdate position_ ;;
  set_needsUpdate previous_ ;;
  set_needsUpdate next_.

Definition advance (p : Vector3) : Geo unit :=
  g <- get ;;
  match priv_attributes g with
  | None => throw "Call setPoints first."
  | Some _ => on_attributes (advance_attributes p)
  end.

(* ===================================================================== *)
(** ** [MeshLineRaycast] *)
(* ===================================================================== *)

Record Ray : Type := mkRay { origin : Vector3; direction : Vector3 }.
Record Sphere : Type := mkSphere { center : Vector3; radius : num }.

(** An entry pushed to [intersects]; [face] is always [null], [faceIndex]
    always [undefined] and [object] always the mesh itself. *)
Record Intersection : Type := mkIntersection {
  distance : num;
  point : Vector3;
  hit_index : Z
}.

(** What the function reads from [raycaster]. *)
Record Raycaster : Type := mkRaycaster {
  ray : Ray;
  near : num;
  far : num
}.

(** What the function can write: the caller's [intersects] array,
    [raycaster.params.Line] (its [threshold], when the object is there) and
    [geometry.boundingSphere]. *)
Record PickState : Type := mkPickState {
  intersects : list Intersection;
  params_Line : option num;
  boundingSphere : option Sphere
}.

Abbreviation Pick := (M PickState).

(** [v.fromArray(array, offset)]; a missing element, [undefined] in
    JavaScript, behaves as [NaN] in every later computation. *)
Definition fromArray (a : list num) (offset : Z) : Vector3 :=
  Vector3.mk (default NaN (at_index a offset))
             (default NaN (at_index a (offset + 1)))
             (default NaN (at_index a (offset + 2))).

(** The three.js operations [MeshLineRaycast] calls, as an interface:
    [Matrix4] with [invert] and the [applyMatrix4] of vectors, spheres and
    rays, [Ray.intersectSphere], [Ray.distanceSqToSegment] (which returns
    the squared distance, the closest point on the ray and the closest
    point on the segment), [Vector3.distanceTo], and the sphere that
    [geometry.computeBoundingSphere()] stores for a position array. *)
Class Three : Type := mkThree {
  Matrix4 : Type;
  invert : Matrix4 -> Matrix4;
  Vector3_applyMatrix4 : Vector3 -> Matrix4 -> Vector3;
  Sphere_applyMatrix4 : Sphere -> Matrix4 -> Sphere;
  Ray_applyMatrix4 : Ray -> Matrix4 -> Ray;
  intersectSphere : Ray -> Sphere -> option Vector3;
  distanceSqToSegment : Ray -> Vector3 -> Vector3 -> num * Vector3 * Vector3;
  distanceTo : Vector3 -> Vector3 -> num;
  computeBoundingSphere : list num -> Sphere
}.

(** What the function reads from [mesh]: the world matrix, the material's
    [lineWidth], whether the mesh is a [LineSegments], and the geometry's
    index, position and width arrays. *)
Record Mesh `{Three} : Type := mkMesh {
  matrixWorld : Matrix4;
  lineWidth : num;
  isLineSegments : bool;
  geometry_index_array : option (list Z);
  position_array : list num;
  width_array : list num
}.

(** [const step = mesh instanceof LineSegments ? 2 : 1]. *)
Definition raycast_step `{Three} (mesh : Mesh) : Z :=
  if isLineSegments mesh then 2 else 1.

(** The body of the scan at index [i]; the result is the value of [i]
    when the body ends ([l] once an intersection has been pushed).  The
    check [width == null] of the source cannot fire, [width] being an
    element of a typed array or 1. *)
Definition raycast_body `{Three} (mesh : Mesh) (raycaster : Raycaster)
  (localRay : Ray) (indices : list Z) (l : Z) (i : Z) : Pick Z :=
  match at_index indices i, at_index indices (i + 1) with
  | Some a, Some b =>
      let vStart := fromArray (position_array mesh) (a * 3) in
      let vEnd := fromArray (position_array mesh) (b * 3) in
      let width := default (ofZ 1) (at_index (width_array mesh) (i / 3)) in
      modify (fun s => mkPickState (intersects s)
                         (Some (default (ofZ 1) (params_Line s)))
                         (boundingSphere s)) ;;
      s <- get ;;
      let threshold := default (ofZ 1) (params_Line s) in
      let precision :=
        nadd threshold (ndiv (nmul (lineWidth mesh) width) (ofZ 2)) in
      let precisionSq := nmul precision precision in
      let '(distSq, interRay, interSegment) :=
        distanceSqToSegment localRay vStart vEnd in
      if ngt distSq precisionSq then ret i
      else
        let interRay := Vector3_applyMatrix4 interRay (matrixWorld mesh) in
        let distance := distanceTo (origin (ray raycaster)) interRay in
        if nlt distance (near raycaster) || ngt distance (far raycaster)
        then ret i
        else
          modify (fun s =>
            mkPickState
              (intersects s ++
                 [mkIntersection distance
                    (Vector3_applyMatrix4 interSegment (matrixWorld mesh))
                    i])
              (params_Line s) (boundingSphere s)) ;;
          ret l
  | _, _ => throw "missing index"
  end.

(** [for (let i = 0, l = indices.length - 1; i < l; i += step)]; the
    body may assign [i], so the loop is run on fuel. *)
Fixpoint raycast_loop `{Three} (mesh : Mesh) (raycaster : Raycaster)
  (fuel : nat) (localRay : Ray) (indices : list Z) (l : Z) (i : Z)
  : Pick unit :=
  match fuel with
  | O => throw "out of fuel"
  | Datatypes.S fuel' =>
      if i <? l then
        i' <- raycast_body mesh raycaster localRay indices l i ;;
        raycast_loop mesh raycaster fuel' localRay indices l
                     (i' + raycast_step mesh)
      else ret tt
  end.

Definition MeshLineRaycast `{Three} (mesh : Mesh) (raycaster : Raycaster)
  : Pick unit :=
  s0 <- get ;;
  match boundingSphere s0 with
  | Some _ => ret tt
  | None =>
      modify (fun s => mkPickState (intersects s) (params_Line s)
                         (Some (computeBoundingSphere (position_array mesh))))
  end ;;
  s1 <- get ;;
  match boundingSphere s1 with
  | None => throw "TypeError"
  | Some sphere0 =>
      let sphere := Sphere_applyMatrix4 sphere0 (matrixWorld mesh) in
      match intersectSphere (ray raycaster) sphere with
      | None => ret tt
      | Some _ =>
          let inverseMatrix := invert (matrixWorld mesh) in
          let localRay := Ray_applyMatrix4 (ray raycaster) inverseMatrix in
          match geometry_index_array mesh with
          | None => ret tt
          | Some indices =>
              let l := Z.of_nat (length indices) - 1 in
              raycast_loop mesh raycaster (Datatypes.S (Z.to_nat l))
                           localRay indices l 0
          end
      end
  end.

(* ===================================================================== *)
(** ** The picker in the words of the specification *)
(* ===================================================================== *)

(** The ray in the space of the stored positions. *)
Definition local_ray `{Three} (mesh : Mesh) (raycaster : Raycaster) : Ray :=
  Ray_applyMatrix4 (ray raycaster) (invert (matrixWorld mesh)).

(** Squared distance, closest point on the ray and closest point on the
    segment, for the segment between the vertices [indices[i]] and
    [indices[i + 1]]. *)
Definition segment_measure `{Three} (mesh : Mesh) (raycaster : Raycaster)
  (indices : list Z) (i : Z) : num * Vector3 * Vector3 :=
  distanceSqToSegment (local_ray mesh raycaster)
    (fromArray (position_array mesh) (default 0 (at_index indices i) * 3))
    (fromArray (position_array mesh)
       (default 0 (at_index indices (i + 1)) * 3)).

Definition segment_distSq `{Three} (mesh : Mesh) (raycaster : Raycaster)
  (indices : list Z) (i : Z) : num :=
  fst (fst (segment_measure mesh raycaster indices i)).

(** [threshold + (lineWidth * width) / 2], the width being
    [widthArray[floor(i / 3)]], or 1 when that is out of range. *)
Definition pick_radius `{Three} (mesh : Mesh) (threshold : num) (i : Z)
  : num :=
  nadd threshold
    (ndiv (nmul (lineWidth mesh)
                (default (ofZ 1) (at_index (width_array mesh) (i / 3))))
          (ofZ 2)).

(** World-space distance from the ray origin to the closest point on the
    ray, and the world-space point that is recorded. *)
Definition hit_distance `{Three} (mesh : Mesh) (raycaster : Raycaster)
  (indices : list Z) (i : Z) : num :=
  distanceTo (origin (ray raycaster))
    (Vector3_applyMatrix4
       (snd (fst (segment_measure mesh raycaster indices i)))
       (matrixWorld mesh)).

Definition hit_point `{Three} (mesh : Mesh) (raycaster : Raycaster)
  (indices : list Z) (i : Z) : Vector3 :=
  Vector3_applyMatrix4 (snd (segment_measure mesh raycaster indices i))
                       (matrixWorld mesh).

(** Accepted: the squared distance is at most the square of the radius. *)
Definition pick_accepts `{Three} (mesh : Mesh) (raycaster : Raycaster)
  (indices : list Z) (threshold : num) (i : Z) : bool :=
  nle (segment_distSq mesh raycaster indices i)
      (nmul (pick_radius mesh threshold i) (pick_radius mesh threshold i)).


(** The distance between scanned index pairs: 2 in segmented mode,
    else 1. *)
Definition pick_step (segmented : bool) : Z :=
  match segmented with
  | true => 2
  | false => 1
  end.

(** The [n] indices scanned from [i] on: [i], [i + step], ... *)
Definition scanned `{Three} (mesh : Mesh) (i : Z) (n : nat) : list Z :=
  map (fun k => i + Z.of_nat k * pick_step (isLineSegments mesh)) (seq 0 n).

(** The indices the scan visits unless it stops early: 0, step, 2 step,
    ... below [indices.length - 1]. *)
Definition pick_candidates `{Three} (mesh : Mesh) (indices : list Z)
  : list Z :=
  scanned mesh 0 (trips (Z.of_nat (length indices) - 1)
                        (pick_step (isLineSegments mesh))).



(* ===================================================================== *)
(** ** Vocabulary of the statements *)
(* ===================================================================== *)

(** The six scalars a point contributes to [position], [previous] and
    [next]: its coordinates once per rail. *)
Definition rails (p : Vector3) : list num :=
  [Vector3.x p; Vector3.y p; Vector3.z p;
   Vector3.x p; Vector3.y p; Vector3.z p].

Definition coordinates (p : Vector3) : list num :=
  [Vector3.x p; Vector3.y p; Vector3.z p].

(** The three shapes in which a sequence of points can be handed to
    [setPoints]. *)
Inductive Shape : Type := AsVector3Array | AsNumberArray | AsFloat32Array.

Definition encode (sh : Shape) (pts : list Vector3) : Points :=
  match sh with
  | AsVector3Array => Vector3Array pts
  | AsNumberArray => NumberArray (flat_map coordinates pts)
  | AsFloat32Array => Float32Array (flat_map coordinates pts)
  end.

(** Exact equality of two points, coordinate by coordinate, with [===]. *)
Definition point_eq (p q : Vector3) : bool :=
  strict_eq (Vector3.x p) (Vector3.x q)
  && strict_eq (Vector3.y p) (Vector3.y q)
  && strict_eq (Vector3.z p) (Vector3.z q).

(** Vertex [v] of an attribute with three components per vertex. *)
Definition vertex3 (a : list num) (v : nat) : option Vector3 :=
  match a !! (3 * v)%nat, a !! (3 * v + 1)%nat, a !! (3 * v + 2)%nat with
  | Some x, Some y, Some z => Some (Vector3.mk x y z)
  | _, _, _ => None
  end.

(** The point a [Float32Array] holds once the coordinates of [p] have
    been stored in it. *)
Definition stored (p : Vector3) : Vector3 :=
  Vector3.mk (toFloat32 (Vector3.x p)) (toFloat32 (Vector3.y p))
             (toFloat32 (Vector3.z p)).

(** [f 0 ++ f 1 ++ ... ++ f (k - 1)]. *)
Definition per_point {A} (f : Z -> list A) (k : nat) : list A :=
  flat_map (fun j => f (Z.of_nat j)) (seq 0 k).

Definition quad (j : Z) : list Z :=
  let n := j * 2 in [n; n + 1; n + 2; n + 2; n + 1; n + 3].

(** The argument the width callback and the uv u-coordinate get for point
    [j] of [N]. *)
Definition along (N : nat) (j : Z) : num := ndiv (ofZ j) (ofZ (Z.of_nat N - 1)).

Definition width_at (wcb : option (num -> num)) (N : nat) (j : Z) : num :=
  match wcb with
  | Some f => f (along N j)
  | None => ofZ 1
  end.

(** The width callback in force during [setPoints points wcb]. *)
Definition callback_in_force (wcb : option (num -> num)) (g : MeshLineGeometry)
  : option (num -> num) :=
  match wcb with
  | Some f => Some f
  | None => widthCallback g
  end.

Definition nth_point (pts : list Vector3) (j : nat) : Vector3 :=
  default (Vector3.mk NaN NaN NaN) (pts !! j).

(** The point whose coordinates open [previous], and the one that closes
    [next], for [N >= 2] points. *)
Definition first_previous (pts : list Vector3) : Vector3 :=
  if point_eq (nth_point pts 0) (nth_point pts (length pts - 1))
  then nth_point pts (length pts - 2)
  else nth_point pts 0.

Definition last_next (pts : list Vector3) : Vector3 :=
  if point_eq (nth_point pts (length pts - 1)) (nth_point pts 0)
  then nth_point pts 1
  else nth_point pts (length pts - 1).

(** The arrays [#process] builds from [N >= 2] points, written out. *)
Definition previous_of (pts : list Vector3) : list num :=
  rails (first_previous pts) ++ flat_map rails (take (length pts - 1) pts).
Definition next_of (pts : list Vector3) : list num :=
  flat_map rails (drop 1 pts) ++ rails (last_next pts).
Definition side_of (N : nat) : list num :=
  per_point (fun _ => [ofZ 1; ofZ (-1)]) N.
Definition width_of (wcb : option (num -> num)) (N : nat) : list num :=
  per_point (fun j => [width_at wcb N j; width_at wcb N j]) N.
Definition uvs_of (N : nat) : list num :=
  per_point (fun j => [along N j; ofZ 0; along N j; ofZ 1]) N.
Definition indices_of (N : nat) : list Z := per_point quad (N - 1).
Definition counters_of (N : nat) : list num :=
  per_point (fun j => let c := ndiv (ofZ j) (ofZ (Z.of_nat N)) in [c; c]) N.
Definition calls_of (wcb : option (num -> num)) (N : nat) : list num :=
  match wcb with
  | Some _ => per_point (fun j => [along N j]) N
  | None => []
  end.

(** The geometry after [k] iterations of either loop of [setPoints] over
    the points [pts], entered from [g]. *)
Definition filled (pts : list Vector3) (g : MeshLineGeometry) (k : nat)
  : MeshLineGeometry :=
  set_counters (take (2 * k) (counters_of (length pts)))
    (set_positions (flat_map rails (take k pts)) g).

(** The geometry after [k] iterations of the loop of [#process] over the
    points [pts], entered from [g]. *)
Definition looping (pts : list Vector3) (g : MeshLineGeometry) (k : nat)
  : MeshLineGeometry :=
  let N := length pts in
  mkGeometry
    (flat_map rails pts)
    (rails (first_previous pts)
       ++ flat_map rails (take (Nat.min k (N - 1)) pts))
    (flat_map rails (take (k - 1) (drop 1 pts)))
    (per_point (fun _ => [ofZ 1; ofZ (-1)]) k)
    (per_point (fun j => [width_at (widthCallback g) N j;
                          width_at (widthCallback g) N j]) k)
    (per_point quad (Nat.min k (N - 1)))
    (per_point (fun j => [along N j; ofZ 0; along N j; ofZ 1]) k)
    (priv_counters g) (widthCallback g) (priv_attributes g) (priv_points g)
    (geometry_attributes g) (geometry_index g) (allocated g)
    (callback_log g
       ++ match widthCallback g with
          | Some _ => per_point (fun j => [along N j]) k
          | None => []
          end).

(** The geometry when the arrays of [#process] are complete. *)
Definition tessellated (pts : list Vector3) (g : MeshLineGeometry)
  : MeshLineGeometry :=
  let N := length pts in
  mkGeometry
    (flat_map rails pts) (previous_of pts) (next_of pts) (side_of N)
    (width_of (widthCallback g) N) (indices_of N) (uvs_of N)
    (priv_counters g) (widthCallback g) (priv_attributes g) (priv_points g)
    (geometry_attributes g) (geometry_index g) (allocated g)
    (callback_log g ++ calls_of (widthCallback g) N).

(** A sequence [#process] can go through: a lone point that is equal to
    itself is taken for a closed loop and sends [clonePoint] to index -1. *)
Definition processable (pts : list Vector3) : Prop :=
  (1 <= length pts)%nat
  /\ ((length pts = 1)%nat ->
      point_eq (nth_point pts 0) (nth_point pts 0) = false).


(** The attribute objects [#process] creates from the arrays of [t]. *)
Definition fresh_attributes (t : MeshLineGeometry) : Attributes :=
  let n := allocated t in
  mkAttributes
    (mkAttr n (map toFloat32 (priv_positions t)) 3 false)
    (mkAttr (n + 1) (map toFloat32 (priv_previous t)) 3 false)
    (mkAttr (n + 2) (map toFloat32 (priv_next t)) 3 false)
    (mkAttr (n + 3) (map toFloat32 (priv_side t)) 1 false)
    (mkAttr (n + 4) (map toFloat32 (priv_width t)) 1 false)
    (mkAttr (n + 5) (map toFloat32 (priv_uvs t)) 2 false)
    (mkAttr (n + 6) (map toUint16 (priv_indices_array t)) 1 false)
    (mkAttr (n + 7) (map toFloat32 (priv_counters t)) 1 false).

(** The attribute objects [a] after [#process] has refilled them from the
    arrays of [t]: [counters] is not among the refilled ones. *)
Definition refilled_attributes (a : Attributes) (t : MeshLineGeometry)
  : Attributes :=
  mkAttributes
    (with_needsUpdate true (with_array (map toFloat32 (priv_positions t)) (position a)))
    (with_needsUpdate true (with_array (map toFloat32 (priv_previous t)) (previous a)))
    (with_needsUpdate true (with_array (map toFloat32 (priv_next t)) (next a)))
    (with_needsUpdate true (with_array (map toFloat32 (priv_side t)) (side a)))
    (with_needsUpdate true (with_array (map toFloat32 (priv_width t)) (width a)))
    (with_needsUpdate true (with_array (map toFloat32 (priv_uvs t)) (uv a)))
    (with_needsUpdate true (with_array (map toUint16 (priv_indices_array t)) (index a)))
    (counters a).

(** The attribute arrays have the sizes of a ribbon of [M] points, and
    [counters] holds the counters of [M] points. *)
Definition sized (M : nat) (a : Attributes) : Prop :=
  length (array (position a)) = (M * 6)%nat
  /\ length (array (previous a)) = (M * 6)%nat
  /\ length (array (next a)) = (M * 6)%nat
  /\ length (array (side a)) = (M * 2)%nat
  /\ length (array (width a)) = (M * 2)%nat
  /\ length (array (uv a)) = (M * 4)%nat
  /\ length (array (index a)) = ((M - 1) * 6)%nat
  /\ array (counters a) = map toFloat32 (counters_of M)
  /\ attr_itemSize (position a) = 3.

(** The invariant of the geometry object: its attribute objects, once
    they exist, are those of a ribbon of some number of points. *)
Definition wf (g : MeshLineGeometry) : Prop :=
  match priv_attributes g with
  | None => True
  | Some a => exists M, (1 <= M)%nat /\ sized M a
  end.

(** The attribute objects registered under the public names. *)
Definition registered (a : Attributes) (g : MeshLineGeometry)
  : MeshLineGeometry :=
  set_geometry_index (Some (object_id (index a)))
    (set_geometry_attributes
       (<["counters" := object_id (counters a)]>
        (<["uv" := object_id (uv a)]>
         (<["width" := object_id (width a)]>
          (<["side" := object_id (side a)]>
           (<["next" := object_id (next a)]>
            (<["previous" := object_id (previous a)]>
             (<["position" := object_id (position a)]>
              (geometry_attributes g)))))))) g).

(** The geometry when the loop of [setPoints] has run over the points
    [pts], handed over as [points]. *)
Definition loaded (points : Points) (pts : list Vector3)
  (wcb : option (num -> num)) (g : MeshLineGeometry) : MeshLineGeometry :=
  set_counters (counters_of (length pts))
    (set_positions (flat_map rails pts)
       (set_widthCallback (callback_in_force wcb g) (set_points points g))).

(** Whether [#process] keeps the attribute objects of [g] for a ribbon of
    [N] points. *)
Definition reuses (N : nat) (g : MeshLineGeometry) : bool :=
  match priv_attributes g with
  | Some a => count (position a) * 3 =? Z.of_nat (N * 6)
  | None => false
  end.

(** The attribute objects after [setPoints] has processed [pts]. *)
Definition attributes_after (points : Points) (pts : list Vector3)
  (wcb : option (num -> num)) (g : MeshLineGeometry) : Attributes :=
  let t := tessellated pts (loaded points pts wcb g) in
  match priv_attributes g with
  | Some a => if reuses (length pts) g then refilled_attributes a t
              else fresh_attributes t
  | None => fresh_attributes t
  end.

(** The geometry after [setPoints] has processed [pts]. *)
Definition after_setPoints (points : Points) (pts : list Vector3)
  (wcb : option (num -> num)) (g : MeshLineGeometry) : MeshLineGeometry :=
  let t := tessellated pts (loaded points pts wcb g) in
  let a := attributes_after points pts wcb g in
  registered a
    (set_attributes (Some a)
       (if reuses (length pts) g then t
        else set_allocated (allocated g + 8) t)).

(** The attribute objects after [advance(p)]. *)
Definition advanced (p : Vector3) (a : Attributes) : Attributes :=
  let tail := map toFloat32 (rails p) in
  let shifted := drop 6 (array (position a)) ++ tail in
  mkAttributes
    (with_needsUpdate true (with_array shifted (position a)))
    (with_needsUpdate true (with_array (array (position a)) (previous a)))
    (with_needsUpdate true (with_array (drop 6 shifted ++ tail) (next a)))
    (side a) (width a) (uv a) (index a) (counters a).

(** The geometry once [#process] has emptied the arrays it is about to
    refill. *)
Definition emptied (g : MeshLineGeometry) : MeshLineGeometry :=
  set_uvs [] (set_indices_array [] (set_width [] (set_side []
    (set_next [] (set_previous [] g))))).

(** The state a result carries, returned or thrown. *)
Definition state_of {S A} (r : Result S A) : S :=
  match r with Ok _ s | Throw _ s => s end.

(** The result with another stored [points] reference. *)
Definition forget_points (r : Result MeshLineGeometry unit)
  : Result MeshLineGeometry unit :=
  match r with
  | Ok a s => Ok a (set_points OtherValue s)
  | Throw msg s => Throw msg (set_points OtherValue s)
  end.

(** The geometries the methods can produce from a new one. *)
Inductive reachable : MeshLineGeometry -> Prop :=
| reachable_new : reachable new_MeshLineGeometry
| reachable_setPoints g points wcb :
    reachable g -> reachable (state_of (setPoints points wcb g))
| reachable_advance g p :
    reachable g -> reachable (state_of (advance p g)).

(** The geometries on which no [setPoints] has gone through [#process] to
    its end yet. *)
Inductive uninitialised : MeshLineGeometry -> Prop :=
| uninitialised_new : uninitialised new_MeshLineGeometry
| uninitialised_throw g points wcb msg g' :
    uninitialised g -> setPoints points wcb g = Throw msg g' ->
    uninitialised g'
| uninitialised_empty g points wcb g' :
    uninitialised g -> points_length points = 0%nat ->
    setPoints points wcb g = Ok tt g' -> uninitialised g'
| uninitialised_advance g p msg g' :
    uninitialised g -> advance p g = Throw msg g' -> uninitialised g'.

(** Code that never assigns [this.#attributes], whatever its outcome. *)
Definition keeps_attributes {A} (m : Geo A) : Prop :=
  forall g, priv_attributes (state_of (m g)) = priv_attributes g.

(** A flat array cut into points. *)
Fixpoint group3 (a : list num) : list Vector3 :=
  match a with
  | x :: y :: z :: r => Vector3.mk x y z :: group3 r
  | _ => []
  end.

(** Points with integer coordinates, for the examples. *)
Definition xyz (a b c : Z) : Vector3 := Vector3.mk (ofZ a) (ofZ b) (ofZ c).

(** The end-to-end example of the specification. *)
Definition three_points : list Vector3 :=
  [xyz 0 0 0; xyz 1 0 0; xyz 2 0 0].

(** A line of 32769 points, the shortest whose vertex indices leave the
    16-bit range: vertex 65536 belongs to its last point. *)
Definition long_line : list Vector3 :=
  repeat (xyz 0 0 0) (Z.to_nat 32769).

(** An implementation of the three.js interface for the examples: the only
    matrix is the identity, every ray meets every sphere, and a segment is
    measured from the ray origin to its starting point. *)
Definition nsub (a b : num) : num := nadd a (nmul (ofZ (-1)) b).

Definition distanceToSquared (p q : Vector3) : num :=
  let dx := nsub (Vector3.x p) (Vector3.x q) in
  let dy := nsub (Vector3.y p) (Vector3.y q) in
  let dz := nsub (Vector3.z p) (Vector3.z q) in
  nadd (nadd (nmul dx dx) (nmul dy dy)) (nmul dz dz).

Definition toy_three : Three :=
  mkThree unit (fun m => m) (fun v _ => v) (fun s _ => s) (fun r _ => r)
    (fun r _ => Some (origin r))
    (fun r a b => (distanceToSquared (origin r) a, origin r, a))
    distanceToSquared
    (fun _ => mkSphere (xyz 0 0 0) (ofZ 1)).



Definition toy_raycaster : Raycaster :=
  mkRaycaster (mkRay (xyz 0 0 0) (xyz 1 0 0)) (ofZ 0) (ofZ 100).

Definition toy_state : PickState := mkPickState [] None None.

(** * Further parts of the code

    The accessors of [points]; [advance] called again and again; what a
    failed [setPoints] leaves behind; the attribute objects and the names
    they are registered under; [MeshLineRaycast] without assumptions on
    the numbers it compares, and on a line made by [setPoints]; and the
    uniforms of [MeshLineMaterial] with its [copy].  The definitions come
    first; their properties follow those of the specification. *)

(* ===================================================================== *)
(** ** The [points] accessors, and calls in a row *)
(* ===================================================================== *)

(** [get points()]. *)
Definition points_getter : Geo Points :=
  g <- get ;;
  ret (priv_points g).

(** [set points(value)], which is [this.setPoints(value, this.widthCallback)]. *)
Definition points_setter (value : Points) : Geo unit :=
  g <- get ;;
  setPoints value (widthCallback g).

(** [advance] called once for each point of [qs], in order. *)
Fixpoint advance_each (qs : list Vector3) : Geo unit :=
  match qs with
  | [] => ret tt
  | q :: qs' => advance q ;; advance_each qs'
  end.

(** What a renderer can see of the geometry besides the contents of the
    attribute objects: which objects there are, under which names they
    are registered, and how many have been created. *)
Definition visible (g : MeshLineGeometry)
  : option Attributes * gmap string nat * option nat * nat :=
  (priv_attributes g, geometry_attributes g, geometry_index g, allocated g).

(** Code that leaves an observation [f] of the geometry as it is,
    whatever its outcome. *)
Definition preserves {X A} (f : MeshLineGeometry -> X) (m : Geo A) : Prop :=
  forall g, f (state_of (m g)) = f g.

(** What the two loops of [setPoints] never write: everything but
    [#positions] and [#counters]. *)
Definition beside_loops (g : MeshLineGeometry) :=
  (visible g, priv_points g, widthCallback g, callback_log g).

(** The eight arrays of an attribute set. *)
Definition arrays_of (a : Attributes)
  : list num * list num * list num * list num * list num * list num
    * list Z * list num :=
  (array (position a), array (previous a), array (next a), array (side a),
   array (width a), array (uv a), array (index a), array (counters a)).

(* ===================================================================== *)
(** ** The attribute objects and their public names *)
(* ===================================================================== *)

(** The identities of the eight attribute objects, in the order in which
    [#process] creates them. *)
Definition ids_of (a : Attributes) : list nat :=
  [object_id (position a); object_id (previous a); object_id (next a);
   object_id (side a); object_id (width a); object_id (uv a);
   object_id (index a); object_id (counters a)].

(** The flags of the eight attribute objects, in the same order. *)
Definition flags_of (a : Attributes) : list bool :=
  [needsUpdate (position a); needsUpdate (previous a); needsUpdate (next a);
   needsUpdate (side a); needsUpdate (width a); needsUpdate (uv a);
   needsUpdate (index a); needsUpdate (counters a)].

(** [geometry.attributes] when exactly the seven names of [#process] are
    bound, to the objects of [a]. *)
Definition names_of (a : Attributes) : gmap string nat :=
  <["counters" := object_id (counters a)]>
   (<["uv" := object_id (uv a)]>
    (<["width" := object_id (width a)]>
     (<["side" := object_id (side a)]>
      (<["next" := object_id (next a)]>
       (<["previous" := object_id (previous a)]>
        (<["position" := object_id (position a)]> ∅)))))).

(** The public side of the geometry agrees with the private one: nothing
    is registered before the attribute objects exist, and afterwards the
    seven names and the index are bound to the current objects, which are
    the eight created last. *)
Definition coherent (g : MeshLineGeometry) : Prop :=
  match priv_attributes g with
  | None =>
      geometry_attributes g = ∅ /\ geometry_index g = None
      /\ allocated g = 0%nat
  | Some a =>
      ids_of a = seq (allocated g - 8) 8 /\ (8 <= allocated g)%nat
      /\ geometry_attributes g = names_of a
      /\ geometry_index g = Some (object_id (index a))
  end.

(* ===================================================================== *)
(** ** The scan of [MeshLineRaycast], as its two tests are written *)
(* ===================================================================== *)

(** The two tests of the scan as the source writes them: an index goes on
    to be recorded unless [distSq > precisionSq], and unless
    [distance < near || distance > far]. *)
Definition not_skipped `{Three} (mesh : Mesh) (raycaster : Raycaster)
  (indices : list Z) (threshold : num) (i : Z) : bool :=
  negb (ngt (segment_distSq mesh raycaster indices i)
            (nmul (pick_radius mesh threshold i)
                  (pick_radius mesh threshold i)))
  && negb (nlt (hit_distance mesh raycaster indices i) (near raycaster)
           || ngt (hit_distance mesh raycaster indices i) (far raycaster)).

(** The entry recorded for index [i]. *)
Definition entry_at `{Three} (mesh : Mesh) (raycaster : Raycaster)
  (indices : list Z) (i : Z) : Intersection :=
  mkIntersection (hit_distance mesh raycaster indices i)
                 (hit_point mesh raycaster indices i) i.

(** Whether the scan is entered at all: the ray meets the world-space
    bounding sphere, and the geometry has an index with two entries or
    more. *)
Definition scan_entered `{Three} (mesh : Mesh) (raycaster : Raycaster)
  (s : PickState) : bool :=
  let sphere0 :=
    default (computeBoundingSphere (position_array mesh)) (boundingSphere s) in
  match intersectSphere (ray raycaster)
                        (Sphere_applyMatrix4 sphere0 (matrixWorld mesh)),
        geometry_index_array mesh with
  | Some _, Some indices => 1 <? Z.of_nat (length indices)
  | _, _ => false
  end.

(** A mesh whose index names vertices that the position array does not
    have. *)
Definition dangling_mesh : @Mesh toy_three :=
  @mkMesh toy_three tt (ofZ 1) false (Some [7; 8]) [] [].

(* ===================================================================== *)
(** ** [MeshLineMaterial]: the uniforms, their accessors and [copy] *)
(* ===================================================================== *)

(** A three.js [Color] and [Vector2], by value, and a [Texture], by
    identity. *)
Record Color : Type := mkColor { red : num; green : num; blue : num }.
Record Vector2 : Type := mkVector2 { v2_x : num; v2_y : num }.
Definition Texture : Type := nat.

(** The values of the sixteen uniforms the constructor adds to those of
    [UniformsLib.fog], with the types the class declares. *)
Record Uniforms : Type := mkUniforms {
  u_lineWidth : num;
  u_map : option Texture;
  u_useMap : bool;
  u_alphaMap : option Texture;
  u_useAlphaMap : bool;
  u_color : Color;
  u_opacity : num;
  u_resolution : Vector2;
  u_sizeAttenuation : bool;
  u_dashArray : num;
  u_dashOffset : num;
  u_dashRatio : num;
  u_useDash : bool;
  u_visibility : num;
  u_alphaTest : num;
  u_repeat : Vector2
}.

Abbreviation Mat := (M Uniforms).

(** The setters of [Object.defineProperties]: fourteen assign
    [this.uniforms.<name>.value]; those of [resolution] and [repeat] call
    [copy] on the vector that is there, written [resolution_copy] and
    [repeat_copy] below, which takes over the two coordinates; that of
    [dashArray] goes on to assign [this.useDash]. *)
Definition lineWidth_setter (v : num) : Mat unit :=
  modify (fun u => mkUniforms v (u_map u) (u_useMap u) (u_alphaMap u)
    (u_useAlphaMap u) (u_color u) (u_opacity u) (u_resolution u)
    (u_sizeAttenuation u) (u_dashArray u) (u_dashOffset u) (u_dashRatio u)
    (u_useDash u) (u_visibility u) (u_alphaTest u) (u_repeat u)).
Definition map_setter (v : option Texture) : Mat unit :=
  modify (fun u => mkUniforms (u_lineWidth u) v (u_useMap u) (u_alphaMap u)
    (u_useAlphaMap u) (u_color u) (u_opacity u) (u_resolution u)
    (u_sizeAttenuation u) (u_dashArray u) (u_dashOffset u) (u_dashRatio u)
    (u_useDash u) (u_visibility u) (u_alphaTest u) (u_repeat u)).
Definition useMap_setter (v : bool) : Mat unit :=
  modify (fun u => mkUniforms (u_lineWidth u) (u_map u) v (u_alphaMap u)
    (u_useAlphaMap u) (u_color u) (u_opacity u) (u_resolution u)
    (u_sizeAttenuation u) (u_dashArray u) (u_dashOffset u) (u_dashRatio u)
    (u_useDash u) (u_visibility u) (u_alphaTest u) (u_repeat u)).
Definition alphaMap_setter (v : option Texture) : Mat unit :=
  modify (fun u => mkUniforms (u_lineWidth u) (u_map u) (u_useMap u) v
    (u_useAlphaMap u) (u_color u) (u_opacity u) (u_resolution u)
    (u_sizeAttenuation u) (u_dashArray u) (u_dashOffset u) (u_dashRatio u)
    (u_useDash u) (u_visibility u) (u_alphaTest u) (u_repeat u)).
Definition useAlphaMap_setter (v : bool) : Mat unit :=
  modify (fun u => mkUniforms (u_lineWidth u) (u_map u) (u_useMap u)
    (u_alphaMap u) v (u_color u) (u_opacity u) (u_resolution u)
    (u_sizeAttenuation u) (u_dashArray u) (u_dashOffset u) (u_dashRatio u)
    (u_useDash u) (u_visibility u) (u_alphaTest u) (u_repeat u)).
Definition color_setter (v : Color) : Mat unit :=
  modify (fun u => mkUniforms (u_lineWidth u) (u_map u) (u_useMap u)
    (u_alphaMap u) (u_useAlphaMap u) v (u_opacity u) (u_resolution u)
    (u_sizeAttenuation u) (u_dashArray u) (u_dashOffset u) (u_dashRatio u)
    (u_useDash u) (u_visibility u) (u_alphaTest u) (u_repeat u)).
Definition opacity_setter (v : num) : Mat unit :=
  modify (fun u => mkUniforms (u_lineWidth u) (u_map u) (u_useMap u)
    (u_alphaMap u) (u_useAlphaMap u) (u_color u) v (u_resolution u)
    (u_sizeAttenuation u) (u_dashArray u) (u_dashOffset u) (u_dashRatio u)
    (u_useDash u) (u_visibility u) (u_alphaTest u) (u_repeat u)).
Definition resolution_copy (v : Vector2) : Mat unit :=
  modify (fun u => mkUniforms (u_lineWidth u) (u_map u) (u_useMap u)
    (u_alphaMap u) (u_useAlphaMap u) (u_color u) (u_opacity u)
    (mkVector2 (v2_x v) (v2_y v))
    (u_sizeAttenuation u) (u_dashArray u) (u_dashOffset u) (u_dashRatio u)
    (u_useDash u) (u_visibility u) (u_alphaTest u) (u_repeat u)).
Definition sizeAttenuation_setter (v : bool) : Mat unit :=
  modify (fun u => mkUniforms (u_lineWidth u) (u_map u) (u_useMap u)
    (u_alphaMap u) (u_useAlphaMap u) (u_color u) (u_opacity u)
    (u_resolution u) v (u_dashArray u) (u_dashOffset u) (u_dashRatio u)
    (u_useDash u) (u_visibility u) (u_alphaTest u) (u_repeat u)).
Definition dashOffset_setter (v : num) : Mat unit :=
  modify (fun u => mkUniforms (u_lineWidth u) (u_map u) (u_useMap u)
    (u_alphaMap u) (u_useAlphaMap u) (u_color u) (u_opacity u)
    (u_resolution u) (u_sizeAttenuation u) (u_dashArray u) v (u_dashRatio u)
    (u_useDash u) (u_visibility u) (u_alphaTest u) (u_repeat u)).
Definition dashRatio_setter (v : num) : Mat unit :=
  modify (fun u => mkUniforms (u_lineWidth u) (u_map u) (u_useMap u)
    (u_alphaMap u) (u_useAlphaMap u) (u_color u) (u_opacity u)
    (u_resolution u) (u_sizeAttenuation u) (u_dashArray u) (u_dashOffset u) v
    (u_useDash u) (u_visibility u) (u_alphaTest u) (u_repeat u)).
Definition useDash_setter (v : bool) : Mat unit :=
  modify (fun u => mkUniforms (u_lineWidth u) (u_map u) (u_useMap u)
    (u_alphaMap u) (u_useAlphaMap u) (u_color u) (u_opacity u)
    (u_resolution u) (u_sizeAttenuation u) (u_dashArray u) (u_dashOffset u)
    (u_dashRatio u) v (u_visibility u) (u_alphaTest u) (u_repeat u)).
Definition visibility_setter (v : num) : Mat unit :=
  modify (fun u => mkUniforms (u_lineWidth u) (u_map u) (u_useMap u)
    (u_alphaMap u) (u_useAlphaMap u) (u_color u) (u_opacity u)
    (u_resolution u) (u_sizeAttenuation u) (u_dashArray u) (u_dashOffset u)
    (u_dashRatio u) (u_useDash u) v (u_alphaTest u) (u_repeat u)).
Definition alphaTest_setter (v : num) : Mat unit :=
  modify (fun u => mkUniforms (u_lineWidth u) (u_map u) (u_useMap u)
    (u_alphaMap u) (u_useAlphaMap u) (u_color u) (u_opacity u)
    (u_resolution u) (u_sizeAttenuation u) (u_dashArray u) (u_dashOffset u)
    (u_dashRatio u) (u_useDash u) (u_visibility u) v (u_repeat u)).
Definition repeat_copy (v : Vector2) : Mat unit :=
  modify (fun u => mkUniforms (u_lineWidth u) (u_map u) (u_useMap u)
    (u_alphaMap u) (u_useAlphaMap u) (u_color u) (u_opacity u)
    (u_resolution u) (u_sizeAttenuation u) (u_dashArray u) (u_dashOffset u)
    (u_dashRatio u) (u_useDash u) (u_visibility u) (u_alphaTest u)
    (mkVector2 (v2_x v) (v2_y v))).

Definition resolution_setter (value : Vector2) : Mat unit :=
  resolution_copy value.
Definition repeat_setter (value : Vector2) : Mat unit :=
  repeat_copy value.

(** [this.uniforms.dashArray.value = value] and then
    [this.useDash = value !== 0 ? true : false]. *)
Definition dashArray_setter (value : num) : Mat unit :=
  modify (fun u => mkUniforms (u_lineWidth u) (u_map u) (u_useMap u)
    (u_alphaMap u) (u_useAlphaMap u) (u_color u) (u_opacity u)
    (u_resolution u) (u_sizeAttenuation u) value (u_dashOffset u)
    (u_dashRatio u) (u_useDash u) (u_visibility u) (u_alphaTest u)
    (u_repeat u)) ;;
  useDash_setter (if negb (strict_eq value (ofZ 0)) then true else false).

(** [this.color.copy(c)]: the components are copied into the colour that
    is there. *)
Definition color_copy (c : Color) : Mat unit :=
  color_setter (mkColor (red c) (green c) (blue c)).

(** The argument of [copy]: another material, or the material itself. *)
Inductive Source : Type :=
| Itself
| Another (u : Uniforms).

(** [source.<name>], read when the statement is reached. *)
Definition read {A} (source : Source) (f : Uniforms -> A) : Mat A :=
  u <- get ;;
  ret (f (match source with Itself => u | Another v => v end)).

(** What [ShaderMaterial.prototype.copy], called as [super.copy(this)],
    does to the sixteen values. *)
Class ShaderMaterial : Type := mkShaderMaterial {
  super_copy : Uniforms -> Uniforms
}.

(** [copy(source)]: [super.copy(this)], thirteen assignments through the
    setters, and [copy] on the colour and on the two vectors that are
    there. *)
Definition material_copy `{ShaderMaterial} (source : Source) : Mat unit :=
  modify super_copy ;;
  (v <- read source u_lineWidth ;; lineWidth_setter v) ;;
  (v <- read source u_map ;; map_setter v) ;;
  (v <- read source u_useMap ;; useMap_setter v) ;;
  (v <- read source u_alphaMap ;; alphaMap_setter v) ;;
  (v <- read source u_useAlphaMap ;; useAlphaMap_setter v) ;;
  (v <- read source u_color ;; color_copy v) ;;
  (v <- read source u_opacity ;; opacity_setter v) ;;
  (v <- read source u_resolution ;; resolution_copy v) ;;
  (v <- read source u_sizeAttenuation ;; sizeAttenuation_setter v) ;;
  (v <- read source u_dashArray ;; dashArray_setter v) ;;
  (v <- read source u_dashOffset ;; dashOffset_setter v) ;;
  (v <- read source u_dashRatio ;; dashRatio_setter v) ;;
  (v <- read source u_useDash ;; useDash_setter v) ;;
  (v <- read source u_visibility ;; visibility_setter v) ;;
  (v <- read source u_alphaTest ;; alphaTest_setter v) ;;
  (v <- read source u_repeat ;; repeat_copy v).

(** The uniforms with another [useDash]. *)
Definition with_useDash (v : bool) (u : Uniforms) : Uniforms :=
  mkUniforms (u_lineWidth u) (u_map u) (u_useMap u)
    (u_alphaMap u) (u_useAlphaMap u) (u_color u) (u_opacity u)
    (u_resolution u) (u_sizeAttenuation u) (u_dashArray u) (u_dashOffset u)
    (u_dashRatio u) v (u_visibility u) (u_alphaTest u) (u_repeat u).

(* ===================================================================== *)
(** ** The scan of [MeshLineRaycast] over a line made by [setPoints] *)
(* ===================================================================== *)

(** A mesh over the attribute objects [a] of a geometry: the index,
    position and width arrays [MeshLineRaycast] reads are theirs. *)
Definition line_mesh `{Three} (m : Matrix4) (w : num) (segments : bool)
  (a : Attributes) : Mesh :=
  @mkMesh _ m w segments (Some (array (index a))) (array (position a))
          (array (width a)).

(** The numbers of the two points of the line that the index pair scanned
    at [i] joins: [i] lies in the six indices of segment [i / 6]. *)
Definition scan_ends (i : Z) : Z * Z :=
  let j := i / 6 in
  match i mod 6 with
  | 0 => (j, j)
  | 1 => (j, j + 1)
  | 2 => (j + 1, j + 1)
  | 3 => (j + 1, j)
  | 4 => (j, j + 1)
  | _ => (j + 1, j + 1)
  end.

(* ===================================================================== *)
(** ** Lists, lookups and loops *)
(* ===================================================================== *)

Lemma per_point_S {A} (f : Z -> list A) (k : nat) :
  per_point f (S k) = per_point f k ++ f (Z.of_nat k).
Proof.
  unfold per_point. rewrite seq_S, flat_map_app. simpl.
  now rewrite app_nil_r.
Qed.

Lemma per_point_length {A} (f : Z -> list A) (m k : nat) :
  (forall j, length (f j) = m) -> length (per_point f k) = (k * m)%nat.
Proof.
  intros Hm. induction k as [|k IH]; [reflexivity|].
  rewrite per_point_S, length_app, IH, Hm. lia.
Qed.

Lemma flat_map_length_const {A B} (f : A -> list B) (m : nat) (l : list A) :
  (forall a, length (f a) = m) -> length (flat_map f l) = (length l * m)%nat.
Proof.
  intros Hm. induction l as [|a l IH]; [reflexivity|].
  simpl. rewrite length_app, IH, Hm. lia.
Qed.

(** Element [j * m + c] of a concatenation of blocks of length [m]. *)
Lemma flat_map_lookup {A B} (f : A -> list B) (m : nat) (l : list A)
  (j c : nat) :
  (forall a, length (f a) = m) -> (c < m)%nat ->
  flat_map f l !! (j * m + c)%nat = l !! j ≫= (fun a => f a !! c).
Proof.
  intros Hm Hc. revert j. induction l as [|a l IH]; intros j.
  - reflexivity.
  - destruct j as [|j]; simpl.
    + rewrite lookup_app_l by (rewrite Hm; lia). reflexivity.
    + rewrite lookup_app_r by (rewrite Hm; lia).
      rewrite Hm. replace (m + j * m + c - m)%nat with (j * m + c)%nat by lia.
      apply IH.
Qed.

Lemma per_point_lookup {A} (f : Z -> list A) (m k j c : nat) :
  (forall i, length (f i) = m) -> (c < m)%nat -> (j < k)%nat ->
  per_point f k !! (j * m + c)%nat = f (Z.of_nat j) !! c.
Proof.
  intros Hm Hc Hj. unfold per_point.
  rewrite (flat_map_lookup _ m) by auto.
  rewrite lookup_seq_lt by lia. reflexivity.
Qed.

Lemma at_index_nat {A} (a : list A) (i : nat) :
  at_index a (Z.of_nat i) = a !! i.
Proof.
  unfold at_index. destruct (Z.ltb_spec (Z.of_nat i) 0); [lia|].
  now rewrite Nat2Z.id.
Qed.

Lemma at_index_neg {A} (a : list A) (i : Z) : i < 0 -> at_index a i = None.
Proof.
  intros H. unfold at_index. destruct (Z.ltb_spec i 0); [reflexivity | lia].
Qed.

(** Scalar [c] of point [j] in an array of rails. *)
Lemma at_index_rails (pts : list Vector3) (j c : nat) :
  (c < 6)%nat ->
  at_index (flat_map rails pts) (Z.of_nat j * itemSize + Z.of_nat c)
  = pts !! j ≫= (fun p => rails p !! c).
Proof.
  intros Hc. unfold itemSize.
  replace (Z.of_nat j * 6 + Z.of_nat c) with (Z.of_nat (j * 6 + c)) by lia.
  rewrite at_index_nat. now apply flat_map_lookup.
Qed.

(** A loop whose successive states are known runs to the last of them. *)
Lemma for_loop_states {S} (F : nat -> S) (n : nat) (j0 step : Z)
  (body : Z -> M S unit) :
  (forall k, (k < n)%nat ->
     body (j0 + Z.of_nat k * step) (F k) = Ok tt (F (Datatypes.S k))) ->
  for_loop n j0 step body (F 0%nat) = Ok tt (F n).
Proof.
  revert F j0. induction n as [|n IH]; intros F j0 Hbody.
  - reflexivity.
  - simpl. unfold bind at 1.
    specialize (Hbody 0%nat ltac:(lia)) as H0.
    replace (j0 + Z.of_nat 0 * step) with j0 in H0 by lia.
    rewrite H0.
    apply (IH (fun k => F (Datatypes.S k)) (j0 + step)).
    intros k Hk. specialize (Hbody (Datatypes.S k) ltac:(lia)).
    replace (j0 + step + Z.of_nat k * step)
      with (j0 + Z.of_nat (Datatypes.S k) * step) by lia.
    exact Hbody.
Qed.

(* ===================================================================== *)
(** ** Numbers *)
(* ===================================================================== *)

Lemma Qeq_bool_inject_Z_0 (n : Z) : Qeq_bool (inject_Z n) 0 = (n =? 0).
Proof.
  unfold Qeq_bool, inject_Z. simpl. rewrite Z.mul_1_r. reflexivity.
Qed.

Lemma ndiv_ofZ (a b : Z) :
  b <> 0 -> ndiv (ofZ a) (ofZ b) = Fin (Qred (inject_Z a / inject_Z b)).
Proof.
  intros Hb. unfold ndiv, ofZ. rewrite Qeq_bool_inject_Z_0.
  destruct (Z.eqb_spec b 0); [contradiction | reflexivity].
Qed.

(** [3k / 3N] and [k / N] are the same number. *)
Lemma ndiv_scale (k N : Z) :
  N <> 0 -> ndiv (ofZ (3 * k)) (ofZ (3 * N)) = ndiv (ofZ k) (ofZ N).
Proof.
  intros HN. rewrite !ndiv_ofZ by lia. f_equal. apply Qred_complete.
  rewrite !inject_Z_mult.
  assert (~ inject_Z N == 0)%Q.
  { intros E. apply HN. unfold Qeq, inject_Z in E. simpl in E. lia. }
  field. assumption.
Qed.

Lemma ndiv_zero (N : Z) : N <> 0 -> ndiv (ofZ 0) (ofZ N) = ofZ 0.
Proof.
  intros HN. rewrite ndiv_ofZ by assumption. unfold ofZ.
  now rewrite (Qred_complete (inject_Z 0 / inject_Z N) 0)
    by (unfold Qdiv; apply Qmult_0_l).
Qed.

Lemma ndiv_self (N : Z) : N <> 0 -> ndiv (ofZ N) (ofZ N) = ofZ 1.
Proof.
  intros HN. rewrite ndiv_ofZ by assumption. unfold ofZ.
  rewrite (Qred_complete (inject_Z N / inject_Z N) 1); [reflexivity|].
  apply Qmult_inv_r. intros E. apply HN.
  unfold Qeq, inject_Z in E. simpl in E. lia.
Qed.

(* ===================================================================== *)
(** ** The two loops of [setPoints] *)
(* ===================================================================== *)

Ltac run :=
  cbv beta iota delta
    [bind ret modify get throw
     push_positions push_counters push_previous push_next push_side
     push_width push_uvs push_indices_array call_widthCallback
     set_positions set_previous set_next set_side set_width
     set_indices_array set_uvs set_counters set_widthCallback
     set_attributes set_points set_geometry_attributes set_geometry_index
     set_allocated set_callback_log
     priv_positions priv_previous priv_next priv_side priv_width
     priv_indices_array priv_uvs priv_counters widthCallback
     priv_attributes priv_points geometry_attributes geometry_index
     allocated callback_log].

Lemma flat_map_take_S {A B} (f : A -> list B) (l : list A) (k : nat) (a : A) :
  l !! k = Some a ->
  flat_map f (take (S k) l) = flat_map f (take k l) ++ f a.
Proof.
  intros H. rewrite (take_S_r _ _ _ H), flat_map_app. simpl.
  now rewrite app_nil_r.
Qed.

Lemma per_point_app {A} (f : Z -> list A) (k r : nat) :
  per_point f (k + r)
  = per_point f k ++ flat_map (fun j => f (Z.of_nat j)) (seq k r).
Proof.
  unfold per_point. now rewrite seq_app, flat_map_app.
Qed.

Lemma per_point_take {A} (f : Z -> list A) (m k N : nat) :
  (forall j, length (f j) = m) -> (k <= N)%nat ->
  take (k * m) (per_point f N) = per_point f k.
Proof.
  intros Hm Hk. replace N with (k + (N - k))%nat by lia.
  rewrite per_point_app. apply take_app_length'.
  now rewrite (per_point_length f m).
Qed.

Lemma counters_of_take_S (N k : nat) :
  (k < N)%nat ->
  take (2 * S k) (counters_of N)
  = take (2 * k) (counters_of N)
    ++ [ndiv (ofZ (Z.of_nat k)) (ofZ (Z.of_nat N));
        ndiv (ofZ (Z.of_nat k)) (ofZ (Z.of_nat N))].
Proof.
  intros Hk. unfold counters_of.
  replace (2 * S k)%nat with (S k * 2)%nat by lia.
  replace (2 * k)%nat with (k * 2)%nat by lia.
  rewrite !(per_point_take _ 2) by (reflexivity || lia).
  now rewrite per_point_S.
Qed.

Lemma setPoints_vector3_loop (pts : list Vector3) (g : MeshLineGeometry) :
  for_loop (length pts) 0 1 (setPoints_vector3_body (Vector3Array pts))
           (filled pts g 0)
  = Ok tt (filled pts g (length pts)).
Proof.
  apply (for_loop_states (filled pts g)). intros k Hk.
  destruct (lookup_lt_is_Some_2 pts k Hk) as [p Hp].
  unfold setPoints_vector3_body, vector3_at.
  replace (0 + Z.of_nat k * 1) with (Z.of_nat k) by lia.
  rewrite at_index_nat, Hp. unfold filled, points_length. run.
  rewrite (counters_of_take_S _ _ Hk), (flat_map_take_S _ _ _ _ Hp).
  unfold rails. now rewrite <- !app_assoc.
Qed.

Lemma flat_coordinates_lookup (pts : list Vector3) (k c : nat) :
  (c < 3)%nat ->
  at_index (flat_map coordinates pts) (Z.of_nat k * 3 + Z.of_nat c)
  = pts !! k ≫= (fun p => coordinates p !! c).
Proof.
  intros Hc.
  replace (Z.of_nat k * 3 + Z.of_nat c) with (Z.of_nat (k * 3 + c)) by lia.
  rewrite at_index_nat. now apply flat_map_lookup.
Qed.

Lemma setPoints_flat_loop (points : Points) (pts : list Vector3)
  (g : MeshLineGeometry) :
  points = NumberArray (flat_map coordinates pts)
  \/ points = Float32Array (flat_map coordinates pts) ->
  for_loop (trips (Z.of_nat (points_length points)) 3) 0 3
           (setPoints_flat_body points) (filled pts g 0)
  = Ok tt (filled pts g (length pts)).
Proof.
  intros Hpoints.
  assert (Hlen : points_length points = (length pts * 3)%nat).
  { destruct Hpoints as [-> | ->]; simpl;
      now apply flat_map_length_const. }
  assert (Hat : forall i, number_at points i
                          = at_index (flat_map coordinates pts) i).
  { destruct Hpoints as [-> | ->]; reflexivity. }
  replace (trips (Z.of_nat (points_length points)) 3) with (length pts).
  2:{ unfold trips. rewrite Hlen.
      replace (Z.of_nat (length pts * 3) + 3 - 1)
        with (2 + Z.of_nat (length pts) * 3) by lia.
      rewrite Z.div_add by lia. change (2 `div` 3) with 0. lia. }
  apply (for_loop_states (filled pts g)). intros k Hk.
  destruct (lookup_lt_is_Some_2 pts k Hk) as [p Hp].
  unfold setPoints_flat_body. rewrite !Hat, Hlen.
  replace (0 + Z.of_nat k * 3 + 0) with (Z.of_nat k * 3 + Z.of_nat 0) by lia.
  replace (0 + Z.of_nat k * 3 + 1) with (Z.of_nat k * 3 + Z.of_nat 1) by lia.
  replace (0 + Z.of_nat k * 3 + 2) with (Z.of_nat k * 3 + Z.of_nat 2) by lia.
  rewrite !flat_coordinates_lookup by lia. rewrite Hp. simpl.
  replace (0 + Z.of_nat k * 3) with (3 * Z.of_nat k) by lia.
  replace (Z.of_nat (length pts * 3)) with (3 * Z.of_nat (length pts)) by lia.
  rewrite ndiv_scale by lia.
  unfold filled. run.
  rewrite (counters_of_take_S _ _ Hk), (flat_map_take_S _ _ _ _ Hp).
  unfold rails. now rewrite <- !app_assoc.
Qed.

(* ===================================================================== *)
(** ** [#process]: the arrays *)
(* ===================================================================== *)

Lemma bind_Ok {S A B} (m : M S A) (k : A -> M S B) (s s' : S) (a : A) :
  m s = Ok a s' -> bind m k s = k a s'.
Proof. intros H. unfold bind. now rewrite H. Qed.

Lemma bind_Throw {S A B} (m : M S A) (k : A -> M S B) (s s' : S) msg :
  m s = Throw msg s' -> bind m k s = Throw msg s'.
Proof. intros H. unfold bind. now rewrite H. Qed.

Lemma nth_point_lookup (pts : list Vector3) (j : nat) :
  (j < length pts)%nat -> pts !! j = Some (nth_point pts j).
Proof.
  intros Hj. unfold nth_point.
  destruct (lookup_lt_is_Some_2 pts j Hj) as [p ->]. reflexivity.
Qed.

Lemma at_index_point (pts : list Vector3) (j : nat) (p : Vector3) :
  pts !! j = Some p ->
  at_index (flat_map rails pts) (Z.of_nat j * itemSize + 0) = Some (Vector3.x p)
  /\ at_index (flat_map rails pts) (Z.of_nat j * itemSize + 1) = Some (Vector3.y p)
  /\ at_index (flat_map rails pts) (Z.of_nat j * itemSize + 2) = Some (Vector3.z p).
Proof.
  intros Hp.
  pose proof (at_index_rails pts j 0 ltac:(lia)) as H0.
  pose proof (at_index_rails pts j 1 ltac:(lia)) as H1.
  pose proof (at_index_rails pts j 2 ltac:(lia)) as H2.
  rewrite Hp in H0, H1, H2. auto.
Qed.

Lemma clonePoint_ok (pts : list Vector3) (g : MeshLineGeometry) (j : nat) :
  priv_positions g = flat_map rails pts -> (j < length pts)%nat ->
  clonePoint (Z.of_nat j) g
  = Ok (Vector3.x (nth_point pts j), Vector3.y (nth_point pts j),
        Vector3.z (nth_point pts j)) g.
Proof.
  intros Hpos Hj. unfold clonePoint. cbn [bind get]. rewrite Hpos.
  destruct (at_index_point pts j _ (nth_point_lookup _ _ Hj)) as (-> & -> & ->).
  reflexivity.
Qed.

Lemma clonePoint_before (g : MeshLineGeometry) (j : Z) :
  j < 0 -> clonePoint j g = Throw "point missing" g.
Proof.
  intros Hj. unfold clonePoint. cbn [bind get].
  rewrite (at_index_neg _ (j * itemSize + 0)) by (unfold itemSize; lia).
  reflexivity.
Qed.

Lemma pointsAreEqual_ok (pts : list Vector3) (g : MeshLineGeometry)
  (a b : nat) :
  priv_positions g = flat_map rails pts ->
  (a < length pts)%nat -> (b < length pts)%nat ->
  pointsAreEqual (Z.of_nat a) (Z.of_nat b) g
  = Ok (point_eq (nth_point pts a) (nth_point pts b)) g.
Proof.
  intros Hpos Ha Hb. unfold pointsAreEqual. cbn [bind get ret]. rewrite Hpos.
  destruct (at_index_point pts a _ (nth_point_lookup _ _ Ha)) as (-> & -> & ->).
  destruct (at_index_point pts b _ (nth_point_lookup _ _ Hb)) as (-> & -> & ->).
  reflexivity.
Qed.

Lemma previous_step (pts : list Vector3) (k : nat) :
  (Z.of_nat k < Z.of_nat (length pts) - 1) ->
  flat_map rails (take (Nat.min (S k) (length pts - 1)) pts)
  = flat_map rails (take (Nat.min k (length pts - 1)) pts)
    ++ rails (nth_point pts k).
Proof.
  intros Hk.
  replace (Nat.min (S k) (length pts - 1)) with (S k) by lia.
  replace (Nat.min k (length pts - 1)) with k by lia.
  apply flat_map_take_S, nth_point_lookup. lia.
Qed.

Lemma previous_stay (pts : list Vector3) (k : nat) :
  (Z.of_nat (length pts) - 1 <= Z.of_nat k) ->
  Nat.min (S k) (length pts - 1) = Nat.min k (length pts - 1).
Proof. lia. Qed.

Lemma indices_step (pts : list Vector3) (k : nat) :
  (Z.of_nat k < Z.of_nat (length pts) - 1) ->
  per_point quad (Nat.min (S k) (length pts - 1))
  = per_point quad (Nat.min k (length pts - 1)) ++ quad (Z.of_nat k).
Proof.
  intros Hk.
  replace (Nat.min (S k) (length pts - 1)) with (S k) by lia.
  replace (Nat.min k (length pts - 1)) with k by lia.
  apply per_point_S.
Qed.

Lemma next_step (pts : list Vector3) (k : nat) :
  (0 < Z.of_nat k) -> (k < length pts)%nat ->
  flat_map rails (take (S k - 1) (drop 1 pts))
  = flat_map rails (take (k - 1) (drop 1 pts)) ++ rails (nth_point pts k).
Proof.
  intros Hk Hlt. replace (S k - 1)%nat with (S (k - 1)) by lia.
  apply flat_map_take_S. rewrite lookup_drop.
  replace (1 + (k - 1))%nat with k by lia. now apply nth_point_lookup.
Qed.

Lemma next_stay (k : nat) :
  (Z.of_nat k <= 0) -> (S k - 1 = k - 1)%nat.
Proof. lia. Qed.

Lemma process_body_step (pts : list Vector3) (g : MeshLineGeometry) (k : nat) :
  (k < length pts)%nat ->
  process_body (Z.of_nat (length pts)) (Z.of_nat k) (looping pts g k)
  = Ok tt (looping pts g (S k)).
Proof.
  intros Hk.
  assert (Hclone : forall s, priv_positions s = flat_map rails pts ->
            clonePoint (Z.of_nat k) s
            = Ok (Vector3.x (nth_point pts k), Vector3.y (nth_point pts k),
                  Vector3.z (nth_point pts k)) s).
  { intros s Hs. now apply (clonePoint_ok pts). }
  destruct g as [pos prv nxt sd wd ix uvs cnt wcb attrs points ga gi al lg].
  unfold process_body. rewrite Z.gtb_ltb.
  unfold looping at 2.
  cbn [widthCallback priv_counters priv_attributes priv_points
       geometry_attributes geometry_index allocated callback_log].
  destruct (Z.ltb_spec (Z.of_nat k) (Z.of_nat (length pts) - 1)) as [Hlt|Hge];
    [ rewrite (previous_step pts k Hlt), (indices_step pts k Hlt)
    | rewrite (previous_stay pts k Hge) ];
  (destruct (Z.ltb_spec 0 (Z.of_nat k)) as [Hpos|Hzero];
    [ rewrite (next_step pts k Hpos Hk) | rewrite (next_stay k Hzero) ]);
  rewrite !per_point_S;
  unfold looping;
  destruct wcb as [f|]; run;
  repeat (rewrite Hclone by reflexivity; run);
  rewrite ?per_point_S;
  unfold width_at, along, quad, rails; rewrite <- ?app_assoc; reflexivity.
Qed.

Lemma clonePoint_at (pts : list Vector3) (g : MeshLineGeometry) (j : Z) :
  priv_positions g = flat_map rails pts ->
  0 <= j < Z.of_nat (length pts) ->
  clonePoint j g
  = Ok (Vector3.x (nth_point pts (Z.to_nat j)),
        Vector3.y (nth_point pts (Z.to_nat j)),
        Vector3.z (nth_point pts (Z.to_nat j))) g.
Proof.
  intros Hpos Hj. rewrite <- (Z2Nat.id j) at 1 by lia.
  apply clonePoint_ok; [assumption | lia].
Qed.

Lemma pointsAreEqual_at (pts : list Vector3) (g : MeshLineGeometry)
  (a b : Z) :
  priv_positions g = flat_map rails pts ->
  0 <= a < Z.of_nat (length pts) -> 0 <= b < Z.of_nat (length pts) ->
  pointsAreEqual a b g
  = Ok (point_eq (nth_point pts (Z.to_nat a)) (nth_point pts (Z.to_nat b))) g.
Proof.
  intros Hpos Ha Hb.
  rewrite <- (Z2Nat.id a) at 1 by lia. rewrite <- (Z2Nat.id b) at 1 by lia.
  apply pointsAreEqual_ok; [assumption | lia | lia].
Qed.

Lemma rails_length (pts : list Vector3) :
  length (flat_map rails pts) = (length pts * 6)%nat.
Proof. now apply flat_map_length_const. Qed.

Lemma pointCount_eq (pts : list Vector3) :
  Z.of_nat (length (flat_map rails pts)) / itemSize = Z.of_nat (length pts).
Proof.
  rewrite rails_length, Nat2Z.inj_mul. unfold itemSize.
  now rewrite Z.div_mul by lia.
Qed.

Lemma trips_1 (n : nat) : trips (Z.of_nat n) 1 = n.
Proof.
  unfold trips. replace (Z.of_nat n + 1 - 1) with (Z.of_nat n) by lia.
  rewrite Z.div_1_r. apply Nat2Z.id.
Qed.

Lemma processable_closed (pts : list Vector3) :
  processable pts ->
  point_eq (nth_point pts 0) (nth_point pts (length pts - 1)) = true
  \/ point_eq (nth_point pts (length pts - 1)) (nth_point pts 0) = true ->
  (2 <= length pts)%nat.
Proof.
  intros [HN H1] Hclosed.
  destruct (decide (length pts = 1%nat)) as [E|]; [|lia].
  rewrite E in Hclosed. specialize (H1 E). simpl in Hclosed.
  rewrite H1 in Hclosed. destruct Hclosed; discriminate.
Qed.

Lemma first_point_ok (pts : list Vector3) (s : MeshLineGeometry) :
  processable pts -> priv_positions s = flat_map rails pts ->
  (if point_eq (nth_point pts 0) (nth_point pts (length pts - 1))
   then clonePoint (Z.of_nat (length pts) - 2) else clonePoint 0) s
  = Ok (Vector3.x (first_previous pts), Vector3.y (first_previous pts),
        Vector3.z (first_previous pts)) s.
Proof.
  intros Hp Hpos. pose proof (processable_closed pts Hp) as H2.
  destruct Hp as [HN _]. unfold first_previous.
  destruct (point_eq (nth_point pts 0) (nth_point pts (length pts - 1))).
  - specialize (H2 (or_introl eq_refl)).
    rewrite (clonePoint_at pts) by (assumption || lia).
    replace (Z.to_nat (Z.of_nat (length pts) - 2)) with (length pts - 2)%nat
      by lia.
    reflexivity.
  - rewrite (clonePoint_at pts) by (assumption || lia). reflexivity.
Qed.

Lemma last_point_ok (pts : list Vector3) (s : MeshLineGeometry) :
  processable pts -> priv_positions s = flat_map rails pts ->
  (if point_eq (nth_point pts (length pts - 1)) (nth_point pts 0)
   then clonePoint 1 else clonePoint (Z.of_nat (length pts) - 1)) s
  = Ok (Vector3.x (last_next pts), Vector3.y (last_next pts),
        Vector3.z (last_next pts)) s.
Proof.
  intros Hp Hpos. pose proof (processable_closed pts Hp) as H2.
  destruct Hp as [HN _]. unfold last_next.
  destruct (point_eq (nth_point pts (length pts - 1)) (nth_point pts 0)).
  - specialize (H2 (or_intror eq_refl)).
    rewrite (clonePoint_at pts) by (assumption || lia). reflexivity.
  - rewrite (clonePoint_at pts) by (assumption || lia).
    replace (Z.to_nat (Z.of_nat (length pts) - 1)) with (length pts - 1)%nat
      by lia.
    reflexivity.
Qed.

Lemma process_arrays_ok (pts : list Vector3) (g : MeshLineGeometry) :
  processable pts ->
  priv_positions g = flat_map rails pts ->
  process_arrays g = Ok tt (tessellated pts g).
Proof.
  intros Hp Hpos. pose proof Hp as [HN _]. unfold process_arrays.
  cbn [bind get]. rewrite Hpos, pointCount_eq. cbn [bind modify].
  erewrite bind_Ok by (apply (pointsAreEqual_at pts); (assumption || lia)).
  replace (Z.to_nat (Z.of_nat (length pts) - 1)) with (length pts - 1)%nat
    by lia.
  change (Z.to_nat 0) with 0%nat.
  erewrite bind_Ok by (now apply first_point_ok).
  cbn [bind push_previous modify]. rewrite trips_1.
  match goal with
  | |- bind _ _ ?s = _ => replace s with (looping pts g 0)
  end.
  2:{ destruct g as [pos prv nxt sd wd ix uvs cnt wcb attrs points ga gi al lg].
      simpl in Hpos. subst. unfold looping, per_point. run.
      destruct wcb; simpl; now rewrite app_nil_r. }
  erewrite bind_Ok.
  2:{ apply (for_loop_states (looping pts g)).
      intros k Hk. replace (0 + Z.of_nat k * 1) with (Z.of_nat k) by lia.
      now apply process_body_step. }
  erewrite bind_Ok by (apply (pointsAreEqual_at pts); (reflexivity || lia)).
  replace (Z.to_nat (Z.of_nat (length pts) - 1)) with (length pts - 1)%nat
    by lia.
  change (Z.to_nat 0) with 0%nat.
  erewrite bind_Ok by (now apply last_point_ok).
  unfold looping, tessellated. run.
  unfold previous_of, next_of, side_of, width_of, indices_of, uvs_of, calls_of.
  replace (Nat.min (length pts) (length pts - 1)) with (length pts - 1)%nat
    by lia.
  rewrite (take_ge (drop 1 pts)) by (rewrite length_drop; lia).
  rewrite <- !app_assoc. reflexivity.
Qed.

(* ===================================================================== *)
(** ** [#process]: the attribute objects *)
(* ===================================================================== *)

Ltac run_attr :=
  cbv beta iota delta
    [bind ret modify get throw copyArray set_needsUpdate store array_of
     view update position_ previous_ next_ side_ width_ uv_ index_ counters_
     position previous next side width uv index counters
     with_array with_needsUpdate array object_id attr_itemSize needsUpdate].

Lemma typed_set_same {A T} (conv : A -> T) (target : list T) (source : list A) :
  length target = length source ->
  typed_set conv target source = Some (map conv source).
Proof.
  intros H. unfold typed_set.
  destruct (Nat.ltb_spec (length target) (length source)); [lia|].
  rewrite drop_ge by lia. now rewrite app_nil_r.
Qed.

Lemma process_attributes_allocates (t : MeshLineGeometry) :
  match priv_attributes t with
  | None => True
  | Some a => layout_changed a t = true
  end ->
  process_attributes t
  = Ok tt (set_attributes (Some (fresh_attributes t))
             (set_allocated (allocated t + 8) t)).
Proof.
  intros H. unfold process_attributes. cbn [bind get].
  assert (E : allocate_attributes t
              = Ok tt (set_attributes (Some (fresh_attributes t))
                         (set_allocated (allocated t + 8) t))).
  { destruct t as [pos prv nxt sd wd ix uvs cnt wcb attrs points ga gi al lg].
    unfold allocate_attributes, new_BufferAttribute, fresh_attributes. run.
    replace (al + 8)%nat with (S (S (S (S (S (S (S (S al)))))))) by lia.
    replace (al + 1)%nat with (S al) by lia.
    replace (al + 2)%nat with (S (S al)) by lia.
    replace (al + 3)%nat with (S (S (S al))) by lia.
    replace (al + 4)%nat with (S (S (S (S al)))) by lia.
    replace (al + 5)%nat with (S (S (S (S (S al))))) by lia.
    replace (al + 6)%nat with (S (S (S (S (S (S al)))))) by lia.
    replace (al + 7)%nat with (S (S (S (S (S (S (S al))))))) by lia.
    reflexivity. }
  destruct (priv_attributes t) as [a|]; [rewrite H|]; exact E.
Qed.

Lemma process_attributes_refills (t : MeshLineGeometry) (a : Attributes) :
  priv_attributes t = Some a ->
  layout_changed a t = false ->
  length (array (position a)) = length (priv_positions t) ->
  length (array (previous a)) = length (priv_previous t) ->
  length (array (next a)) = length (priv_next t) ->
  length (array (side a)) = length (priv_side t) ->
  length (array (width a)) = length (priv_width t) ->
  length (array (uv a)) = length (priv_uvs t) ->
  length (array (index a)) = length (priv_indices_array t) ->
  process_attributes t
  = Ok tt (set_attributes (Some (refilled_attributes a t)) t).
Proof.
  intros Ha Hsame H1 H2 H3 H4 H5 H6 H7.
  unfold process_attributes. cbn [bind get]. rewrite Ha, Hsame.
  unfold refresh_attributes, on_attributes. cbn [bind get]. rewrite Ha.
  destruct a as [ap av an asd aw au ai ac].
  cbn [position previous next side width uv index counters] in *.
  run_attr. rewrite (typed_set_same _ _ _ H1).
  run_attr. rewrite (typed_set_same _ _ _ H2).
  run_attr. rewrite (typed_set_same _ _ _ H3).
  run_attr. rewrite (typed_set_same _ _ _ H4).
  run_attr. rewrite (typed_set_same _ _ _ H5).
  run_attr. rewrite (typed_set_same _ _ _ H6).
  run_attr. rewrite (typed_set_same _ _ _ H7).
  reflexivity.
Qed.

Lemma process_register_ok (g : MeshLineGeometry) (a : Attributes) :
  priv_attributes g = Some a ->
  process_register g = Ok tt (registered a g).
Proof.
  intros Ha. unfold process_register. cbn [bind get]. rewrite Ha.
  destruct g as [pos prv nxt sd wd ix uvs cnt wcb attrs points ga gi al lg].
  reflexivity.
Qed.

(* ===================================================================== *)
(** ** [setPoints] as a whole *)
(* ===================================================================== *)

Lemma previous_of_length (pts : list Vector3) :
  (1 <= length pts)%nat -> length (previous_of pts) = (length pts * 6)%nat.
Proof.
  intros H. unfold previous_of.
  rewrite length_app, rails_length, length_take. simpl. lia.
Qed.

Lemma next_of_length (pts : list Vector3) :
  (1 <= length pts)%nat -> length (next_of pts) = (length pts * 6)%nat.
Proof.
  intros H. unfold next_of.
  rewrite length_app, rails_length, length_drop. simpl. lia.
Qed.

Lemma side_of_length (N : nat) : length (side_of N) = (N * 2)%nat.
Proof. now apply per_point_length. Qed.

Lemma width_of_length wcb (N : nat) : length (width_of wcb N) = (N * 2)%nat.
Proof. now apply per_point_length. Qed.

Lemma uvs_of_length (N : nat) : length (uvs_of N) = (N * 4)%nat.
Proof. now apply per_point_length. Qed.

Lemma indices_of_length (N : nat) : length (indices_of N) = ((N - 1) * 6)%nat.
Proof. now apply per_point_length. Qed.

Lemma counters_of_length (N : nat) : length (counters_of N) = (N * 2)%nat.
Proof. now apply per_point_length. Qed.

Lemma filled_all (pts : list Vector3) (g : MeshLineGeometry) :
  filled pts g (length pts)
  = set_counters (counters_of (length pts))
      (set_positions (flat_map rails pts) g).
Proof.
  unfold filled. rewrite firstn_all.
  rewrite take_ge by (rewrite counters_of_length; lia). reflexivity.
Qed.

Lemma encode_length (sh : Shape) (pts : list Vector3) :
  points_length (encode sh pts)
  = match sh with AsVector3Array => length pts | _ => (length pts * 3)%nat end.
Proof.
  destruct sh; simpl; try reflexivity; now apply flat_map_length_const.
Qed.

Lemma isVector3Array_encode (sh : Shape) (pts : list Vector3) :
  (1 <= length pts)%nat ->
  isVector3Array (encode sh pts)
  = match sh with AsVector3Array => true | _ => false end.
Proof.
  intros H. unfold isVector3Array. destruct sh; simpl.
  - destruct pts; [simpl in H; lia | reflexivity].
  - now rewrite andb_false_r.
  - now rewrite andb_false_r.
Qed.

(** The loop of [setPoints], whichever the shape of the argument. *)
Lemma setPoints_loop (sh : Shape) (pts : list Vector3) (g : MeshLineGeometry) :
  (1 <= length pts)%nat ->
  (if isVector3Array (encode sh pts)
   then for_loop (points_length (encode sh pts)) 0 1
                 (setPoints_vector3_body (encode sh pts))
   else for_loop (trips (Z.of_nat (points_length (encode sh pts))) 3) 0 3
                 (setPoints_flat_body (encode sh pts)))
    (set_counters [] (set_positions [] g))
  = Ok tt (set_counters (counters_of (length pts))
             (set_positions (flat_map rails pts) g)).
Proof.
  intros H. rewrite isVector3Array_encode by assumption.
  rewrite <- filled_all.
  destruct sh.
  - apply (setPoints_vector3_loop pts g).
  - apply (setPoints_flat_loop _ pts g). now left.
  - apply (setPoints_flat_loop _ pts g). now right.
Qed.

Lemma setPoints_enters (sh : Shape) (pts : list Vector3)
  (wcb : option (num -> num)) (g : MeshLineGeometry) :
  (1 <= length pts)%nat ->
  setPoints (encode sh pts) wcb g
  = process (loaded (encode sh pts) pts wcb g).
Proof.
  intros H.
  assert (Hlen : (points_length (encode sh pts) =? 0)%nat = false).
  { rewrite encode_length. destruct sh; apply Nat.eqb_neq; lia. }
  assert (Hcb : forall k : Geo unit,
    (match wcb with
     | Some f => modify (set_widthCallback (Some f))
     | None => ret tt
     end ;; k) (set_points (encode sh pts) g)
    = k (set_widthCallback (callback_in_force wcb g)
           (set_points (encode sh pts) g))).
  { intros k. destruct wcb; [reflexivity|]. now destruct g. }
  unfold setPoints.
  assert (E : (if (points_length (encode sh pts) =? 0)%nat then ret tt
     else
      modify (set_points (encode sh pts));;
      match wcb with
      | Some f => modify (set_widthCallback (Some f))
      | None => ret tt
      end;;
      modify (set_positions []);;
      modify (set_counters []);;
      (if isVector3Array (encode sh pts)
       then
        for_loop (points_length (encode sh pts)) 0 1
          (setPoints_vector3_body (encode sh pts))
       else
        for_loop (trips (Z.of_nat (points_length (encode sh pts))) 3) 0 3
          (setPoints_flat_body (encode sh pts)));;
      process) g = process (loaded (encode sh pts) pts wcb g)).
  { rewrite Hlen. cbn [bind modify]. rewrite Hcb. cbn [bind modify].
    erewrite bind_Ok by (now apply setPoints_loop). reflexivity. }
  destruct sh; exact E.
Qed.

Lemma sized_reuse (M N : nat) (a : Attributes) :
  sized M a -> count (position a) * 3 = Z.of_nat (N * 6) -> M = N.
Proof.
  intros (Hp & _ & _ & _ & _ & _ & _ & _ & Hi) H.
  unfold count in H. rewrite Hp, Hi in H.
  replace (Z.of_nat (M * 6)) with (Z.of_nat M * 2 * 3) in H by lia.
  rewrite Z.div_mul in H by lia. lia.
Qed.

Lemma process_ok (points : Points) (pts : list Vector3)
  (wcb : option (num -> num)) (g : MeshLineGeometry) :
  processable pts -> wf g ->
  process (loaded points pts wcb g)
  = Ok tt (after_setPoints points pts wcb g).
Proof.
  intros Hp Hwf. pose proof Hp as [HN _]. unfold process.
  erewrite bind_Ok by (now apply (process_arrays_ok pts)).
  set (t := tessellated pts (loaded points pts wcb g)).
  assert (Ht : priv_attributes t = priv_attributes g) by reflexivity.
  assert (Hal : allocated t = allocated g) by reflexivity.
  assert (Hpos : priv_positions t = flat_map rails pts) by reflexivity.
  unfold after_setPoints, attributes_after. fold t.
  unfold wf in Hwf. unfold reuses.
  destruct (priv_attributes g) as [a|] eqn:Ha.
  - assert (Hl : layout_changed a t
                 = negb (count (position a) * 3 =? Z.of_nat (length pts * 6))).
    { unfold layout_changed. now rewrite Hpos, rails_length. }
    destruct (Z.eqb_spec (count (position a) * 3) (Z.of_nat (length pts * 6)))
      as [Heq|Hne].
    + destruct Hwf as (M & HM & Hs).
      pose proof (sized_reuse _ _ _ Hs Heq) as ->.
      destruct Hs as (H1 & H2 & H3 & H4 & H5 & H6 & H7 & _).
      erewrite bind_Ok.
      2:{ apply (process_attributes_refills t a); try assumption.
          - now rewrite H1, Hpos, rails_length.
          - rewrite H2. symmetry. now apply previous_of_length.
          - rewrite H3. symmetry. now apply next_of_length.
          - rewrite H4. symmetry. apply side_of_length.
          - rewrite H5. symmetry. apply width_of_length.
          - rewrite H6. symmetry. apply uvs_of_length.
          - rewrite H7. symmetry. apply indices_of_length. }
      now apply process_register_ok.
    + erewrite bind_Ok.
      2:{ apply process_attributes_allocates. now rewrite Ht, Hl. }
      rewrite Hal. now apply process_register_ok.
  - erewrite bind_Ok.
    2:{ apply process_attributes_allocates. now rewrite Ht. }
    rewrite Hal. now apply process_register_ok.
Qed.

(** [setPoints] on the points [pts], in any of the three shapes. *)
Lemma setPoints_ok (sh : Shape) (pts : list Vector3)
  (wcb : option (num -> num)) (g : MeshLineGeometry) :
  processable pts -> wf g ->
  setPoints (encode sh pts) wcb g
  = Ok tt (after_setPoints (encode sh pts) pts wcb g).
Proof.
  intros Hp Hwf. rewrite setPoints_enters by apply Hp.
  now apply process_ok.
Qed.

(* ===================================================================== *)
(** ** [memcpy] and [advance] *)
(* ===================================================================== *)

Lemma copy_one {A} (S D : list A) (b i : nat) (v : A) :
  (i < length D)%nat -> S !! (i + b)%nat = Some v ->
  <[i := v]> (take i (drop b S) ++ drop i D)
  = take (Datatypes.S i) (drop b S) ++ drop (Datatypes.S i) D.
Proof.
  intros Hi Hv.
  assert (Hdrop : drop b S !! i = Some v).
  { rewrite lookup_drop. now replace (b + i)%nat with (i + b)%nat by lia. }
  assert (Hlen : length (take i (drop b S)) = i).
  { apply length_take_le. apply lookup_lt_Some in Hdrop. lia. }
  rewrite insert_app_r_alt by lia. rewrite Hlen, Nat.sub_diag.
  destruct (lookup_lt_is_Some_2 D i Hi) as [d Hd].
  rewrite (drop_S _ _ _ Hd). simpl.
  rewrite (take_S_r _ _ _ Hdrop). now rewrite <- app_assoc.
Qed.

(** [memcpy] to the start of [dst] of [n] elements of [src] from [b] on,
    for places whose reads and writes behave as those of an array; [S] is
    what [src] held on entry, and the read hypothesis says that element
    [i + b] of [src] is still the original one when iteration [i] reads
    it (which covers copying an array onto itself towards the front). *)
Lemma memcpy_front (src dst : Lens Attributes (list num)) (a : Attributes)
  (S : list num) (b n : nat) :
  (forall v a', view dst (update dst v a') = v) ->
  (forall v w a', update dst v (update dst w a') = update dst v a') ->
  update dst (view dst a) a = a ->
  (forall i, (i < n)%nat ->
     view src (update dst (take i (drop b S) ++ drop i (view dst a)) a)
       !! (i + b)%nat = S !! (i + b)%nat) ->
  (b + n <= length S)%nat -> (n <= length (view dst a))%nat ->
  memcpy src (Z.of_nat b) dst 0 (Z.of_nat n) a
  = Ok tt (update dst (take n (drop b S) ++ drop n (view dst a)) a).
Proof.
  intros Hview Hupd Hid Hread HS HD. unfold memcpy. cbn [bind get].
  destruct (Z.gtb_spec (0 + Z.of_nat n) (Z.of_nat (length (view dst a))));
    [lia|].
  rewrite Nat2Z.id.
  set (F := fun i => update dst (take i (drop b S) ++ drop i (view dst a)) a).
  replace a with (F 0%nat) at 1 by (unfold F; simpl; rewrite drop_0; exact Hid).
  apply (for_loop_states F). intros i Hi.
  replace (0 + Z.of_nat i * 1) with (Z.of_nat i) by lia.
  unfold memcpy_body. cbn [bind get].
  replace (Z.of_nat i + Z.of_nat b) with (Z.of_nat (i + b)) by lia.
  rewrite at_index_nat. unfold F at 1. rewrite (Hread i Hi).
  destruct (lookup_lt_is_Some_2 S (i + b)) as [v Hv]; [lia|].
  rewrite Hv. unfold modify. f_equal. unfold F.
  rewrite Hview, Hupd. f_equal.
  unfold typed_write.
  destruct (Z.ltb_spec (Z.of_nat i + 0) 0); [lia|].
  replace (Z.to_nat (Z.of_nat i + 0)) with i by lia.
  apply copy_one; [lia | assumption].
Qed.

Lemma memcpy_front_Z (src dst : Lens Attributes (list num)) (a : Attributes)
  (S : list num) (b n : Z) :
  (forall v a', view dst (update dst v a') = v) ->
  (forall v w a', update dst v (update dst w a') = update dst v a') ->
  update dst (view dst a) a = a ->
  (forall i, (i < Z.to_nat n)%nat ->
     view src (update dst (take i (drop (Z.to_nat b) S)
                             ++ drop i (view dst a)) a)
       !! (i + Z.to_nat b)%nat = S !! (i + Z.to_nat b)%nat) ->
  0 <= b -> 0 <= n ->
  b + n <= Z.of_nat (length S) -> n <= Z.of_nat (length (view dst a)) ->
  memcpy src b dst 0 n a
  = Ok tt (update dst (take (Z.to_nat n) (drop (Z.to_nat b) S)
                         ++ drop (Z.to_nat n) (view dst a)) a).
Proof.
  intros Hview Hupd Hid Hread Hb Hn HS HD.
  rewrite <- (Z2Nat.id b) at 1 by lia. rewrite <- (Z2Nat.id n) at 1 by lia.
  apply memcpy_front; auto; lia.
Qed.

(** Element [i + b] is not yet overwritten when an array is copied onto
    itself from [b] to the front. *)
Lemma shifting_read {A} (S : list A) (b i : nat) :
  (i + b <= length S)%nat ->
  (take i (drop b S) ++ drop i S) !! (i + b)%nat = S !! (i + b)%nat.
Proof.
  intros H.
  assert (Hlen : length (take i (drop b S)) = i).
  { rewrite length_take, length_drop. lia. }
  rewrite lookup_app_r by lia. rewrite Hlen, lookup_drop. f_equal. lia.
Qed.

(** The six stores that close a shift. *)
Lemma write_tail (X R : list num) (l : Z) (v0 v1 v2 v3 v4 v5 : num) :
  length R = 6%nat -> l = Z.of_nat (length X) + 6 ->
  typed_write (typed_write (typed_write (typed_write (typed_write
    (typed_write (X ++ R) (l - 6) v0) (l - 5) v1) (l - 4) v2) (l - 3) v3)
    (l - 2) v4) (l - 1) v5
  = X ++ [v0; v1; v2; v3; v4; v5].
Proof.
  intros HR ->.
  destruct R as [|r0 [|r1 [|r2 [|r3 [|r4 [|r5 [|]]]]]]]; try discriminate.
  unfold typed_write.
  repeat match goal with
  | |- context [?z <? 0] => destruct (Z.ltb_spec z 0); [lia|]
  end.
  replace (Z.to_nat (Z.of_nat (length X) + 6 - 6)) with (length X + 0)%nat by lia.
  replace (Z.to_nat (Z.of_nat (length X) + 6 - 5)) with (length X + 1)%nat by lia.
  replace (Z.to_nat (Z.of_nat (length X) + 6 - 4)) with (length X + 2)%nat by lia.
  replace (Z.to_nat (Z.of_nat (length X) + 6 - 3)) with (length X + 3)%nat by lia.
  replace (Z.to_nat (Z.of_nat (length X) + 6 - 2)) with (length X + 4)%nat by lia.
  replace (Z.to_nat (Z.of_nat (length X) + 6 - 1)) with (length X + 5)%nat by lia.
  now rewrite !insert_app_r.
Qed.

Lemma advance_attributes_ok (p : Vector3) (a : Attributes) :
  (6 <= length (array (position a)))%nat ->
  length (array (previous a)) = length (array (position a)) ->
  length (array (next a)) = length (array (position a)) ->
  advance_attributes p a = Ok tt (advanced p a).
Proof.
  destruct a as [[pi P ps pn] [vi V vs vn] [ni Nx ns nn] sd wd u ix cn].
  cbn [position previous next array]. intros HP HV HN.
  unfold advance_attributes. cbn [bind get].
  match goal with |- context [Z.of_nat (length ?v)] =>
    change v with P end.
  erewrite bind_Ok.
  2:{ apply (memcpy_front_Z _ _ _ P); try reflexivity; try lia.
      cbn; lia. }
  change (Z.to_nat 0) with 0%nat. rewrite Nat2Z.id, drop_0, firstn_all.
  cbn [view update array_of previous_ position_ next_ with_array array
       position previous next side width uv index counters object_id
       attr_itemSize needsUpdate].
  rewrite (drop_ge V) by lia. rewrite app_nil_r.
  erewrite bind_Ok.
  2:{ apply (memcpy_front_Z _ _ _ P); try reflexivity; unfold itemSize;
        try (cbn; lia).
      intros i Hi. cbn. apply shifting_read. lia. }
  unfold itemSize.
  replace (Z.to_nat (Z.of_nat (length P) - 6)) with (length P - 6)%nat by lia.
  change (Z.to_nat 6) with 6%nat.
  cbn [view update array_of previous_ position_ next_ with_array array
       position previous next side width uv index counters object_id
       attr_itemSize needsUpdate].
  rewrite (take_ge (drop 6 P)) by (rewrite length_drop; lia).
  unfold store. cbn [bind modify view update array_of previous_ position_ next_ with_array array
       position previous next side width uv index counters object_id
       attr_itemSize needsUpdate].
  rewrite (write_tail (drop 6 P) (drop (length P - 6) P))
    by (rewrite ?length_drop; lia).
  erewrite bind_Ok.
  2:{ apply (memcpy_front_Z _ _ _ (drop 6 P ++ map toFloat32 (rails p)));
        try reflexivity; rewrite ?length_app, ?length_drop; cbn; lia. }
  replace (Z.to_nat (Z.of_nat (length P) - 6)) with (length P - 6)%nat by lia.
  change (Z.to_nat 6) with 6%nat.
  cbn [bind modify view update array_of previous_ position_ next_ with_array array
       position previous next side width uv index counters object_id
       attr_itemSize needsUpdate].
  rewrite (take_ge (drop 6 (drop 6 P ++ map toFloat32 (rails p))))
    by (rewrite length_drop, length_app, length_drop; cbn; lia).
  rewrite (write_tail (drop 6 (drop 6 P ++ map toFloat32 (rails p)))
                      (drop (length P - 6) Nx))
    by (rewrite ?length_drop, ?length_app, ?length_drop; cbn; lia).
  reflexivity.
Qed.

(* ===================================================================== *)
(** ** A lone point *)
(* ===================================================================== *)

Lemma process_arrays_single (p : Vector3) (g : MeshLineGeometry) :
  priv_positions g = flat_map rails [p] ->
  point_eq p p = true ->
  process_arrays g = Throw "point missing" (emptied g).
Proof.
  intros Hpos Heq. unfold process_arrays. cbn [bind get].
  rewrite Hpos, pointCount_eq. cbn [bind modify length].
  erewrite bind_Ok by (apply (pointsAreEqual_at [p]); (assumption || simpl; lia)).
  change (point_eq (nth_point [p] (Z.to_nat 0))
            (nth_point [p] (Z.to_nat (Z.of_nat 1 - 1)))) with (point_eq p p).
  rewrite Heq.
  apply bind_Throw. apply clonePoint_before. lia.
Qed.

Lemma setPoints_single (sh : Shape) (p : Vector3) (wcb : option (num -> num))
  (g : MeshLineGeometry) :
  point_eq p p = true ->
  setPoints (encode sh [p]) wcb g
  = Throw "point missing" (emptied (loaded (encode sh [p]) [p] wcb g)).
Proof.
  intros Heq. rewrite setPoints_enters by (simpl; lia).
  unfold process. apply bind_Throw.
  now apply (process_arrays_single p).
Qed.

(** A number equals itself under [===] unless it is NaN, so a point
    equals itself unless one of its coordinates is NaN. *)
Lemma strict_eq_self (a : num) : strict_eq a a = negb (isNaN a).
Proof.
  destruct a as [|s|q]; simpl.
  - reflexivity.
  - now destruct s.
  - apply Qeq_bool_refl.
Qed.

Lemma point_eq_self (p : Vector3) :
  point_eq p p
  = negb (isNaN (Vector3.x p) || isNaN (Vector3.y p) || isNaN (Vector3.z p)).
Proof.
  unfold point_eq. rewrite !strict_eq_self.
  now destruct (isNaN (Vector3.x p)), (isNaN (Vector3.y p)),
               (isNaN (Vector3.z p)).
Qed.

(** A lone point with a NaN coordinate does not equal itself and goes
    through: [previous] and [next] then hold the point on both rails. *)
Lemma single_point_with_NaN (sh : Shape) (p : Vector3)
  (wcb : option (num -> num)) (g : MeshLineGeometry) :
  point_eq p p = false -> wf g ->
  exists g',
    setPoints (encode sh [p]) wcb g = Ok tt g'
    /\ priv_previous g' = rails p
    /\ priv_next g' = rails p
    /\ priv_indices_array g' = [].
Proof.
  intros Hne Hwf.
  assert (Hp : processable [p]) by (split; [simpl; lia | intros _; exact Hne]).
  exists (after_setPoints (encode sh [p]) [p] wcb g).
  split; [now apply setPoints_ok|].
  unfold after_setPoints.
  destruct (reuses (length [p]) g); cbn; unfold previous_of, next_of,
    first_previous, last_next; cbn; rewrite Hne; repeat split; reflexivity.
Qed.

Lemma setPoints_none (sh : Shape) (wcb : option (num -> num))
  (g : MeshLineGeometry) :
  setPoints (encode sh []) wcb g = Ok tt g.
Proof. now destruct sh. Qed.

(** Every sequence is empty, a lone point equal to itself, or fit for
    [#process]. *)
Lemma processable_cases (pts : list Vector3) :
  pts = []
  \/ (exists p, pts = [p] /\ point_eq p p = true)
  \/ processable pts.
Proof.
  destruct pts as [|p [|q r]].
  - now left.
  - destruct (point_eq p p) eqn:E.
    + right. left. now exists p.
    + right. right. split; [simpl; lia | intros _; exact E].
  - right. right. split; simpl; [lia | intros H; lia].
Qed.

(* ===================================================================== *)
(** ** Code that leaves [#attributes] alone *)
(* ===================================================================== *)

Lemma keeps_ret {A} (a : A) : keeps_attributes (ret a).
Proof. intros g. reflexivity. Qed.

Lemma keeps_throw {A} (msg : string) : keeps_attributes (@throw _ A msg).
Proof. intros g. reflexivity. Qed.

Lemma keeps_bind {A B} (m : Geo A) (k : A -> Geo B) :
  keeps_attributes m -> (forall a, keeps_attributes (k a)) ->
  keeps_attributes (bind m k).
Proof.
  intros Hm Hk g. unfold bind. specialize (Hm g).
  destruct (m g) as [a s|msg s]; simpl in *.
  - now rewrite Hk.
  - exact Hm.
Qed.

Lemma keeps_get_bind {B} (k : MeshLineGeometry -> Geo B) :
  (forall a, keeps_attributes (k a)) -> keeps_attributes (bind get k).
Proof. intros Hk g. apply Hk. Qed.

Lemma keeps_modify (f : MeshLineGeometry -> MeshLineGeometry) :
  (forall g, priv_attributes (f g) = priv_attributes g) ->
  keeps_attributes (modify f).
Proof. intros Hf g. apply Hf. Qed.

Lemma keeps_for_loop (n : nat) (j step : Z) (body : Z -> Geo unit) :
  (forall i, keeps_attributes (body i)) ->
  keeps_attributes (for_loop n j step body).
Proof.
  intros Hbody. revert j. induction n as [|n IH]; intros j.
  - apply keeps_ret.
  - simpl. apply keeps_bind; [apply Hbody | intros _; apply IH].
Qed.

Ltac keeps :=
  repeat match goal with
  | |- keeps_attributes (ret _) => apply keeps_ret
  | |- keeps_attributes (throw _) => apply keeps_throw
  | |- keeps_attributes (bind get _) => apply keeps_get_bind; intros ?
  | |- keeps_attributes (bind _ _) => apply keeps_bind; [|intros ?]
  | |- keeps_attributes (for_loop _ _ _ _) => apply keeps_for_loop; intros ?
  | |- keeps_attributes (modify _) =>
      apply keeps_modify; intros ?; reflexivity
  | |- keeps_attributes (match ?x with _ => _ end) => destruct x
  end.

Lemma keeps_flat_body points j :
  keeps_attributes (setPoints_flat_body points j).
Proof. unfold setPoints_flat_body, push_positions, push_counters. keeps. Qed.

(** A loop whose last iteration throws in every state throws. *)
Lemma for_loop_last_throws {S} (n : nat) (j0 step : Z) (body : Z -> M S unit) :
  (forall s, exists msg s', body (j0 + Z.of_nat n * step) s = Throw msg s') ->
  forall s, exists msg s',
    for_loop (Datatypes.S n) j0 step body s = Throw msg s'.
Proof.
  revert j0. induction n as [|n IH]; intros j0 Hlast s.
  - destruct (Hlast s) as (msg & s' & H).
    replace (j0 + Z.of_nat 0 * step) with j0 in H by lia.
    exists msg, s'. simpl. unfold bind. now rewrite H.
  - change (for_loop (Datatypes.S (Datatypes.S n)) j0 step body s)
      with (bind (body j0) (fun _ => for_loop (Datatypes.S n) (j0 + step) step body) s).
    unfold bind. destruct (body j0 s) as [[] s1|msg s1]; [|now eauto].
    apply IH. intros s2. destruct (Hlast s2) as (msg & s' & H).
    exists msg, s'. rewrite <- H. f_equal. lia.
Qed.

Lemma group3_flat (a : list num) (n : nat) :
  length a = (n * 3)%nat -> flat_map coordinates (group3 a) = a.
Proof.
  revert a. induction n as [|n IH]; intros a H.
  - destruct a; [reflexivity | discriminate].
  - destruct a as [|x [|y [|z r]]]; try discriminate.
    simpl. rewrite IH; [reflexivity | simpl in H; lia].
Qed.

(* ===================================================================== *)
(** ** Every call of [setPoints] *)
(* ===================================================================== *)

(** [toFloat32] on some numbers: integers of moderate size and dyadic
    fractions are kept; 1/10 and 1/3 go to their binary32 neighbours; a
    tie goes to the even significand; the smallest subnormal is 2^-149,
    and half of it is rounded to zero; 2^128 - 2^103 and more is
    infinite. *)
Lemma toFloat32_examples :
  toFloat32 (ofZ 0) = ofZ 0
  /\ toFloat32 (ofZ 1) = ofZ 1
  /\ toFloat32 (ofZ (-1)) = ofZ (-1)
  /\ toFloat32 (Fin (3 # 4)) = Fin (3 # 4)
  /\ toFloat32 (Fin (1 # 10)) = Fin (13421773 # 134217728)
  /\ toFloat32 (Fin (1 # 3)) = Fin (11184811 # 33554432)
  /\ toFloat32 (ofZ 16777217) = ofZ 16777216
  /\ toFloat32 (ofZ 16777219) = ofZ 16777220
  /\ toFloat32 (Fin (1 # 2 ^ 149)) = Fin (1 # 2 ^ 149)
  /\ toFloat32 (Fin (1 # 2 ^ 150)) = ofZ 0
  /\ toFloat32 (ofZ (2 ^ 128 - 2 ^ 103 - 1)) = ofZ (2 ^ 128 - 2 ^ 104)
  /\ toFloat32 (ofZ (2 ^ 128 - 2 ^ 103)) = Inf false
  /\ toFloat32 (ofZ (- 2 ^ 130)) = Inf true
  /\ toFloat32 NaN = NaN.
Proof. repeat split; vm_compute; reflexivity. Qed.

(** A flat array whose length is not a multiple of three makes the loop
    of [setPoints] throw at its last point. *)
Lemma setPoints_ragged (points : Points) (a : list num)
  (wcb : option (num -> num)) (g : MeshLineGeometry) :
  points = NumberArray a \/ points = Float32Array a ->
  Z.of_nat (length a) mod 3 <> 0 ->
  exists msg g', setPoints points wcb g = Throw msg g'
                 /\ priv_attributes g' = priv_attributes g.
Proof.
  intros Hpoints Hmod.
  assert (Hlen : points_length points = length a)
    by (destruct Hpoints as [-> | ->]; reflexivity).
  assert (Hat : forall i, number_at points i = at_index a i)
    by (destruct Hpoints as [-> | ->]; reflexivity).
  assert (Hvec : isVector3Array points = false).
  { unfold isVector3Array.
    replace (vector3_at points 0) with (@None Vector3)
      by (destruct Hpoints as [-> | ->]; reflexivity).
    apply andb_false_r. }
  assert (Hne : (points_length points =? 0)%nat = false).
  { rewrite Hlen. apply Nat.eqb_neq. intros E. rewrite E in Hmod. now apply Hmod. }
  set (s1 := set_counters [] (set_positions []
               (set_widthCallback (callback_in_force wcb g)
                  (set_points points g)))).
  assert (E : setPoints points wcb g
              = bind (for_loop (trips (Z.of_nat (points_length points)) 3) 0 3
                        (setPoints_flat_body points)) (fun _ => process) s1).
  { unfold setPoints.
    assert (E' : (if (points_length points =? 0)%nat then ret tt
       else
        modify (set_points points);;
        match wcb with
        | Some f => modify (set_widthCallback (Some f))
        | None => ret tt
        end;;
        modify (set_positions []);;
        modify (set_counters []);;
        (if isVector3Array points
         then for_loop (points_length points) 0 1
                (setPoints_vector3_body points)
         else for_loop (trips (Z.of_nat (points_length points)) 3) 0 3
                (setPoints_flat_body points));;
        process) g
      = bind (for_loop (trips (Z.of_nat (points_length points)) 3) 0 3
                (setPoints_flat_body points)) (fun _ => process) s1).
    { rewrite Hne, Hvec. unfold s1. destruct wcb; [reflexivity|].
      now destruct g. }
    destruct Hpoints as [-> | ->]; exact E'. }
  rewrite E, Hlen.
  pose proof (Z.div_mod (Z.of_nat (length a)) 3 ltac:(lia)) as Hdm.
  pose proof (Z.mod_pos_bound (Z.of_nat (length a)) 3 ltac:(lia)) as Hb.
  pose proof (Z.div_pos (Z.of_nat (length a)) 3 ltac:(lia) ltac:(lia)) as Hq.
  set (q := Z.of_nat (length a) / 3) in *.
  assert (Htrips : trips (Z.of_nat (length a)) 3 = Datatypes.S (Z.to_nat q)).
  { unfold trips.
    replace (Z.of_nat (length a) + 3 - 1)
      with ((Z.of_nat (length a) mod 3 - 1) + (q + 1) * 3) by lia.
    rewrite Z.div_add by lia.
    rewrite (Z.div_small (Z.of_nat (length a) mod 3 - 1)) by lia. lia. }
  rewrite Htrips.
  destruct (for_loop_last_throws (Z.to_nat q) 0 3
              (setPoints_flat_body points)) with (s := s1) as (msg & s' & Hloop).
  { intros s. unfold setPoints_flat_body. rewrite !Hat.
    assert (Hnone : at_index a (0 + Z.of_nat (Z.to_nat q) * 3 + 2) = None).
    { unfold at_index.
      destruct (Z.ltb_spec (0 + Z.of_nat (Z.to_nat q) * 3 + 2) 0); [reflexivity|].
      apply lookup_ge_None. lia. }
    rewrite Hnone.
    destruct (at_index a (0 + Z.of_nat (Z.to_nat q) * 3 + 0)),
             (at_index a (0 + Z.of_nat (Z.to_nat q) * 3 + 1)); now eauto. }
  exists msg, s'. split.
  - now apply bind_Throw.
  - pose proof (keeps_for_loop (Datatypes.S (Z.to_nat q)) 0 3
                  (setPoints_flat_body points) (keeps_flat_body points) s1) as K.
    rewrite Hloop in K. simpl in K. rewrite K.
    unfold s1. now destruct g.
Qed.

Lemma sized_fresh (pts : list Vector3) (t : MeshLineGeometry) :
  (1 <= length pts)%nat ->
  priv_positions t = flat_map rails pts ->
  priv_previous t = previous_of pts ->
  priv_next t = next_of pts ->
  priv_side t = side_of (length pts) ->
  length (priv_width t) = (length pts * 2)%nat ->
  priv_uvs t = uvs_of (length pts) ->
  priv_indices_array t = indices_of (length pts) ->
  priv_counters t = counters_of (length pts) ->
  sized (length pts) (fresh_attributes t).
Proof.
  intros HN E1 E2 E3 E4 Hw E5 E6 E7. unfold sized, fresh_attributes.
  cbn [position previous next side width uv index counters array attr_itemSize].
  rewrite E1, E2, E3, E4, E5, E6, E7.
  rewrite !length_map, rails_length, previous_of_length, next_of_length,
    side_of_length, uvs_of_length, indices_of_length by assumption.
  repeat split; auto.
Qed.

Lemma sized_refilled (pts : list Vector3) (a : Attributes)
  (t : MeshLineGeometry) :
  (1 <= length pts)%nat ->
  sized (length pts) a ->
  priv_positions t = flat_map rails pts ->
  priv_previous t = previous_of pts ->
  priv_next t = next_of pts ->
  priv_side t = side_of (length pts) ->
  length (priv_width t) = (length pts * 2)%nat ->
  priv_uvs t = uvs_of (length pts) ->
  priv_indices_array t = indices_of (length pts) ->
  sized (length pts) (refilled_attributes a t).
Proof.
  intros HN (_ & _ & _ & _ & _ & _ & _ & Hc & Hi) E1 E2 E3 E4 Hw E5 E6.
  unfold sized, refilled_attributes.
  cbn [position previous next side width uv index counters array
       attr_itemSize with_needsUpdate with_array].
  rewrite E1, E2, E3, E4, E5, E6.
  rewrite !length_map, rails_length, previous_of_length, next_of_length,
    side_of_length, uvs_of_length, indices_of_length by assumption.
  repeat split; auto.
Qed.

Lemma attributes_after_sized (points : Points) (pts : list Vector3)
  (wcb : option (num -> num)) (g : MeshLineGeometry) :
  processable pts -> wf g ->
  sized (length pts) (attributes_after points pts wcb g).
Proof.
  intros [HN _] Hwf. unfold attributes_after, reuses. unfold wf in Hwf.
  destruct (priv_attributes g) as [a|].
  - destruct (Z.eqb_spec (count (position a) * 3) (Z.of_nat (length pts * 6)))
      as [Heq|Hne].
    + destruct Hwf as (M & HM & Hs).
      pose proof (sized_reuse _ _ _ Hs Heq) as ->.
      apply sized_refilled; try reflexivity; try assumption.
      apply width_of_length.
    + apply sized_fresh; try reflexivity; try assumption.
      apply width_of_length.
  - apply sized_fresh; try reflexivity; try assumption.
    apply width_of_length.
Qed.

Lemma after_setPoints_attributes (points : Points) (pts : list Vector3)
  (wcb : option (num -> num)) (g : MeshLineGeometry) :
  priv_attributes (after_setPoints points pts wcb g)
  = Some (attributes_after points pts wcb g).
Proof. reflexivity. Qed.

Lemma after_setPoints_wf (points : Points) (pts : list Vector3)
  (wcb : option (num -> num)) (g : MeshLineGeometry) :
  processable pts -> wf g -> wf (after_setPoints points pts wcb g).
Proof.
  intros Hp Hwf. unfold wf. rewrite after_setPoints_attributes.
  exists (length pts). split; [apply Hp | now apply attributes_after_sized].
Qed.

(** The three ways a call of [setPoints] can end. *)
Lemma setPoints_cases (points : Points) (wcb : option (num -> num))
  (g : MeshLineGeometry) :
  wf g ->
  (points_length points = 0%nat /\ points <> OtherValue
   /\ setPoints points wcb g = Ok tt g)
  \/ (exists msg g', setPoints points wcb g = Throw msg g'
                     /\ priv_attributes g' = priv_attributes g)
  \/ (exists sh pts, points = encode sh pts /\ processable pts
        /\ setPoints points wcb g
           = Ok tt (after_setPoints points pts wcb g)).
Proof.
  intros Hwf.
  assert (Hshape : forall sh pts, points = encode sh pts ->
    (points_length points = 0%nat /\ points <> OtherValue
     /\ setPoints points wcb g = Ok tt g)
    \/ (exists msg g', setPoints points wcb g = Throw msg g'
                       /\ priv_attributes g' = priv_attributes g)
    \/ (exists sh pts, points = encode sh pts /\ processable pts
          /\ setPoints points wcb g
             = Ok tt (after_setPoints points pts wcb g))).
  { intros sh pts ->.
    destruct (processable_cases pts) as [-> | [(p & -> & Heq) | Hp]].
    - left. repeat split; destruct sh; (reflexivity || discriminate).
    - right. left. eexists _, _. split; [now apply setPoints_single|].
      now destruct g.
    - right. right. exists sh, pts. repeat split; try apply Hp.
      now apply setPoints_ok. }
  assert (Hflat : forall a, points = NumberArray a \/ points = Float32Array a ->
    (points_length points = 0%nat /\ points <> OtherValue
     /\ setPoints points wcb g = Ok tt g)
    \/ (exists msg g', setPoints points wcb g = Throw msg g'
                       /\ priv_attributes g' = priv_attributes g)
    \/ (exists sh pts, points = encode sh pts /\ processable pts
          /\ setPoints points wcb g
             = Ok tt (after_setPoints points pts wcb g))).
  { intros a Ha.
    destruct (Z.eq_dec (Z.of_nat (length a) mod 3) 0) as [Hmod|Hmod].
    - assert (Hg : flat_map coordinates (group3 a) = a).
      { apply (group3_flat a (Z.to_nat (Z.of_nat (length a) / 3))).
        pose proof (Z.div_mod (Z.of_nat (length a)) 3 ltac:(lia)).
        pose proof (Z.div_pos (Z.of_nat (length a)) 3 ltac:(lia) ltac:(lia)).
        lia. }
      destruct Ha as [-> | ->].
      + apply (Hshape AsNumberArray (group3 a)). simpl. now rewrite Hg.
      + apply (Hshape AsFloat32Array (group3 a)). simpl. now rewrite Hg.
    - right. left. now apply (setPoints_ragged points a). }
  destruct points as [a|a|a|].
  - now apply (Hshape AsVector3Array a).
  - apply (Hflat a). now left.
  - apply (Hflat a). now right.
  - right. left. now exists "invalid points"%string, g.
Qed.

Lemma setPoints_wf (points : Points) (wcb : option (num -> num))
  (g : MeshLineGeometry) :
  wf g -> wf (state_of (setPoints points wcb g)).
Proof.
  intros Hwf.
  destruct (setPoints_cases points wcb g Hwf)
    as [(_ & _ & ->) | [(msg & g' & -> & Ha) | (sh & pts & _ & Hp & ->)]];
    simpl.
  - assumption.
  - unfold wf in *. now rewrite Ha.
  - now apply after_setPoints_wf.
Qed.

(* ===================================================================== *)
(** ** Every call of [advance], and the invariant *)
(* ===================================================================== *)

Lemma advance_uninitialised (p : Vector3) (g : MeshLineGeometry) :
  priv_attributes g = None ->
  advance p g = Throw "Call setPoints first." g.
Proof. intros H. unfold advance. cbn [bind get]. now rewrite H. Qed.

Lemma advance_ok (p : Vector3) (g : MeshLineGeometry) (a : Attributes) :
  wf g -> priv_attributes g = Some a ->
  advance p g = Ok tt (set_attributes (Some (advanced p a)) g).
Proof.
  intros Hwf Ha. unfold advance. cbn [bind get]. rewrite Ha.
  unfold on_attributes. rewrite Ha.
  unfold wf in Hwf. rewrite Ha in Hwf.
  destruct Hwf as (M & HM & H1 & H2 & H3 & _).
  rewrite advance_attributes_ok by lia. reflexivity.
Qed.

Lemma advanced_sized (p : Vector3) (M : nat) (a : Attributes) :
  (1 <= M)%nat -> sized M a -> sized M (advanced p a).
Proof.
  intros HM (H1 & H2 & H3 & H4 & H5 & H6 & H7 & H8 & H9).
  unfold sized, advanced.
  cbn [position previous next side width uv index counters array
       attr_itemSize with_needsUpdate with_array].
  rewrite !length_app, !length_drop, !length_app, !length_drop, !length_map.
  simpl length. repeat split; auto; lia.
Qed.

Lemma advance_wf (p : Vector3) (g : MeshLineGeometry) :
  wf g -> wf (state_of (advance p g)).
Proof.
  intros Hwf. destruct (priv_attributes g) as [a|] eqn:Ha.
  - rewrite (advance_ok p g a Hwf Ha). simpl.
    unfold wf in *. rewrite Ha in Hwf. destruct Hwf as (M & HM & Hs).
    destruct g. simpl. exists M. split; [assumption|].
    now apply advanced_sized.
  - now rewrite (advance_uninitialised p g Ha).
Qed.

(** The invariant holds of every geometry the methods can produce. *)
Lemma reachable_wf (g : MeshLineGeometry) : reachable g -> wf g.
Proof.
  induction 1 as [|g points wcb _ IH|g p _ IH].
  - exact I.
  - now apply setPoints_wf.
  - now apply advance_wf.
Qed.

Lemma uninitialised_no_attributes (g : MeshLineGeometry) :
  uninitialised g -> priv_attributes g = None.
Proof.
  induction 1 as [|g points wcb msg g' _ IH Hs|g points wcb g' _ IH Hlen Hs
                  |g p msg g' _ IH Hs].
  - reflexivity.
  - assert (Hwf : wf g) by (unfold wf; now rewrite IH).
    destruct (setPoints_cases points wcb g Hwf)
      as [(_ & _ & E) | [(msg' & g'' & E & Ha) | (sh & pts & _ & _ & E)]];
      rewrite E in Hs; try discriminate.
    injection Hs as _ <-. now rewrite Ha.
  - assert (Hwf : wf g) by (unfold wf; now rewrite IH).
    destruct (setPoints_cases points wcb g Hwf)
      as [(_ & _ & E) | [(msg' & g'' & E & Ha) | (sh & pts & -> & [Hp _] & E)]];
      rewrite E in Hs; try discriminate.
    + now injection Hs as <-.
    + rewrite encode_length in Hlen. destruct sh; lia.
  - rewrite (advance_uninitialised p g IH) in Hs. now injection Hs as _ <-.
Qed.

(* ===================================================================== *)
(** ** Reading the arrays back *)
(* ===================================================================== *)

(** Both rail vertices of point [j] in an array of rails. *)
Lemma vertex3_rails (l : list Vector3) (j r : nat) :
  (r < 2)%nat -> vertex3 (flat_map rails l) (2 * j + r) = l !! j.
Proof.
  intros Hr. unfold vertex3.
  replace (3 * (2 * j + r))%nat with (j * 6 + 3 * r)%nat by lia.
  replace (j * 6 + 3 * r + 1)%nat with (j * 6 + (3 * r + 1))%nat by lia.
  replace (j * 6 + 3 * r + 2)%nat with (j * 6 + (3 * r + 2))%nat by lia.
  rewrite !(flat_map_lookup rails 6) by (reflexivity || lia).
  destruct (l !! j) as [[x y z]|]; [|reflexivity].
  destruct r as [|[|r]]; [reflexivity | reflexivity | lia].
Qed.

(** Vertices of an array that has been stored as binary32 values. *)
Lemma vertex3_stored (l : list num) (v : nat) :
  vertex3 (map toFloat32 l) v = stored <$> vertex3 l v.
Proof.
  unfold vertex3. rewrite !list_lookup_fmap.
  destruct (l !! (3 * v)%nat), (l !! (3 * v + 1)%nat),
           (l !! (3 * v + 2)%nat); reflexivity.
Qed.

Lemma previous_of_rails (pts : list Vector3) :
  previous_of pts
  = flat_map rails (first_previous pts :: take (length pts - 1) pts).
Proof. reflexivity. Qed.

Lemma next_of_rails (pts : list Vector3) :
  next_of pts = flat_map rails (drop 1 pts ++ [last_next pts]).
Proof.
  unfold next_of. now rewrite flat_map_app.
Qed.

Lemma previous_of_first (pts : list Vector3) (r : nat) :
  (r < 2)%nat ->
  vertex3 (previous_of pts) (2 * 0 + r) = Some (first_previous pts).
Proof.
  intros Hr. rewrite previous_of_rails. now rewrite vertex3_rails.
Qed.

Lemma previous_of_later (pts : list Vector3) (j r : nat) :
  (0 < j < length pts)%nat -> (r < 2)%nat ->
  vertex3 (previous_of pts) (2 * j + r) = Some (nth_point pts (j - 1)).
Proof.
  intros Hj Hr. rewrite previous_of_rails, vertex3_rails by assumption.
  destruct j as [|j]; [lia|]. simpl.
  rewrite lookup_take_lt by lia. rewrite Nat.sub_0_r.
  apply nth_point_lookup. lia.
Qed.

Lemma next_of_last (pts : list Vector3) (r : nat) :
  (1 <= length pts)%nat -> (r < 2)%nat ->
  vertex3 (next_of pts) (2 * (length pts - 1) + r) = Some (last_next pts).
Proof.
  intros HN Hr. rewrite next_of_rails, vertex3_rails by assumption.
  rewrite lookup_app_r by (rewrite length_drop; lia).
  rewrite length_drop, Nat.sub_diag. reflexivity.
Qed.

Lemma next_of_earlier (pts : list Vector3) (j r : nat) :
  (j < length pts - 1)%nat -> (r < 2)%nat ->
  vertex3 (next_of pts) (2 * j + r) = Some (nth_point pts (j + 1)).
Proof.
  intros Hj Hr. rewrite next_of_rails, vertex3_rails by assumption.
  rewrite lookup_app_l by (rewrite length_drop; lia).
  rewrite lookup_drop. replace (1 + j)%nat with (j + 1)%nat by lia.
  apply nth_point_lookup. lia.
Qed.

(** The arrays of the attribute objects after [setPoints], whether the
    objects are new or reused. *)
Lemma attributes_after_arrays (points : Points) (pts : list Vector3)
  (wcb : option (num -> num)) (g : MeshLineGeometry) :
  processable pts -> wf g ->
  let a := attributes_after points pts wcb g in
  array (position a) = map toFloat32 (flat_map rails pts)
  /\ array (previous a) = map toFloat32 (previous_of pts)
  /\ array (next a) = map toFloat32 (next_of pts)
  /\ array (side a) = map toFloat32 (side_of (length pts))
  /\ array (width a)
     = map toFloat32 (width_of (callback_in_force wcb g) (length pts))
  /\ array (uv a) = map toFloat32 (uvs_of (length pts))
  /\ array (index a) = map toUint16 (indices_of (length pts))
  /\ array (counters a) = map toFloat32 (counters_of (length pts)).
Proof.
  intros Hp Hwf a.
  pose proof (attributes_after_sized points pts wcb g Hp Hwf)
    as (_ & _ & _ & _ & _ & _ & _ & Hc & _).
  fold a in Hc.
  assert (Hcb : widthCallback (loaded points pts wcb g)
                = callback_in_force wcb g) by reflexivity.
  subst a. unfold attributes_after in *.
  destruct (priv_attributes g) as [a0|]; [destruct (reuses (length pts) g)|];
    cbn [refilled_attributes fresh_attributes position previous next side
         width uv index counters array with_array with_needsUpdate] in *;
    cbn [tessellated priv_positions priv_previous priv_next priv_side
         priv_width priv_uvs priv_indices_array priv_counters];
    rewrite ?Hcb; repeat split; try reflexivity; exact Hc.
Qed.

(** The private arrays after [setPoints]. *)
Lemma after_setPoints_arrays (points : Points) (pts : list Vector3)
  (wcb : option (num -> num)) (g : MeshLineGeometry) :
  let g' := after_setPoints points pts wcb g in
  priv_positions g' = flat_map rails pts
  /\ priv_previous g' = previous_of pts
  /\ priv_next g' = next_of pts
  /\ priv_side g' = side_of (length pts)
  /\ priv_width g' = width_of (callback_in_force wcb g) (length pts)
  /\ priv_indices_array g' = indices_of (length pts)
  /\ priv_uvs g' = uvs_of (length pts)
  /\ priv_counters g' = counters_of (length pts)
  /\ widthCallback g' = callback_in_force wcb g
  /\ priv_points g' = points
  /\ callback_log g'
     = callback_log g ++ calls_of (callback_in_force wcb g) (length pts).
Proof.
  unfold after_setPoints. destruct (reuses (length pts) g), g;
    repeat split; reflexivity.
Qed.

(* ===================================================================== *)
(** ** Counts, indices and sides (claim C1) *)
(* ===================================================================== *)

(** For every sequence [#process] can go through, so for every sequence of
    two points or more: [2N] vertices in every attribute, [6(N-1)]
    indices, the two triangles of each segment, and sides [+1, -1]. *)
Lemma tessellation_counts (sh : Shape) (pts : list Vector3)
  (wcb : option (num -> num)) (g : MeshLineGeometry) :
  processable pts -> reachable g ->
  exists g' a,
    setPoints (encode sh pts) wcb g = Ok tt g'
    /\ priv_attributes g' = Some a
    /\ length (array (position a)) = (3 * (2 * length pts))%nat
    /\ length (array (previous a)) = (3 * (2 * length pts))%nat
    /\ length (array (next a)) = (3 * (2 * length pts))%nat
    /\ length (array (side a)) = (2 * length pts)%nat
    /\ length (array (width a)) = (2 * length pts)%nat
    /\ length (array (counters a)) = (2 * length pts)%nat
    /\ length (array (uv a)) = (2 * (2 * length pts))%nat
    /\ length (array (index a)) = (6 * (length pts - 1))%nat
    /\ (forall j, (j < length pts - 1)%nat ->
          let n := Z.of_nat (2 * j) in
          forall c, (c < 6)%nat ->
            priv_indices_array g' !! (6 * j + c)%nat
            = [n; n + 1; n + 2; n + 2; n + 1; n + 3] !! c)
    /\ (forall j, (j < length pts)%nat ->
          array (side a) !! (2 * j)%nat = Some (ofZ 1)
          /\ array (side a) !! (2 * j + 1)%nat = Some (ofZ (-1))).
Proof.
  intros Hp Hr. pose proof (reachable_wf g Hr) as Hwf.
  exists (after_setPoints (encode sh pts) pts wcb g),
         (attributes_after (encode sh pts) pts wcb g).
  pose proof (attributes_after_sized (encode sh pts) pts wcb g Hp Hwf)
    as (H1 & H2 & H3 & H4 & H5 & H6 & H7 & H8 & _).
  pose proof (attributes_after_arrays (encode sh pts) pts wcb g Hp Hwf)
    as (_ & _ & _ & Hside & _ & _ & _ & Hc).
  cbv zeta in Hside, Hc.
  split; [now apply setPoints_ok|]. split; [reflexivity|].
  rewrite H1, H2, H3, H4, H5, H6, H7, Hc, length_map, counters_of_length.
  repeat (split; [lia|]). split.
  - intros j Hj n c Hc6.
    pose proof (after_setPoints_arrays (encode sh pts) pts wcb g)
      as (_ & _ & _ & _ & _ & -> & _).
    unfold indices_of.
    replace (6 * j + c)%nat with (j * 6 + c)%nat by lia.
    rewrite (per_point_lookup quad 6) by (reflexivity || lia).
    unfold quad, n. f_equal. repeat (f_equal; try lia).
  - intros j Hj. rewrite Hside, !list_lookup_fmap. unfold side_of.
    replace (2 * j)%nat with (j * 2 + 0)%nat by lia.
    replace (j * 2 + 0 + 1)%nat with (j * 2 + 1)%nat by lia.
    rewrite !(per_point_lookup _ 2) by (reflexivity || lia).
    split; reflexivity.
Qed.

(** The end-to-end example: three points on a line, default width. *)
Lemma three_points_tessellated :
  exists g' a,
    setPoints (Vector3Array three_points) None new_MeshLineGeometry = Ok tt g'
    /\ priv_attributes g' = Some a
    /\ array (index a) = [0; 1; 2; 2; 1; 3; 2; 3; 4; 4; 3; 5]
    /\ array (side a)
       = [ofZ 1; ofZ (-1); ofZ 1; ofZ (-1); ofZ 1; ofZ (-1)]
    /\ length (array (position a)) = 18%nat.
Proof.
  eexists _, _. split.
  - apply (setPoints_ok AsVector3Array three_points);
      [split; simpl; [lia | intros; lia] | exact I].
  - repeat split; reflexivity.
Qed.

(** C1 (the code departs from it for N = 1): tessellation is to emit 2N
    vertices and 6*max(N-1,0) indices for every N >= 1.  For the single
    point (1,2,3) [setPoints] throws "point missing" instead: the point
    equals itself, [#process] takes the line for a closed loop and asks
    [#clonePoint] for point N-2 = -1.  No attribute object is created, no
    side value and no index is emitted. *)
Theorem single_point_emits_no_vertices :
  exists g',
    setPoints (Vector3Array [xyz 1 2 3]) None new_MeshLineGeometry
    = Throw "point missing" g'
    /\ priv_attributes g' = None
    /\ priv_side g' = []
    /\ priv_indices_array g' = []
    /\ geometry_attributes g' = ∅
    /\ geometry_index g' = None.
Proof.
  eexists. split.
  - now apply (setPoints_single AsVector3Array (xyz 1 2 3)).
  - repeat split; reflexivity.
Qed.

(* ===================================================================== *)
(** ** Adjacency (claim C2) *)
(* ===================================================================== *)

(** C2: for N >= 2 points, in [#previous] both rail vertices of point 0
    hold point N-2 when point 0 and point N-1 are equal under [===], and
    point 0 otherwise; in [#next] both rail vertices of point N-1 hold
    point 1 when point N-1 equals point 0, and point N-1 otherwise; every
    later point j has previous = point j-1 and every earlier point j has
    next = point j+1, on both rails, which covers the interior points.
    The [previous] and [next] attributes hold these arrays stored as
    binary32 values, so that each of their vertices is the adjacent point
    with its coordinates rounded. *)
Theorem adjacency_of_points (sh : Shape) (pts : list Vector3)
  (wcb : option (num -> num)) (g : MeshLineGeometry) :
  (2 <= length pts)%nat -> reachable g ->
  let before_first :=
    if point_eq (nth_point pts 0) (nth_point pts (length pts - 1))
    then nth_point pts (length pts - 2)
    else nth_point pts 0 in
  let after_last :=
    if point_eq (nth_point pts (length pts - 1)) (nth_point pts 0)
    then nth_point pts 1
    else nth_point pts (length pts - 1) in
  exists g' a,
    setPoints (encode sh pts) wcb g = Ok tt g'
    /\ priv_attributes g' = Some a
    /\ array (previous a) = map toFloat32 (priv_previous g')
    /\ array (next a) = map toFloat32 (priv_next g')
    /\ (forall r, (r < 2)%nat ->
          vertex3 (priv_previous g') (2 * 0 + r) = Some before_first
          /\ vertex3 (array (previous a)) (2 * 0 + r)
             = Some (stored before_first))
    /\ (forall r, (r < 2)%nat ->
          vertex3 (priv_next g') (2 * (length pts - 1) + r) = Some after_last
          /\ vertex3 (array (next a)) (2 * (length pts - 1) + r)
             = Some (stored after_last))
    /\ (forall j r, (0 < j < length pts)%nat -> (r < 2)%nat ->
          vertex3 (priv_previous g') (2 * j + r)
          = Some (nth_point pts (j - 1))
          /\ vertex3 (array (previous a)) (2 * j + r)
             = Some (stored (nth_point pts (j - 1))))
    /\ (forall j r, (j < length pts - 1)%nat -> (r < 2)%nat ->
          vertex3 (priv_next g') (2 * j + r) = Some (nth_point pts (j + 1))
          /\ vertex3 (array (next a)) (2 * j + r)
             = Some (stored (nth_point pts (j + 1)))).
Proof.
  intros HN Hr before_first after_last.
  pose proof (reachable_wf g Hr) as Hwf.
  assert (Hp : processable pts) by (split; [lia | intros; lia]).
  exists (after_setPoints (encode sh pts) pts wcb g),
         (attributes_after (encode sh pts) pts wcb g).
  pose proof (attributes_after_arrays (encode sh pts) pts wcb g Hp Hwf)
    as (_ & Hprev & Hnext & _).
  pose proof (after_setPoints_arrays (encode sh pts) pts wcb g)
    as (_ & Pprev & Pnext & _).
  cbv zeta in Hprev, Hnext, Pprev, Pnext.
  split; [now apply setPoints_ok|]. split; [reflexivity|].
  rewrite Hprev, Hnext, Pprev, Pnext.
  split; [reflexivity|]. split; [reflexivity|].
  split; [|split; [|split]].
  - intros r Hlt. rewrite vertex3_stored, previous_of_first by assumption.
    now split.
  - intros r Hlt. rewrite vertex3_stored, next_of_last by (lia || assumption).
    now split.
  - intros j r Hj Hlt.
    rewrite vertex3_stored, previous_of_later by assumption. now split.
  - intros j r Hj Hlt.
    rewrite vertex3_stored, next_of_earlier by assumption. now split.
Qed.

(** A closed loop through (1/10, 0, 0): previous of point 0 and next of
    point 2 are that point; the attributes hold it with its first
    coordinate rounded to 13421773 / 2^27. *)
Lemma adjacency_of_points_witness :
  let pts := [xyz 0 0 0; Vector3.mk (Fin (1 # 10)) (ofZ 0) (ofZ 0);
              xyz 0 0 0] in
  let near := Vector3.mk (Fin (13421773 # 134217728)) (ofZ 0) (ofZ 0) in
  (2 <= length pts)%nat
  /\ reachable new_MeshLineGeometry
  /\ exists g' a,
       setPoints (Vector3Array pts) None new_MeshLineGeometry = Ok tt g'
       /\ priv_attributes g' = Some a
       /\ vertex3 (priv_previous g') 0
          = Some (Vector3.mk (Fin (1 # 10)) (ofZ 0) (ofZ 0))
       /\ vertex3 (array (previous a)) 0 = Some near
       /\ vertex3 (array (previous a)) 1 = Some near
       /\ vertex3 (array (next a)) 4 = Some near
       /\ vertex3 (array (next a)) 5 = Some near.
Proof.
  intros pts near.
  assert (H2 : (2 <= length pts)%nat) by (simpl; lia).
  split; [exact H2|]. split; [exact reachable_new|].
  destruct (adjacency_of_points AsVector3Array pts None new_MeshLineGeometry
              H2 reachable_new)
    as (g' & a & Hs & Ha & _ & _ & Hfirst & Hlast & _).
  exists g', a. split; [exact Hs|]. split; [exact Ha|].
  split; [exact (proj1 (Hfirst 0%nat ltac:(lia)))|].
  split; [exact (proj2 (Hfirst 0%nat ltac:(lia)))|].
  split; [exact (proj2 (Hfirst 1%nat ltac:(lia)))|].
  split; [exact (proj2 (Hlast 0%nat ltac:(lia)))|].
  exact (proj2 (Hlast 1%nat ltac:(lia))).
Defined.

(* ===================================================================== *)
(** ** A single point (claim C6) *)
(* ===================================================================== *)

(** C6 (the code departs from it): a single point is to give 2 vertices,
    no index, and previous = next = the point on both rails.  In the code
    a single point that equals itself under [===], which every point
    without a NaN coordinate does, makes [setPoints] throw
    "point missing": [#pointsAreEqual(0, 0)] holds, the closed-loop branch
    calls [#clonePoint(-1)], and [this.#positions[-6]] is [undefined].
    The arrays [#previous] and [#next] are left empty and the attribute
    objects are the ones the geometry had before the call. *)
Theorem single_point_throws (sh : Shape) (p : Vector3)
  (wcb : option (num -> num)) (g : MeshLineGeometry) :
  point_eq p p = true ->
  exists g',
    setPoints (encode sh [p]) wcb g = Throw "point missing" g'
    /\ priv_positions g' = rails p
    /\ priv_previous g' = []
    /\ priv_next g' = []
    /\ priv_attributes g' = priv_attributes g.
Proof.
  intros Heq. eexists. split; [now apply setPoints_single|].
  destruct g. repeat split; reflexivity.
Qed.

Lemma single_point_throws_witness :
  point_eq (xyz 1 2 3) (xyz 1 2 3) = true
  /\ exists g',
       setPoints (Float32Array [ofZ 1; ofZ 2; ofZ 3]) None
                 new_MeshLineGeometry = Throw "point missing" g'
       /\ priv_positions g' = rails (xyz 1 2 3)
       /\ priv_previous g' = []
       /\ priv_next g' = []
       /\ priv_attributes g' = None.
Proof.
  split; [reflexivity|].
  exact (single_point_throws AsFloat32Array (xyz 1 2 3) None
           new_MeshLineGeometry eq_refl).
Defined.

(* ===================================================================== *)
(** ** [advance] (claim C3) *)
(* ===================================================================== *)

(** C3: [advance(p)] throws "Call setPoints first." on a geometry on which
    no [setPoints] has gone through yet, and leaves it as it is.
    Otherwise: [previous] becomes the [position] array as it was on
    entry; [position] loses its first 6 scalars and gets [p] for both
    rails at its end; [next] is that new [position] array without its
    first 6 scalars, again closed by [p] twice; the [side], [width], [uv],
    [counters] and [index] attribute objects are the same as before,
    flags included, nothing else of the geometry changes (the stored
    points among it), and the [needsUpdate] flags of [position],
    [previous] and [next] are set. *)
Theorem advance_shifts (p : Vector3) (g : MeshLineGeometry) :
  (uninitialised g -> advance p g = Throw "Call setPoints first." g)
  /\ (forall a, reachable g -> priv_attributes g = Some a ->
        exists a',
          advance p g = Ok tt (set_attributes (Some a') g)
          /\ priv_points (set_attributes (Some a') g) = priv_points g
          /\ array (previous a') = array (position a)
          /\ array (position a')
             = drop 6 (array (position a)) ++ map toFloat32 (rails p)
          /\ array (next a')
             = drop 6 (array (position a')) ++ map toFloat32 (rails p)
          /\ side a' = side a /\ width a' = width a /\ uv a' = uv a
          /\ counters a' = counters a /\ index a' = index a
          /\ needsUpdate (position a') = true
          /\ needsUpdate (previous a') = true
          /\ needsUpdate (next a') = true
          /\ object_id (position a') = object_id (position a)
          /\ object_id (previous a') = object_id (previous a)
          /\ object_id (next a') = object_id (next a)).
Proof.
  split.
  - intros Hu. apply advance_uninitialised. now apply uninitialised_no_attributes.
  - intros a Hr Ha. exists (advanced p a). split.
    + apply advance_ok; [now apply reachable_wf | assumption].
    + destruct g, a. repeat split; reflexivity.
Qed.

(** On a new geometry [advance] throws; after [setPoints] on the three
    points of the example, [advance((7,8,9))] shifts them. *)
Lemma advance_shifts_witness :
  advance (xyz 7 8 9) new_MeshLineGeometry
  = Throw "Call setPoints first." new_MeshLineGeometry
  /\ exists a a',
       let g := state_of (setPoints (Vector3Array three_points) None
                                    new_MeshLineGeometry) in
       priv_attributes g = Some a
       /\ advance (xyz 7 8 9) g = Ok tt (set_attributes (Some a') g)
       /\ array (position a) = flat_map rails three_points
       /\ array (previous a') = flat_map rails three_points
       /\ array (position a')
          = flat_map rails [xyz 1 0 0; xyz 2 0 0; xyz 7 8 9]
       /\ array (next a')
          = flat_map rails [xyz 2 0 0; xyz 7 8 9; xyz 7 8 9].
Proof.
  split.
  - exact (proj1 (advance_shifts (xyz 7 8 9) new_MeshLineGeometry)
             uninitialised_new).
  - set (g := state_of (setPoints (Vector3Array three_points) None
                                  new_MeshLineGeometry)).
    assert (Hr : reachable g)
      by (apply reachable_setPoints, reachable_new).
    assert (Ha : priv_attributes g
                 = Some (attributes_after (Vector3Array three_points)
                           three_points None new_MeshLineGeometry))
      by reflexivity.
    destruct (proj2 (advance_shifts (xyz 7 8 9) g) _ Hr Ha)
      as (a' & Hadv & _ & Hprev & Hpos & Hnext & _).
    eexists _, a'. cbv zeta. fold g.
    split; [exact Ha|]. split; [exact Hadv|].
    split; [reflexivity|]. split; [exact Hprev|].
    split; [exact Hpos|].
    rewrite Hnext, Hpos. reflexivity.
Defined.

(* ===================================================================== *)
(** ** Rebuilding with the same vertex count (claim C5) *)
(* ===================================================================== *)

(** C5: when the [position] attribute of the geometry already has the
    vertex count 2N of the new points, [setPoints] creates no attribute
    object: the eight attribute objects keep their identity.  The private
    arrays hold what is tessellated from the new points ([#positions]
    the points on both rails, [#previous] and [#next] their neighbours,
    [#side] the alternating signs, [#width] the widths, [#uvs], the
    counters j/N and the two triangles of every segment), and the arrays
    of the eight objects hold just that: [position], [previous], [next],
    [side], [width], [uv] and [counters] the private arrays stored as
    binary32 values, [index] the indices stored as 16-bit unsigned
    integers.  ([counters] is not written by this path; it holds the right
    values because they depend on N alone.) *)
Theorem same_count_reuses_attributes (sh : Shape) (pts : list Vector3)
  (wcb : option (num -> num)) (g : MeshLineGeometry) (a : Attributes) :
  processable pts -> reachable g ->
  priv_attributes g = Some a ->
  count (position a) = Z.of_nat (2 * length pts) ->
  exists g' a',
    setPoints (encode sh pts) wcb g = Ok tt g'
    /\ priv_attributes g' = Some a'
    /\ allocated g' = allocated g
    /\ object_id (position a') = object_id (position a)
    /\ object_id (previous a') = object_id (previous a)
    /\ object_id (next a') = object_id (next a)
    /\ object_id (side a') = object_id (side a)
    /\ object_id (width a') = object_id (width a)
    /\ object_id (uv a') = object_id (uv a)
    /\ object_id (index a') = object_id (index a)
    /\ object_id (counters a') = object_id (counters a)
    /\ priv_positions g' = flat_map rails pts
    /\ priv_previous g' = previous_of pts
    /\ priv_next g' = next_of pts
    /\ priv_side g' = side_of (length pts)
    /\ priv_width g' = width_of (callback_in_force wcb g) (length pts)
    /\ priv_uvs g' = uvs_of (length pts)
    /\ priv_counters g' = counters_of (length pts)
    /\ priv_indices_array g' = indices_of (length pts)
    /\ array (position a') = map toFloat32 (priv_positions g')
    /\ array (previous a') = map toFloat32 (priv_previous g')
    /\ array (next a') = map toFloat32 (priv_next g')
    /\ array (side a') = map toFloat32 (priv_side g')
    /\ array (width a') = map toFloat32 (priv_width g')
    /\ array (uv a') = map toFloat32 (priv_uvs g')
    /\ array (counters a') = map toFloat32 (priv_counters g')
    /\ array (index a') = map toUint16 (priv_indices_array g').
Proof.
  intros Hp Hr Ha Hcount. pose proof (reachable_wf g Hr) as Hwf.
  assert (Hreuse : reuses (length pts) g = true).
  { unfold reuses. rewrite Ha, Hcount. apply Z.eqb_eq. lia. }
  exists (after_setPoints (encode sh pts) pts wcb g),
         (attributes_after (encode sh pts) pts wcb g).
  pose proof (attributes_after_arrays (encode sh pts) pts wcb g Hp Hwf)
    as (A1 & A2 & A3 & A4 & A5 & A6 & A7 & A8).
  pose proof (after_setPoints_arrays (encode sh pts) pts wcb g)
    as (B1 & B2 & B3 & B4 & B5 & B6 & B7 & B8 & _).
  cbv zeta in *.
  split; [now apply setPoints_ok|]. split; [reflexivity|].
  rewrite B1, B2, B3, B4, B5, B6, B7, B8.
  rewrite A1, A2, A3, A4, A5, A6, A7, A8.
  unfold after_setPoints, attributes_after. rewrite Hreuse, Ha.
  destruct g. repeat split; reflexivity.
Qed.

(** The three points of the example set twice: the second call keeps the
    eight attribute objects of the first. *)
Lemma same_count_reuses_attributes_witness :
  exists a g' a',
    let g := state_of (setPoints (Vector3Array three_points) None
                                 new_MeshLineGeometry) in
    processable [xyz 5 5 5; xyz 6 5 5; xyz 7 5 5]
    /\ reachable g
    /\ priv_attributes g = Some a
    /\ count (position a) = 6
    /\ setPoints (NumberArray (flat_map coordinates
                                 [xyz 5 5 5; xyz 6 5 5; xyz 7 5 5]))
                 None g = Ok tt g'
    /\ priv_attributes g' = Some a'
    /\ allocated g' = 8%nat
    /\ object_id (counters a') = object_id (counters a)
    /\ array (position a')
       = flat_map rails [xyz 5 5 5; xyz 6 5 5; xyz 7 5 5]
    /\ array (previous a')
       = flat_map rails [xyz 5 5 5; xyz 5 5 5; xyz 6 5 5]
    /\ array (next a')
       = flat_map rails [xyz 6 5 5; xyz 7 5 5; xyz 7 5 5].
Proof.
  set (g := state_of (setPoints (Vector3Array three_points) None
                                new_MeshLineGeometry)).
  assert (H2 : processable [xyz 5 5 5; xyz 6 5 5; xyz 7 5 5])
    by (split; simpl; [lia | intros; lia]).
  assert (Hr : reachable g) by (apply reachable_setPoints, reachable_new).
  assert (Ha : priv_attributes g
               = Some (attributes_after (Vector3Array three_points)
                         three_points None new_MeshLineGeometry))
    by reflexivity.
  assert (Hc : count (position (attributes_after (Vector3Array three_points)
                         three_points None new_MeshLineGeometry))
               = Z.of_nat (2 * length [xyz 5 5 5; xyz 6 5 5; xyz 7 5 5]))
    by reflexivity.
  destruct (same_count_reuses_attributes AsNumberArray
              [xyz 5 5 5; xyz 6 5 5; xyz 7 5 5] None g _ H2 Hr Ha Hc)
    as (g' & a' & Hs & Ha' & Hal & _ & _ & _ & _ & _ & _ & _ & Hid
        & Hpos & Hprev & Hnext & _ & _ & _ & _ & _
        & Hparr & Hvarr & Hnarr & _).
  eexists _, g', a'. cbv zeta. fold g.
  split; [exact H2|]. split; [exact Hr|]. split; [exact Ha|].
  split; [reflexivity|]. split; [exact Hs|]. split; [exact Ha'|].
  split; [rewrite Hal; reflexivity|]. split; [exact Hid|].
  rewrite Hparr, Hpos, Hvarr, Hprev, Hnarr, Hnext.
  repeat split; reflexivity.
Defined.

(* ===================================================================== *)
(** ** Counters (claim C7) *)
(* ===================================================================== *)

Lemma inject_Z_pos (n : Z) : 0 < n -> (0 < inject_Z n)%Q.
Proof. intros H. change 0%Q with (inject_Z 0). now rewrite <- Zlt_Qlt. Qed.

(** [j / N] lies in [0, 1) for [0 <= j < N]. *)
Lemma ndiv_unit_interval (j N : Z) :
  0 <= j < N ->
  nle (ofZ 0) (ndiv (ofZ j) (ofZ N)) = true
  /\ nlt (ndiv (ofZ j) (ofZ N)) (ofZ 1) = true.
Proof.
  intros Hj. rewrite ndiv_ofZ by lia. unfold nle, nlt, ngt, ofZ.
  pose proof (inject_Z_pos N ltac:(lia)) as HN.
  split.
  - apply Qle_bool_iff. rewrite Qred_correct.
    apply Qle_shift_div_l; [assumption|].
    rewrite Qmult_0_l. change 0%Q with (inject_Z 0).
    rewrite <- Zle_Qle. lia.
  - apply negb_true_iff. apply not_true_is_false. intros H.
    apply Qle_bool_iff in H. rewrite Qred_correct in H.
    assert (Hlt : (inject_Z j / inject_Z N < 1)%Q).
    { apply Qlt_shift_div_r; [assumption|].
      rewrite Qmult_1_l, <- Zlt_Qlt. lia. }
    exact (Qlt_not_le _ _ Hlt H).
Qed.

Lemma counters_of_lookup (N j r : nat) :
  (j < N)%nat -> (r < 2)%nat ->
  counters_of N !! (2 * j + r)%nat
  = Some (ndiv (ofZ (Z.of_nat j)) (ofZ (Z.of_nat N))).
Proof.
  intros Hj Hr. unfold counters_of.
  replace (2 * j + r)%nat with (j * 2 + r)%nat by lia.
  rewrite (per_point_lookup _ 2) by (reflexivity || lia).
  destruct r as [|[|r]]; [reflexivity | reflexivity | lia].
Qed.

Lemma uvs_of_lookup (N j : nat) :
  (j < N)%nat ->
  uvs_of N !! (4 * j)%nat = Some (along N (Z.of_nat j))
  /\ uvs_of N !! (4 * j + 1)%nat = Some (ofZ 0)
  /\ uvs_of N !! (4 * j + 2)%nat = Some (along N (Z.of_nat j))
  /\ uvs_of N !! (4 * j + 3)%nat = Some (ofZ 1).
Proof.
  intros Hj. unfold uvs_of.
  replace (4 * j)%nat with (j * 4 + 0)%nat by lia.
  replace (j * 4 + 0 + 1)%nat with (j * 4 + 1)%nat by lia.
  replace (j * 4 + 0 + 2)%nat with (j * 4 + 2)%nat by lia.
  replace (j * 4 + 0 + 3)%nat with (j * 4 + 3)%nat by lia.
  rewrite !(per_point_lookup _ 4) by (reflexivity || lia).
  repeat split; reflexivity.
Qed.

(** The claim as stated fails for two points: the counters are
    0, 0, 1/2, 1/2 while the uv u-coordinates are 0, 0, 1, 1; the counter
    of the last point is 1/2, not 1. *)
Lemma counters_do_not_reach_one :
  exists g' a,
    setPoints (Vector3Array [xyz 0 0 0; xyz 1 0 0]) None new_MeshLineGeometry
    = Ok tt g'
    /\ priv_attributes g' = Some a
    /\ array (counters a) = [Fin 0; Fin 0; Fin (1 # 2); Fin (1 # 2)]
    /\ array (uv a)
       = [Fin 0; Fin 0; Fin 0; Fin 1; Fin 1; Fin 0; Fin 1; Fin 1]
    /\ array (counters a) !! 2%nat <> array (uv a) !! 4%nat
    /\ array (counters a) !! 3%nat <> Some (Fin 1).
Proof.
  eexists _, _. split.
  - apply (setPoints_ok AsVector3Array [xyz 0 0 0; xyz 1 0 0]);
      [split; simpl; [lia | intros; lia] | exact I].
  - repeat split; try reflexivity; discriminate.
Qed.

(** The counters computed by [setPoints], whether or not [#process] then
    goes through. *)
Lemma setPoints_counters (sh : Shape) (pts : list Vector3)
  (wcb : option (num -> num)) (g : MeshLineGeometry) :
  (1 <= length pts)%nat -> wf g ->
  priv_counters (state_of (setPoints (encode sh pts) wcb g))
  = counters_of (length pts).
Proof.
  intros HN Hwf.
  destruct (processable_cases pts) as [-> | [(p & -> & Heq) | Hp]].
  - simpl in HN. lia.
  - rewrite setPoints_single by assumption. now destruct g.
  - rewrite setPoints_ok by assumption. cbn [state_of].
    apply after_setPoints_arrays.
Qed.

(** C7, amended: for every input of N >= 1 points the counter computed
    for point j, on both rails, is j / N, with N the number of points: 0
    for the first point, (N-1)/N for the last, always in [0, 1) and never
    1.  Whenever [setPoints] runs to its end, which it does for every
    input of two points or more, the [counters] attribute holds these
    values stored as binary32 numbers, and the uv u-coordinate of point
    j, not its counter, is j / (N-1), stored likewise. *)
Theorem counters_are_j_over_N (sh : Shape) (pts : list Vector3)
  (wcb : option (num -> num)) (g : MeshLineGeometry) :
  (1 <= length pts)%nat -> reachable g ->
  let g' := state_of (setPoints (encode sh pts) wcb g) in
  (forall j r, (j < length pts)%nat -> (r < 2)%nat ->
     let c := ndiv (ofZ (Z.of_nat j)) (ofZ (Z.of_nat (length pts))) in
     priv_counters g' !! (2 * j + r)%nat = Some c
     /\ nle (ofZ 0) c = true /\ nlt c (ofZ 1) = true)
  /\ priv_counters g' !! 0%nat = Some (ofZ 0)
  /\ (processable pts ->
      exists a,
        setPoints (encode sh pts) wcb g = Ok tt g'
        /\ priv_attributes g' = Some a
        /\ array (counters a) = map toFloat32 (priv_counters g')
        /\ forall j, (j < length pts)%nat ->
             let u := ndiv (ofZ (Z.of_nat j))
                           (ofZ (Z.of_nat (length pts) - 1)) in
             priv_uvs g' !! (4 * j)%nat = Some u
             /\ priv_uvs g' !! (4 * j + 2)%nat = Some u
             /\ array (uv a) !! (4 * j)%nat = Some (toFloat32 u)
             /\ array (uv a) !! (4 * j + 2)%nat = Some (toFloat32 u)).
Proof.
  intros HN Hr g'. pose proof (reachable_wf g Hr) as Hwf.
  assert (Hc : priv_counters g' = counters_of (length pts))
    by now apply setPoints_counters.
  rewrite Hc. split; [|split].
  - intros j r Hj Hlt c. split; [now apply counters_of_lookup|].
    apply ndiv_unit_interval. lia.
  - change 0%nat with (2 * 0 + 0)%nat at 1.
    rewrite (counters_of_lookup (length pts) 0 0) by lia.
    f_equal. apply ndiv_zero. lia.
  - intros Hp.
    pose proof (attributes_after_arrays (encode sh pts) pts wcb g Hp Hwf)
      as (_ & _ & _ & _ & _ & Huv & _ & Hca).
    cbv zeta in Huv, Hca.
    exists (attributes_after (encode sh pts) pts wcb g).
    subst g'. rewrite (setPoints_ok sh pts wcb g Hp Hwf). cbn [state_of].
    pose proof (after_setPoints_arrays (encode sh pts) pts wcb g)
      as (_ & _ & _ & _ & _ & _ & Puv & _).
    cbv zeta in Puv.
    split; [reflexivity|]. split; [apply after_setPoints_attributes|].
    split; [exact Hca|].
    intros j Hj. rewrite Huv, Puv, !list_lookup_fmap.
    destruct (uvs_of_lookup (length pts) j Hj) as (U0 & _ & U2 & _).
    rewrite U0, U2. repeat split; reflexivity.
Qed.

Lemma counters_are_j_over_N_witness :
  (1 <= length three_points)%nat
  /\ reachable new_MeshLineGeometry
  /\ exists g' a,
       setPoints (Vector3Array three_points) None new_MeshLineGeometry
       = Ok tt g'
       /\ priv_attributes g' = Some a
       /\ priv_counters g' !! 4%nat = Some (Fin (2 # 3))
       /\ priv_counters g' !! 5%nat = Some (Fin (2 # 3))
       /\ array (counters a) !! 4%nat = Some (Fin (11184811 # 16777216))
       /\ array (uv a) !! 8%nat = Some (Fin 1).
Proof.
  assert (HN : (1 <= length three_points)%nat) by (simpl; lia).
  assert (Hp : processable three_points)
    by (split; simpl; [lia | intros; lia]).
  split; [exact HN|]. split; [exact reachable_new|].
  destruct (counters_are_j_over_N AsVector3Array three_points None
              new_MeshLineGeometry HN reachable_new)
    as (Hc & _ & Hattr).
  destruct (Hattr Hp) as (a & Hs & Ha & Hca & Hu).
  eexists _, a. split; [exact Hs|]. split; [exact Ha|].
  pose proof (proj1 (Hc 2%nat 0%nat ltac:(simpl; lia) ltac:(lia))) as H4.
  pose proof (proj1 (Hc 2%nat 1%nat ltac:(simpl; lia) ltac:(lia))) as H5.
  split; [exact H4|]. split; [exact H5|].
  split; [rewrite Hca, list_lookup_fmap;
          exact (f_equal (fmap toFloat32) H4)|].
  destruct (Hu 2%nat ltac:(simpl; lia)) as (_ & _ & U & _). exact U.
Defined.

(* ===================================================================== *)
(** ** The 16-bit index buffer (claim C8) *)
(* ===================================================================== *)

Lemma indices_of_lookup (N j c : nat) :
  (j < N - 1)%nat -> (c < 6)%nat ->
  indices_of N !! (6 * j + c)%nat = quad (Z.of_nat j) !! c.
Proof.
  intros Hj Hc. unfold indices_of.
  replace (6 * j + c)%nat with (j * 6 + c)%nat by lia.
  now rewrite (per_point_lookup quad 6) by (reflexivity || lia).
Qed.

(** Every index is a vertex number, below 2N. *)
Lemma indices_of_range (N : nat) (v : Z) :
  In v (indices_of N) -> 0 <= v < 2 * Z.of_nat N.
Proof.
  unfold indices_of, per_point. rewrite in_flat_map.
  intros (j & Hj & Hv). apply in_seq in Hj. unfold quad in Hv. simpl in Hv.
  intuition lia.
Qed.

Lemma toUint16_small (v : Z) : 0 <= v < 65536 -> toUint16 v = v.
Proof. intros H. unfold toUint16. now apply Z.mod_small. Qed.

Lemma indices_of_at (N : nat) (j c : Z) :
  0 <= j < Z.of_nat N - 1 -> 0 <= c < 6 ->
  at_index (indices_of N) (6 * j + c) = at_index (quad j) c.
Proof.
  intros Hj Hc. unfold at_index.
  destruct (Z.ltb_spec (6 * j + c) 0); [lia|].
  destruct (Z.ltb_spec c 0); [lia|].
  replace (Z.to_nat (6 * j + c)) with (6 * Z.to_nat j + Z.to_nat c)%nat by lia.
  rewrite indices_of_lookup by lia. now rewrite Z2Nat.id by lia.
Qed.

Lemma at_index_map {A B} (f : A -> B) (l : list A) (i : Z) :
  at_index (map f l) i = option_map f (at_index l i).
Proof.
  unfold at_index. destruct (i <? 0); [reflexivity|].
  apply list_lookup_fmap.
Qed.

(** With 32769 points or more, [setPoints] returns normally and the
    index 65536 of segment 32767 is stored as 0. *)
Lemma index_wraps (sh : Shape) (pts : list Vector3)
  (wcb : option (num -> num)) (g : MeshLineGeometry) :
  32769 <= Z.of_nat (length pts) -> reachable g ->
  exists g' a,
    setPoints (encode sh pts) wcb g = Ok tt g'
    /\ priv_attributes g' = Some a
    /\ at_index (priv_indices_array g') (6 * 32767 + 2) = Some 65536
    /\ at_index (array (index a)) (6 * 32767 + 2) = Some 0.
Proof.
  intros HN Hr. pose proof (reachable_wf g Hr) as Hwf.
  assert (Hp : processable pts) by (split; [lia | intros; lia]).
  exists (after_setPoints (encode sh pts) pts wcb g),
         (attributes_after (encode sh pts) pts wcb g).
  pose proof (attributes_after_arrays (encode sh pts) pts wcb g Hp Hwf)
    as (_ & _ & _ & _ & _ & _ & Hi & _).
  pose proof (after_setPoints_arrays (encode sh pts) pts wcb g)
    as (_ & _ & _ & _ & _ & Hj & _).
  cbv zeta in Hi, Hj.
  split; [now apply setPoints_ok|].
  split; [apply after_setPoints_attributes|].
  assert (Hq : at_index (indices_of (length pts)) (6 * 32767 + 2)
               = Some 65536).
  { rewrite indices_of_at by lia. reflexivity. }
  rewrite Hi, Hj. split; [exact Hq|].
  rewrite at_index_map, Hq. reflexivity.
Qed.

Lemma long_line_length : Z.of_nat (length long_line) = 32769.
Proof.
  unfold long_line. rewrite repeat_length. now rewrite Z2Nat.id.
Qed.

(** The claim as stated fails for 32769 points: [setPoints] returns
    normally, no error is raised, and the index 65536 of the last segment
    is stored as 0. *)
Lemma index_overflow_wraps_silently :
  exists g' a,
    setPoints (Vector3Array long_line) None new_MeshLineGeometry = Ok tt g'
    /\ priv_attributes g' = Some a
    /\ at_index (priv_indices_array g') (6 * 32767 + 2) = Some 65536
    /\ at_index (array (index a)) (6 * 32767 + 2) = Some 0.
Proof.
  apply (index_wraps AsVector3Array long_line None new_MeshLineGeometry).
  - rewrite long_line_length. lia.
  - exact reachable_new.
Qed.

(** C8, amended: [setPoints] raises no error for any point count; every
    index reaches the 16-bit index buffer reduced modulo 65536, so the
    buffer holds the indices themselves exactly when all vertex numbers
    are at most 65535, which is the case up to 32768 points. *)
Theorem indices_are_stored_modulo_65536 (sh : Shape) (pts : list Vector3)
  (wcb : option (num -> num)) (g : MeshLineGeometry) :
  processable pts -> reachable g ->
  exists g' a,
    setPoints (encode sh pts) wcb g = Ok tt g'
    /\ priv_attributes g' = Some a
    /\ (forall k v, at_index (priv_indices_array g') k = Some v ->
          at_index (array (index a)) k = Some (v mod 65536))
    /\ length (array (index a)) = length (priv_indices_array g')
    /\ (Z.of_nat (length pts) <= 32768 ->
          array (index a) = priv_indices_array g').
Proof.
  intros Hp Hr. pose proof (reachable_wf g Hr) as Hwf.
  exists (after_setPoints (encode sh pts) pts wcb g),
         (attributes_after (encode sh pts) pts wcb g).
  pose proof (attributes_after_arrays (encode sh pts) pts wcb g Hp Hwf)
    as (_ & _ & _ & _ & _ & _ & Hi & _).
  pose proof (after_setPoints_arrays (encode sh pts) pts wcb g)
    as (_ & _ & _ & _ & _ & Hj & _).
  cbv zeta in Hi, Hj.
  split; [now apply setPoints_ok|].
  split; [apply after_setPoints_attributes|].
  rewrite Hi, Hj. repeat split.
  - intros k v Hk. rewrite at_index_map, Hk. reflexivity.
  - apply length_map.
  - intros Hsmall. rewrite <- (map_id (indices_of (length pts))) at 2.
    apply map_ext_in. intros v Hv. apply toUint16_small.
    apply indices_of_range in Hv. lia.
Qed.

Lemma indices_are_stored_modulo_65536_witness :
  processable three_points
  /\ reachable new_MeshLineGeometry
  /\ exists g' a,
       setPoints (Float32Array (flat_map coordinates three_points)) None
                 new_MeshLineGeometry = Ok tt g'
       /\ priv_attributes g' = Some a
       /\ array (index a) = priv_indices_array g'.
Proof.
  assert (Hp : processable three_points)
    by (split; simpl; [lia | intros; lia]).
  split; [exact Hp|]. split; [exact reachable_new|].
  destruct (indices_are_stored_modulo_65536 AsFloat32Array three_points None
              new_MeshLineGeometry Hp reachable_new)
    as (g' & a & Hs & Ha & _ & _ & Hsmall).
  exists g', a. split; [exact Hs|]. split; [exact Ha|].
  apply Hsmall. simpl. lia.
Defined.

(* ===================================================================== *)
(** ** The width callback (claim C9) *)
(* ===================================================================== *)

Lemma per_point_singleton {A} (f : Z -> A) (N : nat) :
  per_point (fun j => [f j]) N = map (fun j => f (Z.of_nat j)) (seq 0 N).
Proof.
  unfold per_point. induction (seq 0 N) as [|j l IH]; [reflexivity|].
  simpl. now rewrite IH.
Qed.

Lemma width_of_lookup (wcb : option (num -> num)) (N j r : nat) :
  (j < N)%nat -> (r < 2)%nat ->
  width_of wcb N !! (2 * j + r)%nat = Some (width_at wcb N (Z.of_nat j)).
Proof.
  intros Hj Hr. unfold width_of.
  replace (2 * j + r)%nat with (j * 2 + r)%nat by lia.
  rewrite (per_point_lookup _ 2) by (reflexivity || lia).
  destruct r as [|[|r]]; [reflexivity | reflexivity | lia].
Qed.

(** The claim as stated fails for a single point: for the point (1,2,3)
    [setPoints] throws before the width function is ever called; for a
    point with a NaN coordinate, which gets through, the function is
    called with 0 / 0 = NaN and not with 0. *)
Lemma single_point_width_argument_is_not_zero :
  (exists g',
     setPoints (Vector3Array [xyz 1 2 3]) (Some (fun t => t))
               new_MeshLineGeometry = Throw "point missing" g'
     /\ callback_log g' = [])
  /\ (exists g',
        setPoints (Vector3Array [Vector3.mk NaN (ofZ 0) (ofZ 0)])
                  (Some (fun t => t)) new_MeshLineGeometry = Ok tt g'
        /\ callback_log g' = [NaN]
        /\ priv_width g' = [NaN; NaN]).
Proof.
  split.
  - eexists. split.
    + now apply (setPoints_single AsVector3Array (xyz 1 2 3)).
    + reflexivity.
  - eexists. split.
    + apply (setPoints_ok AsVector3Array [Vector3.mk NaN (ofZ 0) (ofZ 0)]);
        [split; simpl; [lia | intros; reflexivity] | exact I].
    + split; reflexivity.
Qed.

(** C9, amended: with no width function in force, every width value a
    call of [setPoints] on a non-empty input emits is 1, the function
    log is left alone, and when the input is processed these are the 2N
    values of [#width] and of the [width] attribute.  With a width
    function [f] in force and N >= 2 points, [f] is called exactly N
    times by the call of [setPoints], once per point and in point order,
    the call for point j getting j / (N-1) (0 for j = 0 and 1 for
    j = N-1); [f (j / (N-1))] is the width of both rail vertices of point
    j in [#width], and the [width] attribute holds it stored as a
    binary32 number.  Nothing is said about N = 1 with a function, where
    the code has no special denominator. *)
Theorem width_callback_per_point (sh : Shape) (pts : list Vector3)
  (wcb : option (num -> num)) (g : MeshLineGeometry) :
  (1 <= length pts)%nat -> reachable g ->
  let g' := state_of (setPoints (encode sh pts) wcb g) in
  (callback_in_force wcb g = None ->
     callback_log g' = callback_log g
     /\ (forall k v, priv_width g' !! k = Some v -> v = ofZ 1)
     /\ (processable pts ->
         exists a,
           setPoints (encode sh pts) wcb g = Ok tt g'
           /\ priv_attributes g' = Some a
           /\ forall k, (k < 2 * length pts)%nat ->
                priv_width g' !! k = Some (ofZ 1)
                /\ array (width a) !! k = Some (ofZ 1)))
  /\ (forall f, callback_in_force wcb g = Some f ->
        (2 <= length pts)%nat ->
        exists a,
          setPoints (encode sh pts) wcb g = Ok tt g'
          /\ priv_attributes g' = Some a
          /\ callback_log g'
             = callback_log g
               ++ map (fun j => ndiv (ofZ (Z.of_nat j))
                                     (ofZ (Z.of_nat (length pts) - 1)))
                      (seq 0 (length pts))
          /\ (forall j r, (j < length pts)%nat -> (r < 2)%nat ->
                let w := f (ndiv (ofZ (Z.of_nat j))
                                 (ofZ (Z.of_nat (length pts) - 1))) in
                priv_width g' !! (2 * j + r)%nat = Some w
                /\ array (width a) !! (2 * j + r)%nat
                   = Some (toFloat32 w))
          /\ ndiv (ofZ 0) (ofZ (Z.of_nat (length pts) - 1)) = ofZ 0
          /\ ndiv (ofZ (Z.of_nat (length pts) - 1))
                  (ofZ (Z.of_nat (length pts) - 1)) = ofZ 1).
Proof.
  intros HN Hr g'. pose proof (reachable_wf g Hr) as Hwf.
  assert (Hdone : processable pts ->
            setPoints (encode sh pts) wcb g = Ok tt g'
            /\ priv_attributes g'
               = Some (attributes_after (encode sh pts) pts wcb g)
            /\ priv_width g'
               = width_of (callback_in_force wcb g) (length pts)
            /\ array (width (attributes_after (encode sh pts) pts wcb g))
               = map toFloat32 (priv_width g')
            /\ callback_log g'
               = callback_log g
                 ++ calls_of (callback_in_force wcb g) (length pts)).
  { intros Hp. subst g'.
    rewrite (setPoints_ok sh pts wcb g Hp Hwf). cbn [state_of].
    pose proof (attributes_after_arrays (encode sh pts) pts wcb g Hp Hwf)
      as (_ & _ & _ & _ & Hw & _).
    pose proof (after_setPoints_arrays (encode sh pts) pts wcb g)
      as (_ & _ & _ & _ & Pw & _ & _ & _ & _ & _ & Hlog).
    cbv zeta in Hw, Pw, Hlog. rewrite Pw, Hw, Hlog.
    repeat split; reflexivity. }
  assert (Hones : forall k, (k < 2 * length pts)%nat ->
            width_of None (length pts) !! k = Some (ofZ 1)).
  { intros k Hk.
    replace k with (2 * (k / 2) + k mod 2)%nat
      by (pose proof (Nat.div_mod_eq k 2); lia).
    apply width_of_lookup.
    - apply Nat.Div0.div_lt_upper_bound. lia.
    - apply Nat.mod_upper_bound. lia. }
  split.
  - intros Hnone.
    destruct (processable_cases pts) as [-> | [(p & -> & Heq) | Hp]].
    + simpl in HN. lia.
    + subst g'. rewrite (setPoints_single sh p wcb g Heq). cbn [state_of].
      split; [now destruct g|]. split.
      * intros k v Hk. destruct g; cbn in Hk.
        rewrite lookup_nil in Hk. discriminate.
      * intros (_ & Hne). specialize (Hne eq_refl).
        change (nth_point [p] 0) with p in Hne. congruence.
    + destruct (Hdone Hp) as (Hs & Ha & Pw & Hw & Hlog).
      rewrite Hnone in Pw, Hlog.
      split; [rewrite Hlog; apply app_nil_r|]. split.
      * intros k v Hk. rewrite Pw in Hk.
        pose proof (lookup_lt_Some _ _ _ Hk) as Hlt.
        rewrite width_of_length in Hlt.
        rewrite Hones in Hk by lia. congruence.
      * intros _. exists (attributes_after (encode sh pts) pts wcb g).
        split; [exact Hs|]. split; [exact Ha|].
        intros k Hk. rewrite Hw, list_lookup_fmap, Pw, (Hones k Hk).
        split; reflexivity.
  - intros f Hf H2.
    assert (Hp : processable pts) by (split; [lia | intros; lia]).
    destruct (Hdone Hp) as (Hs & Ha & Pw & Hw & Hlog).
    rewrite Hf in Pw, Hlog.
    exists (attributes_after (encode sh pts) pts wcb g).
    split; [exact Hs|]. split; [exact Ha|]. split.
    { rewrite Hlog. unfold calls_of. now rewrite per_point_singleton. }
    split.
    { intros j r Hj Hlt w. rewrite Hw, list_lookup_fmap, Pw.
      rewrite (width_of_lookup (Some f) (length pts) j r Hj Hlt).
      split; reflexivity. }
    split; [apply ndiv_zero; lia | apply ndiv_self; lia].
Qed.

(** Three points with the width function t |-> t / 5: the widths of the
    second point are 1/10 in [#width] and 13421773 / 2^27 in the [width]
    attribute. *)
Lemma width_callback_per_point_witness :
  (1 <= length three_points)%nat
  /\ reachable new_MeshLineGeometry
  /\ exists g' a,
       setPoints (Vector3Array three_points)
                 (Some (fun t => ndiv t (ofZ 5)))
                 new_MeshLineGeometry = Ok tt g'
       /\ priv_attributes g' = Some a
       /\ callback_log g' = [Fin 0; Fin (1 # 2); Fin 1]
       /\ priv_width g' !! 2%nat = Some (Fin (1 # 10))
       /\ array (width a) !! 2%nat = Some (Fin (13421773 # 134217728))
       /\ array (width a) !! 3%nat = Some (Fin (13421773 # 134217728)).
Proof.
  assert (H1 : (1 <= length three_points)%nat) by (simpl; lia).
  split; [exact H1|]. split; [exact reachable_new|].
  destruct (width_callback_per_point AsVector3Array three_points
              (Some (fun t => ndiv t (ofZ 5))) new_MeshLineGeometry H1
              reachable_new) as (_ & Hf).
  destruct (Hf _ eq_refl ltac:(simpl; lia))
    as (a & Hs & Ha & Hlog & Hwidth & _).
  eexists _, a. split; [exact Hs|]. split; [exact Ha|].
  split; [exact Hlog|].
  split; [exact (proj1 (Hwidth 1%nat 0%nat ltac:(simpl; lia) ltac:(lia)))|].
  split; [exact (proj2 (Hwidth 1%nat 0%nat ltac:(simpl; lia) ltac:(lia)))
         | exact (proj2 (Hwidth 1%nat 1%nat ltac:(simpl; lia) ltac:(lia)))].
Defined.

(* ===================================================================== *)
(** ** Point structs and flat arrays (claim C10) *)
(* ===================================================================== *)

Lemma after_setPoints_forget (P1 P2 : Points) (pts : list Vector3)
  (wcb : option (num -> num)) (g : MeshLineGeometry) :
  set_points OtherValue (after_setPoints P1 pts wcb g)
  = set_points OtherValue (after_setPoints P2 pts wcb g).
Proof.
  unfold after_setPoints, attributes_after.
  destruct (reuses (length pts) g), g as [? ? ? ? ? ? ? ? ? [a|] ? ? ? ? ?];
    reflexivity.
Qed.

Lemma emptied_loaded_forget (P1 P2 : Points) (pts : list Vector3)
  (wcb : option (num -> num)) (g : MeshLineGeometry) :
  set_points OtherValue (emptied (loaded P1 pts wcb g))
  = set_points OtherValue (emptied (loaded P2 pts wcb g)).
Proof. now destruct g. Qed.

(** C10: the same points handed over as an array of [Vector3], as a plain
    array of their 3N coordinates or as a [Float32Array] of them give the
    same outcome of [setPoints] (return, or the same error) and the same
    geometry but for the stored [points] reference: every private array
    and every attribute array is the same, element for element; the
    counter of point k is k / N in the struct loop and 3k / 3N in the
    flat loop, the same number. *)
Theorem shapes_agree (sh1 sh2 : Shape) (pts : list Vector3)
  (wcb : option (num -> num)) (g : MeshLineGeometry) :
  reachable g ->
  forget_points (setPoints (encode sh1 pts) wcb g)
  = forget_points (setPoints (encode sh2 pts) wcb g)
  /\ (forall j, (j < length pts)%nat ->
        ndiv (ofZ (3 * Z.of_nat j)) (ofZ (3 * Z.of_nat (length pts)))
        = ndiv (ofZ (Z.of_nat j)) (ofZ (Z.of_nat (length pts)))).
Proof.
  intros Hr. pose proof (reachable_wf g Hr) as Hwf. split.
  - destruct (processable_cases pts) as [-> | [(p & -> & Heq) | Hp]].
    + now rewrite !setPoints_none.
    + rewrite !setPoints_single by assumption. cbn [forget_points].
      apply f_equal, emptied_loaded_forget.
    + rewrite !setPoints_ok by assumption. cbn [forget_points].
      apply f_equal, after_setPoints_forget.
  - intros j Hj. apply ndiv_scale. lia.
Qed.

(** What [forget_points] keeps: everything but the [points] reference. *)
Lemma forget_points_keeps (r1 r2 : Result MeshLineGeometry unit) :
  forget_points r1 = forget_points r2 ->
  let g1 := state_of r1 in
  let g2 := state_of r2 in
  priv_positions g1 = priv_positions g2
  /\ priv_counters g1 = priv_counters g2
  /\ priv_previous g1 = priv_previous g2
  /\ priv_next g1 = priv_next g2
  /\ priv_side g1 = priv_side g2
  /\ priv_width g1 = priv_width g2
  /\ priv_uvs g1 = priv_uvs g2
  /\ priv_indices_array g1 = priv_indices_array g2
  /\ priv_attributes g1 = priv_attributes g2.
Proof.
  destruct r1 as [[] g1|m1 g1], r2 as [[] g2|m2 g2]; simpl;
    intros H; try discriminate; destruct g1, g2; simpl in *;
    inversion H; subst; repeat split; reflexivity.
Qed.

Lemma shapes_agree_witness :
  reachable new_MeshLineGeometry
  /\ exists g1 g2 a,
       setPoints (Vector3Array three_points) None new_MeshLineGeometry
       = Ok tt g1
       /\ setPoints (NumberArray (map ofZ [0; 0; 0; 1; 0; 0; 2; 0; 0])) None
                    new_MeshLineGeometry = Ok tt g2
       /\ priv_attributes g1 = Some a
       /\ priv_attributes g2 = Some a
       /\ priv_counters g1 = priv_counters g2.
Proof.
  split; [exact reachable_new|].
  assert (Hp : processable three_points)
    by (split; simpl; [lia | intros; lia]).
  pose proof (setPoints_ok AsVector3Array three_points None
                new_MeshLineGeometry Hp I) as H1.
  pose proof (setPoints_ok AsNumberArray three_points None
                new_MeshLineGeometry Hp I) as H2.
  pose proof (proj1 (shapes_agree AsVector3Array AsNumberArray three_points
                       None new_MeshLineGeometry reachable_new)) as H.
  apply forget_points_keeps in H. cbv zeta in H.
  rewrite H1, H2 in H. cbn [state_of] in H.
  destruct H as (_ & Hc & _ & _ & _ & _ & _ & _ & Ha).
  eexists _, _, _.
  split; [exact H1|]. split; [exact H2|].
  split; [apply after_setPoints_attributes|].
  split; [rewrite <- Ha; apply after_setPoints_attributes | exact Hc].
Defined.

(* ===================================================================== *)
(** ** Picking (claim C4) *)
(* ===================================================================== *)


Section Picking.
Context `{Three}.
Variable mesh : Mesh.
Variable raycaster : Raycaster.

(** The step of the loop is the one the specification words: 2 for a
    [LineSegments] mesh, else 1. *)
Lemma raycast_step_as_specified :
  raycast_step mesh = pick_step (isLineSegments mesh).
Proof. unfold raycast_step, pick_step. now destruct (isLineSegments mesh). Qed.

Lemma raycast_step_pos : 1 <= raycast_step mesh.
Proof. unfold raycast_step. destruct (isLineSegments mesh); lia. Qed.

Lemma scanned_S (i : Z) (n : nat) :
  scanned mesh i (S n) = i :: scanned mesh (i + raycast_step mesh) n.
Proof.
  rewrite raycast_step_as_specified.
  unfold scanned. simpl. f_equal; [lia|].
  rewrite <- seq_shift, map_map. apply map_ext. intros k. lia.
Qed.

Lemma trips_next (l i : Z) :
  i < l ->
  trips (l - i) (raycast_step mesh)
  = S (trips (l - (i + raycast_step mesh)) (raycast_step mesh)).
Proof.
  intros Hi. pose proof raycast_step_pos as Hs. unfold trips.
  replace (l - i + raycast_step mesh - 1)
    with (l - (i + raycast_step mesh) + raycast_step mesh - 1
          + 1 * raycast_step mesh) by lia.
  rewrite Z.div_add by lia.
  assert (0 <= (l - (i + raycast_step mesh) + raycast_step mesh - 1)
               / raycast_step mesh) by (apply Z.div_pos; lia).
  lia.
Qed.

Lemma trips_done (l i : Z) :
  l <= i -> trips (l - i) (raycast_step mesh) = 0%nat.
Proof.
  intros Hi. pose proof raycast_step_pos as Hs. unfold trips.
  assert ((l - i + raycast_step mesh - 1) / raycast_step mesh <= 0).
  { apply Z.lt_succ_r. apply Z.div_lt_upper_bound; lia. }
  lia.
Qed.




End Picking.



(* ===================================================================== *)
(** ** Further properties of [setPoints] *)
(* ===================================================================== *)

(** X1: [#positions] holds every point on both of its rail vertices, and
    the [position] attribute holds it there with its coordinates stored
    as binary32 numbers. *)
Theorem position_holds_points (sh : Shape) (pts : list Vector3)
  (wcb : option (num -> num)) (g : MeshLineGeometry) :
  processable pts -> reachable g ->
  exists g' a,
    setPoints (encode sh pts) wcb g = Ok tt g'
    /\ priv_attributes g' = Some a
    /\ (forall j r, (j < length pts)%nat -> (r < 2)%nat ->
          vertex3 (priv_positions g') (2 * j + r) = pts !! j
          /\ vertex3 (array (position a)) (2 * j + r) = stored <$> pts !! j)
    /\ (forall v, (2 * length pts <= v)%nat ->
          vertex3 (array (position a)) v = None).
Proof.
  intros Hp Hr. pose proof (reachable_wf g Hr) as Hwf.
  exists (after_setPoints (encode sh pts) pts wcb g),
         (attributes_after (encode sh pts) pts wcb g).
  pose proof (attributes_after_arrays (encode sh pts) pts wcb g Hp Hwf)
    as (Hpos & _).
  pose proof (after_setPoints_arrays (encode sh pts) pts wcb g)
    as (Ppos & _).
  cbv zeta in Hpos, Ppos.
  split; [now apply setPoints_ok|].
  split; [apply after_setPoints_attributes|].
  rewrite Hpos, Ppos. split.
  - intros j r _ Hlt. rewrite vertex3_stored, vertex3_rails by assumption.
    now split.
  - intros v Hv. unfold vertex3.
    rewrite (proj2 (lookup_ge_None (map toFloat32 (flat_map rails pts))
                      (3 * v)));
      [reflexivity | rewrite length_map, rails_length; lia].
Qed.

Lemma position_holds_points_witness :
  let pts := [xyz 0 0 0; Vector3.mk (Fin (1 # 10)) (ofZ 0) (ofZ 0);
              xyz 2 0 0] in
  processable pts
  /\ reachable new_MeshLineGeometry
  /\ exists g' a,
       setPoints (NumberArray (flat_map coordinates pts)) None
                 new_MeshLineGeometry = Ok tt g'
       /\ priv_attributes g' = Some a
       /\ vertex3 (priv_positions g') 2
          = Some (Vector3.mk (Fin (1 # 10)) (ofZ 0) (ofZ 0))
       /\ vertex3 (array (position a)) 2
          = Some (Vector3.mk (Fin (13421773 # 134217728)) (ofZ 0) (ofZ 0))
       /\ vertex3 (array (position a)) 5 = Some (xyz 2 0 0)
       /\ vertex3 (array (position a)) 6 = None.
Proof.
  intros pts.
  assert (Hp : processable pts) by (split; simpl; [lia | intros; lia]).
  split; [exact Hp|]. split; [exact reachable_new|].
  destruct (position_holds_points AsNumberArray pts None
              new_MeshLineGeometry Hp reachable_new)
    as (g' & a & Hs & Ha & Hin & Hout).
  exists g', a. split; [exact Hs|]. split; [exact Ha|].
  split; [exact (proj1 (Hin 1%nat 0%nat ltac:(simpl; lia) ltac:(lia)))|].
  split; [exact (proj2 (Hin 1%nat 0%nat ltac:(simpl; lia) ltac:(lia)))|].
  split; [exact (proj2 (Hin 2%nat 1%nat ltac:(simpl; lia) ltac:(lia)))|].
  exact (Hout 6%nat ltac:(simpl; lia)).
Defined.

Lemma indices_of_stored (N : nat) :
  Z.of_nat N <= 32768 -> map toUint16 (indices_of N) = indices_of N.
Proof.
  intros Hsmall. rewrite <- (map_id (indices_of N)) at 2.
  apply map_ext_in. intros v Hv. apply toUint16_small.
  apply indices_of_range in Hv. lia.
Qed.

(** X2: Every generated index is the number of a vertex that exists in the
    [position] attribute, and up to 32768 points the stored 16-bit index
    is that same number. *)
Theorem indices_address_vertices (sh : Shape) (pts : list Vector3)
  (wcb : option (num -> num)) (g : MeshLineGeometry) :
  processable pts -> reachable g ->
  exists g' a,
    setPoints (encode sh pts) wcb g = Ok tt g'
    /\ priv_attributes g' = Some a
    /\ (forall k v, priv_indices_array g' !! k = Some v ->
          0 <= v < Z.of_nat (2 * length pts)
          /\ is_Some (vertex3 (array (position a)) (Z.to_nat v)))
    /\ (Z.of_nat (length pts) <= 32768 ->
        forall k v, array (index a) !! k = Some v ->
          0 <= v < Z.of_nat (2 * length pts)
          /\ is_Some (vertex3 (array (position a)) (Z.to_nat v))).
Proof.
  intros Hp Hr. pose proof (reachable_wf g Hr) as Hwf.
  exists (after_setPoints (encode sh pts) pts wcb g),
         (attributes_after (encode sh pts) pts wcb g).
  split; [now apply setPoints_ok|].
  split; [apply after_setPoints_attributes|].
  pose proof (attributes_after_arrays (encode sh pts) pts wcb g Hp Hwf)
    as (Hpos & _ & _ & _ & _ & _ & Hsto & _).
  pose proof (after_setPoints_arrays (encode sh pts) pts wcb g)
    as (_ & _ & _ & _ & _ & Hidx & _).
  cbv zeta in Hpos, Hidx, Hsto.
  assert (Hall : forall k v, indices_of (length pts) !! k = Some v ->
            0 <= v < Z.of_nat (2 * length pts)
            /\ is_Some (vertex3 (map toFloat32 (flat_map rails pts))
                                (Z.to_nat v))).
  { intros k v Hk.
    pose proof (indices_of_range (length pts) v
                  ltac:(apply list_elem_of_In; eapply list_elem_of_lookup_2; exact Hk)) as Hv.
    split; [lia|].
    replace (Z.to_nat v) with (2 * (Z.to_nat v / 2) + Z.to_nat v mod 2)%nat
      by (pose proof (Nat.div_mod_eq (Z.to_nat v) 2); lia).
    rewrite vertex3_stored.
    rewrite vertex3_rails by (apply Nat.mod_upper_bound; lia).
    apply fmap_is_Some.
    apply lookup_lt_is_Some_2. apply Nat.Div0.div_lt_upper_bound. lia. }
  rewrite Hpos, Hidx, Hsto. split; [exact Hall|].
  intros Hle. rewrite (indices_of_stored _ Hle). exact Hall.
Qed.

Lemma indices_address_vertices_witness :
  processable three_points
  /\ reachable new_MeshLineGeometry
  /\ exists g' a,
       setPoints (Vector3Array three_points) None new_MeshLineGeometry
       = Ok tt g'
       /\ priv_attributes g' = Some a
       /\ forall k v, array (index a) !! k = Some v -> 0 <= v < 6.
Proof.
  assert (Hp : processable three_points)
    by (split; simpl; [lia | intros; lia]).
  split; [exact Hp|]. split; [exact reachable_new|].
  destruct (indices_address_vertices AsVector3Array three_points None
              new_MeshLineGeometry Hp reachable_new)
    as (g' & a & Hs & Ha & _ & Hstored).
  exists g', a. split; [exact Hs|]. split; [exact Ha|].
  intros k v Hk.
  exact (proj1 (Hstored ltac:(simpl; lia) k v Hk)).
Defined.

(** X3: The uv coordinates: in [#uvs], u is j / (N-1) on both rails and v
    is 0 on the first rail and 1 on the second; the [uv] attribute holds
    u stored as a binary32 number, v as it is, and u is exactly 0 at the
    first point and exactly 1 at the last of two points or more. *)
Theorem uv_layout (sh : Shape) (pts : list Vector3)
  (wcb : option (num -> num)) (g : MeshLineGeometry) :
  (2 <= length pts)%nat -> reachable g ->
  exists g' a,
    setPoints (encode sh pts) wcb g = Ok tt g'
    /\ priv_attributes g' = Some a
    /\ (forall j, (j < length pts)%nat ->
          let u := ndiv (ofZ (Z.of_nat j)) (ofZ (Z.of_nat (length pts) - 1)) in
          priv_uvs g' !! (4 * j)%nat = Some u
          /\ priv_uvs g' !! (4 * j + 2)%nat = Some u
          /\ array (uv a) !! (4 * j)%nat = Some (toFloat32 u)
          /\ array (uv a) !! (4 * j + 1)%nat = Some (ofZ 0)
          /\ array (uv a) !! (4 * j + 2)%nat = Some (toFloat32 u)
          /\ array (uv a) !! (4 * j + 3)%nat = Some (ofZ 1))
    /\ array (uv a) !! 0%nat = Some (ofZ 0)
    /\ array (uv a) !! (4 * (length pts - 1))%nat = Some (ofZ 1).
Proof.
  intros HN Hr. pose proof (reachable_wf g Hr) as Hwf.
  assert (Hp : processable pts) by (split; [lia | intros; lia]).
  exists (after_setPoints (encode sh pts) pts wcb g),
         (attributes_after (encode sh pts) pts wcb g).
  pose proof (attributes_after_arrays (encode sh pts) pts wcb g Hp Hwf)
    as (_ & _ & _ & _ & _ & Huv & _).
  pose proof (after_setPoints_arrays (encode sh pts) pts wcb g)
    as (_ & _ & _ & _ & _ & _ & Puv & _).
  cbv zeta in Huv, Puv.
  split; [now apply setPoints_ok|].
  split; [apply after_setPoints_attributes|].
  rewrite Huv, Puv. split; [|split].
  - intros j Hj u. rewrite !list_lookup_fmap.
    destruct (uvs_of_lookup (length pts) j Hj) as (H0 & H1 & H2 & H3).
    rewrite H0, H1, H2, H3. repeat split; reflexivity.
  - rewrite list_lookup_fmap.
    destruct (uvs_of_lookup (length pts) 0 ltac:(lia)) as (H0 & _).
    change (4 * 0)%nat with 0%nat in H0. rewrite H0. unfold along.
    rewrite ndiv_zero by lia. reflexivity.
  - rewrite list_lookup_fmap.
    destruct (uvs_of_lookup (length pts) (length pts - 1) ltac:(lia))
      as (H0 & _).
    rewrite H0. unfold along.
    replace (Z.of_nat (length pts - 1)) with (Z.of_nat (length pts) - 1)
      by lia.
    rewrite ndiv_self by lia. reflexivity.
Qed.

Lemma uv_layout_witness :
  let pts := [xyz 0 0 0; xyz 1 0 0; xyz 2 0 0; xyz 3 0 0] in
  (2 <= length pts)%nat
  /\ reachable new_MeshLineGeometry
  /\ exists g' a,
       setPoints (Vector3Array pts) None new_MeshLineGeometry = Ok tt g'
       /\ priv_attributes g' = Some a
       /\ priv_uvs g' !! 4%nat = Some (Fin (1 # 3))
       /\ array (uv a) !! 4%nat = Some (Fin (11184811 # 33554432))
       /\ array (uv a) !! 5%nat = Some (Fin 0)
       /\ array (uv a) !! 7%nat = Some (Fin 1).
Proof.
  intros pts.
  assert (H2 : (2 <= length pts)%nat) by (simpl; lia).
  split; [exact H2|]. split; [exact reachable_new|].
  destruct (uv_layout AsVector3Array pts None
              new_MeshLineGeometry H2 reachable_new)
    as (g' & a & Hs & Ha & Huv & _).
  exists g', a. split; [exact Hs|]. split; [exact Ha|].
  destruct (Huv 1%nat ltac:(simpl; lia)) as (P0 & _ & H0 & H1 & _ & H3).
  split; [exact P0|]. split; [exact H0|]. split; [exact H1 | exact H3].
Defined.

(* ===================================================================== *)
(** ** How [setPoints] can fail *)
(* ===================================================================== *)

Section Preserved.
Context {X : Type} (f : MeshLineGeometry -> X).

Lemma preserves_ret {A} (a : A) : preserves f (ret a).
Proof. intros g. reflexivity. Qed.

Lemma preserves_throw {A} (msg : string) : preserves f (@throw _ A msg).
Proof. intros g. reflexivity. Qed.

Lemma preserves_bind {A B} (m : Geo A) (k : A -> Geo B) :
  preserves f m -> (forall a, preserves f (k a)) -> preserves f (bind m k).
Proof.
  intros Hm Hk g. unfold bind. specialize (Hm g).
  destruct (m g) as [a s|msg s]; simpl in *.
  - now rewrite Hk.
  - exact Hm.
Qed.

Lemma preserves_modify (h : MeshLineGeometry -> MeshLineGeometry) :
  (forall g, f (h g) = f g) -> preserves f (modify h).
Proof. intros Hh g. apply Hh. Qed.

Lemma preserves_for_loop (n : nat) (j step : Z) (body : Z -> Geo unit) :
  (forall i, preserves f (body i)) ->
  preserves f (for_loop n j step body).
Proof.
  intros Hbody. revert j. induction n as [|n IH]; intros j.
  - apply preserves_ret.
  - simpl. apply preserves_bind; [apply Hbody | intros _; apply IH].
Qed.

End Preserved.

Ltac preserved :=
  repeat match goal with
  | |- preserves _ (ret _) => apply preserves_ret
  | |- preserves _ (throw _) => apply preserves_throw
  | |- preserves _ (bind _ _) => apply preserves_bind; [|intros ?]
  | |- preserves _ (for_loop _ _ _ _) => apply preserves_for_loop; intros ?
  | |- preserves _ (modify _) =>
      apply preserves_modify; intros ?; reflexivity
  | |- preserves _ (match ?x with _ => _ end) => destruct x
  end.

Lemma flat_body_beside points j :
  preserves beside_loops (setPoints_flat_body points j).
Proof.
  unfold setPoints_flat_body, push_positions, push_counters. preserved.
Qed.

(** The only message a loop can throw is one its body can throw. *)
Lemma for_loop_message {S} (P : string -> Prop) (n : nat) (j step : Z)
  (body : Z -> M S unit) :
  (forall i s msg s', body i s = Throw msg s' -> P msg) ->
  forall s msg s', for_loop n j step body s = Throw msg s' -> P msg.
Proof.
  intros Hbody. revert j. induction n as [|n IH]; intros j s msg s' H.
  - discriminate.
  - simpl in H. unfold bind in H.
    destruct (body j s) as [[] s1|m1 s1] eqn:E.
    + now apply (IH _ _ _ _ H).
    + injection H as <- <-. now apply (Hbody _ _ _ _ E).
Qed.

Lemma flat_body_message points i s msg s' :
  setPoints_flat_body points i s = Throw msg s' -> msg = "point missing"%string.
Proof.
  unfold setPoints_flat_body.
  destruct (number_at points (i + 0)), (number_at points (i + 1)),
           (number_at points (i + 2)); cbn; intros H;
    try discriminate; now injection H as <- _.
Qed.

(** A flat array whose length is not a multiple of three: "point missing",
    nothing a renderer can see has changed, and the array is stored. *)
Lemma setPoints_ragged_visible (points : Points) (a : list num)
  (wcb : option (num -> num)) (g : MeshLineGeometry) :
  points = NumberArray a \/ points = Float32Array a ->
  Z.of_nat (length a) mod 3 <> 0 ->
  exists g', setPoints points wcb g = Throw "point missing" g'
             /\ visible g' = visible g
             /\ priv_points g' = points
             /\ widthCallback g' = callback_in_force wcb g
             /\ callback_log g' = callback_log g.
Proof.
  intros Hpoints Hmod.
  destruct (setPoints_ragged points a wcb g Hpoints Hmod)
    as (msg & g' & Hthrow & _).
  exists g'.
  assert (Hlen : points_length points = length a)
    by (destruct Hpoints as [-> | ->]; reflexivity).
  assert (Hvec : isVector3Array points = false).
  { unfold isVector3Array.
    replace (vector3_at points 0) with (@None Vector3)
      by (destruct Hpoints as [-> | ->]; reflexivity).
    apply andb_false_r. }
  assert (Hne : (points_length points =? 0)%nat = false).
  { rewrite Hlen. apply Nat.eqb_neq. intros E. rewrite E in Hmod.
    now apply Hmod. }
  set (s1 := set_counters [] (set_positions []
               (set_widthCallback (callback_in_force wcb g)
                  (set_points points g)))).
  set (loop := for_loop (trips (Z.of_nat (points_length points)) 3) 0 3
                        (setPoints_flat_body points)).
  assert (E : setPoints points wcb g = bind loop (fun _ => process) s1).
  { unfold setPoints, loop, s1.
    destruct Hpoints as [-> | ->]; cbn [points_length] in *;
      rewrite Hne, Hvec; destruct wcb; try reflexivity; now destruct g. }
  assert (Hs1 : beside_loops s1
                = (visible g, points, callback_in_force wcb g, callback_log g))
    by (unfold s1; now destruct g).
  rewrite E in Hthrow. unfold bind in Hthrow.
  pose proof (preserves_for_loop beside_loops
                (trips (Z.of_nat (points_length points)) 3)
                0 3 (setPoints_flat_body points)
                (flat_body_beside points) s1) as Hk.
  fold loop in Hk.
  destruct (loop s1) as [[] s2|m2 s2] eqn:Hloop.
  - exfalso.
    pose proof (Z.div_mod (Z.of_nat (length a)) 3 ltac:(lia)) as Hdm.
    pose proof (Z.mod_pos_bound (Z.of_nat (length a)) 3 ltac:(lia)) as Hb.
    pose proof (Z.div_pos (Z.of_nat (length a)) 3 ltac:(lia) ltac:(lia)).
    set (q := Z.of_nat (length a) / 3) in *.
    assert (Htrips : trips (Z.of_nat (points_length points)) 3
                     = Datatypes.S (Z.to_nat q)).
    { rewrite Hlen. unfold trips.
      replace (Z.of_nat (length a) + 3 - 1)
        with ((Z.of_nat (length a) mod 3 - 1) + (q + 1) * 3) by lia.
      rewrite Z.div_add by lia.
      rewrite (Z.div_small (Z.of_nat (length a) mod 3 - 1)) by lia. lia. }
    destruct (for_loop_last_throws (Z.to_nat q) 0 3
                (setPoints_flat_body points)) with (s := s1)
      as (m3 & s3 & H3).
    + intros s. unfold setPoints_flat_body.
      assert (Hnone : number_at points (0 + Z.of_nat (Z.to_nat q) * 3 + 2)
                      = None).
      { destruct Hpoints as [-> | ->]; cbn [number_at]; unfold at_index;
          (destruct (Z.ltb_spec (0 + Z.of_nat (Z.to_nat q) * 3 + 2) 0);
            [reflexivity | apply lookup_ge_None; lia]). }
      rewrite Hnone.
      destruct (number_at points (0 + Z.of_nat (Z.to_nat q) * 3 + 0)),
               (number_at points (0 + Z.of_nat (Z.to_nat q) * 3 + 1));
        now eauto.
    + unfold loop in Hloop. rewrite Htrips, H3 in Hloop. discriminate.
  - injection Hthrow as <- <-.
    assert (Hm : m2 = "point missing"%string).
    { unfold loop in Hloop.
      now apply (for_loop_message (fun m => m = "point missing"%string)
                   _ _ _ _ (flat_body_message points) _ _ _ Hloop). }
    subst m2. split.
    + rewrite E. apply bind_Throw. exact Hloop.
    + simpl in Hk. rewrite Hs1 in Hk. unfold beside_loops in Hk.
      repeat split; congruence.
Qed.

(** Every way a call of [setPoints] can end, with what a failed call
    leaves behind. *)
Lemma setPoints_outcomes (points : Points) (wcb : option (num -> num))
  (g : MeshLineGeometry) :
  wf g ->
  (points_length points = 0%nat /\ points <> OtherValue
   /\ setPoints points wcb g = Ok tt g)
  \/ (points = OtherValue
      /\ setPoints points wcb g = Throw "invalid points" g)
  \/ (points_length points <> 0%nat
      /\ exists g', setPoints points wcb g = Throw "point missing" g'
           /\ visible g' = visible g
           /\ priv_points g' = points
           /\ widthCallback g' = callback_in_force wcb g
           /\ callback_log g' = callback_log g)
  \/ (exists sh pts, points = encode sh pts /\ processable pts
        /\ setPoints points wcb g
           = Ok tt (after_setPoints points pts wcb g)).
Proof.
  intros Hwf.
  assert (Hshape : forall sh pts, points = encode sh pts ->
    (points_length points = 0%nat /\ points <> OtherValue
     /\ setPoints points wcb g = Ok tt g)
    \/ (points = OtherValue
        /\ setPoints points wcb g = Throw "invalid points" g)
    \/ (points_length points <> 0%nat
        /\ exists g', setPoints points wcb g = Throw "point missing" g'
             /\ visible g' = visible g
             /\ priv_points g' = points
             /\ widthCallback g' = callback_in_force wcb g
             /\ callback_log g' = callback_log g)
    \/ (exists sh pts, points = encode sh pts /\ processable pts
          /\ setPoints points wcb g
             = Ok tt (after_setPoints points pts wcb g))).
  { intros sh pts ->.
    destruct (processable_cases pts) as [-> | [(p & -> & Heq) | Hp]].
    - left. repeat split; destruct sh; (reflexivity || discriminate).
    - right. right. left. split; [now destruct sh|].
      eexists. split; [now apply setPoints_single|].
      now destruct g.
    - right. right. right. exists sh, pts. repeat split; try apply Hp.
      now apply setPoints_ok. }
  assert (Hflat : forall a, points = NumberArray a \/ points = Float32Array a ->
    (points_length points = 0%nat /\ points <> OtherValue
     /\ setPoints points wcb g = Ok tt g)
    \/ (points = OtherValue
        /\ setPoints points wcb g = Throw "invalid points" g)
    \/ (points_length points <> 0%nat
        /\ exists g', setPoints points wcb g = Throw "point missing" g'
             /\ visible g' = visible g
             /\ priv_points g' = points
             /\ widthCallback g' = callback_in_force wcb g
             /\ callback_log g' = callback_log g)
    \/ (exists sh pts, points = encode sh pts /\ processable pts
          /\ setPoints points wcb g
             = Ok tt (after_setPoints points pts wcb g))).
  { intros a Ha.
    destruct (Z.eq_dec (Z.of_nat (length a) mod 3) 0) as [Hmod|Hmod].
    - assert (Hg : flat_map coordinates (group3 a) = a).
      { apply (group3_flat a (Z.to_nat (Z.of_nat (length a) / 3))).
        pose proof (Z.div_mod (Z.of_nat (length a)) 3 ltac:(lia)).
        pose proof (Z.div_pos (Z.of_nat (length a)) 3 ltac:(lia) ltac:(lia)).
        lia. }
      destruct Ha as [-> | ->].
      + apply (Hshape AsNumberArray (group3 a)). simpl. now rewrite Hg.
      + apply (Hshape AsFloat32Array (group3 a)). simpl. now rewrite Hg.
    - right. right. left. split.
      + intros E. apply Hmod.
        assert (length a = 0%nat) as ->
          by (destruct Ha as [-> | ->]; exact E).
        reflexivity.
      + now apply (setPoints_ragged_visible points a). }
  destruct points as [a|a|a|].
  - now apply (Hshape AsVector3Array a).
  - apply (Hflat a). now left.
  - apply (Hflat a). now right.
  - right. left. now split.
Qed.

(** X4: A call of [setPoints] that throws does so with one of two messages,
    leaves the attribute objects, their registration under the public
    names and the index as they were, and has not called the width
    callback. *)
Theorem setPoints_failure_keeps_attributes (points : Points)
  (wcb : option (num -> num)) (g g' : MeshLineGeometry) (msg : string) :
  reachable g ->
  setPoints points wcb g = Throw msg g' ->
  (msg = "invalid points"%string \/ msg = "point missing"%string)
  /\ priv_attributes g' = priv_attributes g
  /\ geometry_attributes g' = geometry_attributes g
  /\ geometry_index g' = geometry_index g
  /\ callback_log g' = callback_log g.
Proof.
  intros Hr Hthrow.
  destruct (setPoints_outcomes points wcb g (reachable_wf g Hr))
    as [(_ & _ & E) | [(_ & E) | [(_ & g1 & E & Hv & _ & _ & Hl)
                                 | (sh & pts & _ & _ & E)]]];
    rewrite E in Hthrow; try discriminate.
  - injection Hthrow as <- <-. repeat split; auto.
  - injection Hthrow as <- <-. unfold visible in Hv.
    split; [now right|]. repeat split; congruence.
Qed.

Lemma setPoints_failure_keeps_attributes_witness :
  let g := state_of (setPoints (Vector3Array three_points) None
                       new_MeshLineGeometry) in
  exists g',
    reachable g
    /\ setPoints (Vector3Array [xyz 1 2 3]) None g = Throw "point missing" g'
    /\ priv_attributes g' = priv_attributes g
    /\ geometry_attributes g' = geometry_attributes g
    /\ geometry_index g' = geometry_index g
    /\ callback_log g' = callback_log g.
Proof.
  intros g.
  assert (Hr : reachable g) by apply reachable_setPoints, reachable_new.
  assert (Hthrow : setPoints (Vector3Array [xyz 1 2 3]) None g
                   = Throw "point missing"
                       (emptied (loaded (Vector3Array [xyz 1 2 3])
                                   [xyz 1 2 3] None g)))
    by (apply (setPoints_single AsVector3Array); reflexivity).
  eexists. split; [exact Hr|]. split; [exact Hthrow|].
  exact (proj2 (setPoints_failure_keeps_attributes _ _ _ _ _ Hr Hthrow)).
Defined.

(** X5: A flat array whose length is not a multiple of three is rejected with
    "point missing", whatever the geometry held: the attribute objects
    stay, but the array is already stored as [points] and the callback
    already replaced. *)
Theorem ragged_array_rejected (a : list num) (points : Points)
  (wcb : option (num -> num)) (g : MeshLineGeometry) :
  points = NumberArray a \/ points = Float32Array a ->
  Z.of_nat (length a) mod 3 <> 0 ->
  exists g',
    setPoints points wcb g = Throw "point missing" g'
    /\ priv_attributes g' = priv_attributes g
    /\ geometry_attributes g' = geometry_attributes g
    /\ priv_points g' = points
    /\ widthCallback g' = callback_in_force wcb g.
Proof.
  intros Hpoints Hmod.
  destruct (setPoints_ragged_visible points a wcb g Hpoints Hmod)
    as (g' & E & Hv & Hp & Hw & Hl).
  exists g'. unfold visible in Hv. repeat split; congruence.
Qed.

Lemma ragged_array_rejected_witness :
  exists g',
    setPoints (Float32Array [ofZ 1; ofZ 2; ofZ 3; ofZ 4]) None
              new_MeshLineGeometry = Throw "point missing" g'
    /\ priv_attributes g' = None
    /\ geometry_attributes g' = ∅
    /\ priv_points g' = Float32Array [ofZ 1; ofZ 2; ofZ 3; ofZ 4]
    /\ widthCallback g' = None.
Proof.
  apply (ragged_array_rejected [ofZ 1; ofZ 2; ofZ 3; ofZ 4]
           (Float32Array [ofZ 1; ofZ 2; ofZ 3; ofZ 4]) None
           new_MeshLineGeometry).
  - now right.
  - vm_compute. discriminate.
Defined.

(** X6: What a call of [setPoints] stores before it processes anything: an
    empty array or a value that is no array changes nothing at all, and a
    non-empty array is stored as [points], with the callback if one is
    given, whether processing then succeeds or throws. *)
Theorem argument_stored_before_processing (points : Points)
  (wcb : option (num -> num)) (g : MeshLineGeometry) :
  reachable g ->
  let g' := state_of (setPoints points wcb g) in
  (points = OtherValue \/ points_length points = 0%nat -> g' = g)
  /\ (points <> OtherValue -> points_length points <> 0%nat ->
      priv_points g' = points
      /\ widthCallback g' = callback_in_force wcb g).
Proof.
  intros Hr g'. subst g'.
  destruct (setPoints_outcomes points wcb g (reachable_wf g Hr))
    as [(H0 & Hn & E) | [(Hi & E) | [(Hn & g1 & E & Hv & Hp & Hw & Hl)
                                    | (sh & pts & He & Hpr & E)]]];
    rewrite E; cbn [state_of].
  - split; [reflexivity | intros _ H; now destruct H].
  - split; [reflexivity | intros H; now destruct H].
  - split; [|intros _ _; now split].
    intros [H | H]; [|contradiction].
    rewrite H in Hn. exfalso. now apply Hn.
  - pose proof (after_setPoints_arrays points pts wcb g)
      as (_ & _ & _ & _ & _ & _ & _ & _ & Hw & Hp & _).
    cbv zeta in Hw, Hp.
    assert (Hlen : points_length points <> 0%nat).
    { destruct Hpr as (H1 & _). rewrite He.
      destruct pts as [|p r]; [simpl in H1; lia|].
      destruct sh; simpl; lia. }
    split; [|intros _ _; now split].
    intros [H | H]; [|contradiction].
    subst points. now destruct sh.
Qed.

Lemma argument_stored_before_processing_witness :
  let g' := state_of (setPoints (Vector3Array [xyz 1 2 3]) None
                        new_MeshLineGeometry) in
  priv_points g' = Vector3Array [xyz 1 2 3] /\ widthCallback g' = None.
Proof.
  apply (argument_stored_before_processing (Vector3Array [xyz 1 2 3]) None
           new_MeshLineGeometry reachable_new); [discriminate|].
  simpl. lia.
Defined.

(* ===================================================================== *)
(** ** The attribute objects and their public names *)
(* ===================================================================== *)

Lemma after_setPoints_visible (points : Points) (pts : list Vector3)
  (wcb : option (num -> num)) (g : MeshLineGeometry) :
  let g' := after_setPoints points pts wcb g in
  let a := attributes_after points pts wcb g in
  geometry_attributes g'
  = <["counters" := object_id (counters a)]>
     (<["uv" := object_id (uv a)]>
      (<["width" := object_id (width a)]>
       (<["side" := object_id (side a)]>
        (<["next" := object_id (next a)]>
         (<["previous" := object_id (previous a)]>
          (<["position" := object_id (position a)]>
           (geometry_attributes g)))))))
  /\ geometry_index g' = Some (object_id (index a))
  /\ allocated g'
     = (if reuses (length pts) g then allocated g else allocated g + 8)%nat.
Proof.
  unfold after_setPoints. destruct (reuses (length pts) g); now destruct g.
Qed.

Lemma attributes_after_ids (points : Points) (pts : list Vector3)
  (wcb : option (num -> num)) (g : MeshLineGeometry) :
  ids_of (attributes_after points pts wcb g)
  = match priv_attributes g with
    | Some a => if reuses (length pts) g then ids_of a
                else seq (allocated g) 8
    | None => seq (allocated g) 8
    end.
Proof.
  unfold attributes_after.
  destruct (priv_attributes g) as [a|];
    [destruct (reuses (length pts) g)|]; try reflexivity;
    unfold ids_of, fresh_attributes; cbn;
    repeat (f_equal; try lia).
Qed.

(** Registering the seven names again replaces every binding. *)
Lemma names_of_again (a b : Attributes) :
  <["counters" := object_id (counters a)]>
   (<["uv" := object_id (uv a)]>
    (<["width" := object_id (width a)]>
     (<["side" := object_id (side a)]>
      (<["next" := object_id (next a)]>
       (<["previous" := object_id (previous a)]>
        (<["position" := object_id (position a)]> (names_of b)))))))
  = names_of a.
Proof.
  apply map_eq. intros name. unfold names_of.
  rewrite !lookup_insert, !lookup_empty.
  repeat (destruct (decide _); [reflexivity|]). reflexivity.
Qed.

Lemma after_setPoints_coherent (points : Points) (pts : list Vector3)
  (wcb : option (num -> num)) (g : MeshLineGeometry) :
  coherent g -> coherent (after_setPoints points pts wcb g).
Proof.
  intros Hc. unfold coherent.
  rewrite after_setPoints_attributes.
  pose proof (after_setPoints_visible points pts wcb g) as (Hga & Hgi & Hal).
  cbv zeta in Hga, Hgi, Hal.
  pose proof (attributes_after_ids points pts wcb g) as Hids.
  rewrite Hga, Hgi, Hal, Hids. clear Hga Hgi Hal Hids.
  unfold coherent in Hc. unfold reuses.
  destruct (priv_attributes g) as [a|].
  - destruct Hc as (Hi & H8 & Hn & Hx). rewrite Hn.
    destruct (count (position a) * 3 =? Z.of_nat (length pts * 6)).
    + split; [exact Hi|]. split; [exact H8|].
      split; [apply names_of_again | reflexivity].
    + split; [f_equal; lia|]. split; [lia|].
      split; [apply names_of_again | reflexivity].
  - destruct Hc as (Hn & Hx & H0). rewrite Hn, H0.
    split; [reflexivity|]. split; [lia|]. split; reflexivity.
Qed.

Lemma visible_coherent (g g' : MeshLineGeometry) :
  visible g' = visible g -> coherent g -> coherent g'.
Proof.
  unfold visible, coherent. intros H.
  injection H as -> -> -> ->. auto.
Qed.

Lemma reachable_coherent (g : MeshLineGeometry) : reachable g -> coherent g.
Proof.
  induction 1 as [|g points wcb Hr IH|g p Hr IH].
  - repeat split.
  - destruct (setPoints_outcomes points wcb g (reachable_wf g Hr))
      as [(_ & _ & E) | [(_ & E) | [(_ & g1 & E & Hv & _)
                                   | (sh & pts & _ & _ & E)]]];
      rewrite E; cbn [state_of]; auto.
    + now apply (visible_coherent g).
    + now apply after_setPoints_coherent.
  - destruct (priv_attributes g) as [a|] eqn:Ha.
    + rewrite (advance_ok p g a (reachable_wf g Hr) Ha). cbn [state_of].
      unfold coherent in *. rewrite Ha in IH.
      destruct g; cbn in *. exact IH.
    + now rewrite advance_uninitialised.
Qed.

(** X7: At every moment of the life of a geometry, its public side agrees
    with the private attribute objects: before the first successful
    [setPoints] nothing is registered, and afterwards exactly the seven
    names of [#process] are bound, each to the current private object of
    that name, and the index is the current [index] object.  [advance] and
    failed calls never break this. *)
Theorem public_attributes_are_current (g : MeshLineGeometry) :
  reachable g ->
  (priv_attributes g = None ->
     geometry_attributes g = ∅ /\ geometry_index g = None)
  /\ (forall a, priv_attributes g = Some a ->
        geometry_attributes g !! "position" = Some (object_id (position a))
        /\ geometry_attributes g !! "previous" = Some (object_id (previous a))
        /\ geometry_attributes g !! "next" = Some (object_id (next a))
        /\ geometry_attributes g !! "side" = Some (object_id (side a))
        /\ geometry_attributes g !! "width" = Some (object_id (width a))
        /\ geometry_attributes g !! "uv" = Some (object_id (uv a))
        /\ geometry_attributes g !! "counters" = Some (object_id (counters a))
        /\ geometry_attributes g !! "index" = None
        /\ size (geometry_attributes g) = 7%nat
        /\ geometry_index g = Some (object_id (index a))).
Proof.
  intros Hr. pose proof (reachable_coherent g Hr) as Hc.
  unfold coherent in Hc. split.
  - intros Ha. rewrite Ha in Hc. now destruct Hc as (? & ? & _).
  - intros a Ha. rewrite Ha in Hc. destruct Hc as (_ & _ & -> & ->).
    unfold names_of. repeat split.
Qed.

Lemma public_attributes_are_current_witness :
  let g := state_of (advance (xyz 9 9 9)
             (state_of (setPoints (Vector3Array three_points) None
                          new_MeshLineGeometry))) in
  exists a,
    reachable g
    /\ priv_attributes g = Some a
    /\ geometry_attributes g !! "position" = Some (object_id (position a))
    /\ geometry_attributes g !! "index" = None
    /\ geometry_index g = Some (object_id (index a)).
Proof.
  set (g1 := state_of (setPoints (Vector3Array three_points) None
                         new_MeshLineGeometry)).
  set (a1 := attributes_after (Vector3Array three_points) three_points None
               new_MeshLineGeometry).
  assert (Hr1 : reachable g1) by apply reachable_setPoints, reachable_new.
  assert (Ha1 : priv_attributes g1 = Some a1) by reflexivity.
  cbv zeta.
  assert (Hr : reachable (state_of (advance (xyz 9 9 9) g1)))
    by now apply reachable_advance.
  assert (Ha : priv_attributes (state_of (advance (xyz 9 9 9) g1))
               = Some (advanced (xyz 9 9 9) a1))
    by (rewrite (advance_ok _ g1 a1 (reachable_wf g1 Hr1) Ha1); reflexivity).
  exists (advanced (xyz 9 9 9) a1).
  split; [exact Hr|]. split; [exact Ha|].
  destruct (public_attributes_are_current _ Hr) as (_ & H).
  destruct (H _ Ha) as (H1 & _ & _ & _ & _ & _ & _ & H2 & _ & H3).
  repeat split; assumption.
Defined.

(** X8: A successful [setPoints] whose vertex count differs from that of the
    current [position] attribute (or the first one at all) creates eight
    new attribute objects: all distinct, none of them one of the objects
    in use before, none flagged for upload, and it is these that the
    public names and the index are bound to afterwards. *)
Theorem other_count_allocates_fresh (sh : Shape) (pts : list Vector3)
  (wcb : option (num -> num)) (g : MeshLineGeometry) :
  processable pts -> reachable g ->
  (forall a, priv_attributes g = Some a ->
     count (position a) <> Z.of_nat (2 * length pts)) ->
  exists g' a',
    setPoints (encode sh pts) wcb g = Ok tt g'
    /\ priv_attributes g' = Some a'
    /\ NoDup (ids_of a')
    /\ (forall a i, priv_attributes g = Some a ->
          i ∈ ids_of a -> i ∉ ids_of a')
    /\ flags_of a' = repeat false 8
    /\ sized (length pts) a'
    /\ geometry_attributes g' = names_of a'
    /\ geometry_index g' = Some (object_id (index a')).
Proof.
  intros Hp Hr Hcount. pose proof (reachable_wf g Hr) as Hwf.
  pose proof (reachable_coherent g Hr) as Hc.
  assert (Hreuse : reuses (length pts) g = false).
  { unfold reuses. destruct (priv_attributes g) as [a|] eqn:Ha; [|reflexivity].
    apply Z.eqb_neq. specialize (Hcount a eq_refl). lia. }
  exists (after_setPoints (encode sh pts) pts wcb g),
         (attributes_after (encode sh pts) pts wcb g).
  pose proof (setPoints_ok sh pts wcb g Hp Hwf) as Hok.
  pose proof (after_setPoints_coherent (encode sh pts) pts wcb g Hc) as Hc'.
  unfold coherent in Hc'. rewrite after_setPoints_attributes in Hc'.
  destruct Hc' as (_ & _ & Hnames & Hindex).
  pose proof (attributes_after_ids (encode sh pts) pts wcb g) as Hids.
  assert (Hnew : ids_of (attributes_after (encode sh pts) pts wcb g)
                 = seq (allocated g) 8).
  { rewrite Hids, Hreuse. now destruct (priv_attributes g). }
  split; [exact Hok|]. split; [reflexivity|].
  split; [rewrite Hnew; apply NoDup_seq|].
  split.
  { intros a i Ha Hi. rewrite Hnew. unfold coherent in Hc. rewrite Ha in Hc.
    destruct Hc as (Hold & H8 & _). rewrite Hold in Hi.
    apply elem_of_seq in Hi. rewrite elem_of_seq. lia. }
  split.
  { unfold attributes_after. rewrite Hreuse.
    now destruct (priv_attributes g). }
  split; [now apply attributes_after_sized|].
  split; assumption.
Qed.

Lemma other_count_allocates_fresh_witness :
  let g := state_of (setPoints (Vector3Array three_points) None
                       new_MeshLineGeometry) in
  exists a g' a',
    priv_attributes g = Some a
    /\ setPoints (Vector3Array [xyz 0 0 0; xyz 1 1 1]) None g = Ok tt g'
    /\ priv_attributes g' = Some a'
    /\ NoDup (ids_of a')
    /\ (object_id (position a) ∉ ids_of a')
    /\ flags_of a' = repeat false 8%nat.
Proof.
  set (g := state_of (setPoints (Vector3Array three_points) None
                        new_MeshLineGeometry)).
  set (a := attributes_after (Vector3Array three_points) three_points None
              new_MeshLineGeometry).
  assert (Hp : processable [xyz 0 0 0; xyz 1 1 1])
    by (split; simpl; [lia | intros; lia]).
  assert (Hr : reachable g) by apply reachable_setPoints, reachable_new.
  assert (Ha : priv_attributes g = Some a) by reflexivity.
  assert (Hcount : forall a0, priv_attributes g = Some a0 ->
            count (position a0)
            <> Z.of_nat (2 * length [xyz 0 0 0; xyz 1 1 1])).
  { intros a0 Ha0. rewrite Ha in Ha0. injection Ha0 as <-.
    vm_compute. discriminate. }
  destruct (other_count_allocates_fresh AsVector3Array
              [xyz 0 0 0; xyz 1 1 1] None g Hp Hr Hcount)
    as (g' & a' & Hs & Ha' & Hnd & Hold & Hfl & _).
  cbv zeta. exists a, g', a'.
  split; [exact Ha|]. split; [exact Hs|]. split; [exact Ha'|].
  split; [exact Hnd|]. split; [|exact Hfl].
  apply (Hold a _ Ha). unfold ids_of. apply list_elem_of_here.
Defined.

(** X9: A successful [setPoints] with the vertex count of the current
    [position] attribute flags seven of the eight attribute objects for
    upload; the [counters] object is left exactly as it was, flag and
    contents, and still holds the counters j / N of the new points, stored
    as binary32 numbers. *)
Theorem same_count_flags_seven (sh : Shape) (pts : list Vector3)
  (wcb : option (num -> num)) (g : MeshLineGeometry) (a : Attributes) :
  processable pts -> reachable g ->
  priv_attributes g = Some a ->
  count (position a) = Z.of_nat (2 * length pts) ->
  exists g' a',
    setPoints (encode sh pts) wcb g = Ok tt g'
    /\ priv_attributes g' = Some a'
    /\ flags_of a'
       = [true; true; true; true; true; true; true; needsUpdate (counters a)]
    /\ counters a' = counters a
    /\ array (counters a') = map toFloat32 (counters_of (length pts))
    /\ ids_of a' = ids_of a.
Proof.
  intros Hp Hr Ha Hcount. pose proof (reachable_wf g Hr) as Hwf.
  assert (Hreuse : reuses (length pts) g = true).
  { unfold reuses. rewrite Ha, Hcount. apply Z.eqb_eq. lia. }
  exists (after_setPoints (encode sh pts) pts wcb g),
         (attributes_after (encode sh pts) pts wcb g).
  pose proof (attributes_after_arrays (encode sh pts) pts wcb g Hp Hwf)
    as (_ & _ & _ & _ & _ & _ & _ & A8).
  cbv zeta in A8.
  split; [now apply setPoints_ok|]. split; [reflexivity|].
  split; [|split; [|split; [exact A8|]]];
    unfold attributes_after; rewrite Hreuse, Ha; reflexivity.
Qed.

Lemma same_count_flags_seven_witness :
  let g := state_of (setPoints (Vector3Array three_points) None
                       new_MeshLineGeometry) in
  exists a g' a',
    priv_attributes g = Some a
    /\ setPoints (Vector3Array [xyz 5 5 5; xyz 6 5 5; xyz 7 5 5]) None g
       = Ok tt g'
    /\ priv_attributes g' = Some a'
    /\ flags_of a' = [true; true; true; true; true; true; true; false]
    /\ counters a' = counters a.
Proof.
  set (g := state_of (setPoints (Vector3Array three_points) None
                        new_MeshLineGeometry)).
  set (a := attributes_after (Vector3Array three_points) three_points None
              new_MeshLineGeometry).
  assert (Hp : processable [xyz 5 5 5; xyz 6 5 5; xyz 7 5 5])
    by (split; simpl; [lia | intros; lia]).
  assert (Hr : reachable g) by apply reachable_setPoints, reachable_new.
  assert (Ha : priv_attributes g = Some a) by reflexivity.
  assert (Hc : count (position a)
               = Z.of_nat (2 * length [xyz 5 5 5; xyz 6 5 5; xyz 7 5 5]))
    by reflexivity.
  destruct (same_count_flags_seven AsVector3Array
              [xyz 5 5 5; xyz 6 5 5; xyz 7 5 5] None g a Hp Hr Ha Hc)
    as (g' & a' & Hs & Ha' & Hfl & Hcnt & _).
  cbv zeta. exists a, g', a'.
  split; [exact Ha|]. split; [exact Hs|]. split; [exact Ha'|].
  split; [exact Hfl | exact Hcnt].
Defined.

(** X10: Whatever calls were made, the eight attribute arrays have the
    sizes of one and the same number of points (at least one), and
    [counters], which [#process] never refills and [advance] never
    touches, holds the counters j / M of that number of points, stored as
    binary32 numbers. *)
Theorem attributes_fit_one_count (g : MeshLineGeometry) (a : Attributes) :
  reachable g -> priv_attributes g = Some a ->
  exists M,
    (1 <= M)%nat
    /\ length (array (position a)) = (M * 6)%nat
    /\ length (array (previous a)) = (M * 6)%nat
    /\ length (array (next a)) = (M * 6)%nat
    /\ length (array (side a)) = (M * 2)%nat
    /\ length (array (width a)) = (M * 2)%nat
    /\ length (array (uv a)) = (M * 4)%nat
    /\ length (array (index a)) = ((M - 1) * 6)%nat
    /\ array (counters a) = map toFloat32 (counters_of M)
    /\ count (position a) = Z.of_nat (2 * M).
Proof.
  intros Hr Ha. pose proof (reachable_wf g Hr) as Hwf.
  unfold wf in Hwf. rewrite Ha in Hwf.
  destruct Hwf as (M & HM & H1 & H2 & H3 & H4 & H5 & H6 & H7 & H8 & H9).
  exists M.
  repeat (split; [assumption|]).
  unfold count. rewrite H1, H9.
  replace (Z.of_nat (M * 6)) with (Z.of_nat (2 * M) * 3) by lia.
  apply Z.div_mul. lia.
Qed.

Lemma attributes_fit_one_count_witness :
  let g := state_of (advance (xyz 9 9 9)
             (state_of (setPoints (Vector3Array three_points) None
                          new_MeshLineGeometry))) in
  exists a M,
    priv_attributes g = Some a
    /\ (1 <= M)%nat
    /\ length (array (position a)) = (M * 6)%nat
    /\ array (counters a) = map toFloat32 (counters_of M).
Proof.
  set (g1 := state_of (setPoints (Vector3Array three_points) None
                         new_MeshLineGeometry)).
  set (a1 := attributes_after (Vector3Array three_points) three_points None
               new_MeshLineGeometry).
  assert (Hr1 : reachable g1) by apply reachable_setPoints, reachable_new.
  assert (Ha1 : priv_attributes g1 = Some a1) by reflexivity.
  cbv zeta.
  assert (Hr : reachable (state_of (advance (xyz 9 9 9) g1)))
    by now apply reachable_advance.
  assert (Ha : priv_attributes (state_of (advance (xyz 9 9 9) g1))
               = Some (advanced (xyz 9 9 9) a1))
    by (rewrite (advance_ok _ g1 a1 (reachable_wf g1 Hr1) Ha1); reflexivity).
  destruct (attributes_fit_one_count _ _ Hr Ha)
    as (M & HM & H1 & _ & _ & _ & _ & _ & _ & H8 & _).
  exists (advanced (xyz 9 9 9) a1), M.
  split; [exact Ha|]. split; [exact HM|]. split; [exact H1 | exact H8].
Defined.

(** X11: The contents of the eight attribute arrays after a successful
    [setPoints] depend on the points and on the callback in force only:
    not on what the geometry held before, and not on whether the attribute
    objects were reused or created. *)
Theorem arrays_independent_of_history (sh1 sh2 : Shape) (pts : list Vector3)
  (wcb : option (num -> num)) (g1 g2 : MeshLineGeometry) :
  processable pts -> reachable g1 -> reachable g2 ->
  callback_in_force wcb g1 = callback_in_force wcb g2 ->
  exists g1' g2' a1 a2,
    setPoints (encode sh1 pts) wcb g1 = Ok tt g1'
    /\ setPoints (encode sh2 pts) wcb g2 = Ok tt g2'
    /\ priv_attributes g1' = Some a1
    /\ priv_attributes g2' = Some a2
    /\ arrays_of a1 = arrays_of a2.
Proof.
  intros Hp Hr1 Hr2 Hcb.
  pose proof (reachable_wf g1 Hr1) as Hwf1.
  pose proof (reachable_wf g2 Hr2) as Hwf2.
  exists (after_setPoints (encode sh1 pts) pts wcb g1),
         (after_setPoints (encode sh2 pts) pts wcb g2),
         (attributes_after (encode sh1 pts) pts wcb g1),
         (attributes_after (encode sh2 pts) pts wcb g2).
  split; [now apply setPoints_ok|]. split; [now apply setPoints_ok|].
  split; [reflexivity|]. split; [reflexivity|].
  pose proof (attributes_after_arrays (encode sh1 pts) pts wcb g1 Hp Hwf1)
    as (A1 & A2 & A3 & A4 & A5 & A6 & A7 & A8).
  pose proof (attributes_after_arrays (encode sh2 pts) pts wcb g2 Hp Hwf2)
    as (B1 & B2 & B3 & B4 & B5 & B6 & B7 & B8).
  cbv zeta in *. unfold arrays_of.
  rewrite A1, A2, A3, A4, A5, A6, A7, A8, B1, B2, B3, B4, B5, B6, B7, B8, Hcb.
  reflexivity.
Qed.

Lemma arrays_independent_of_history_witness :
  let g2 := state_of (setPoints (Vector3Array [xyz 7 7 7; xyz 8 8 8]) None
                        new_MeshLineGeometry) in
  exists g1' g2' a1 a2,
    setPoints (Vector3Array three_points) (Some (fun t => t))
              new_MeshLineGeometry = Ok tt g1'
    /\ setPoints (Float32Array (flat_map coordinates three_points))
                 (Some (fun t => t)) g2 = Ok tt g2'
    /\ priv_attributes g1' = Some a1
    /\ priv_attributes g2' = Some a2
    /\ arrays_of a1 = arrays_of a2.
Proof.
  assert (Hp : processable three_points)
    by (split; simpl; [lia | intros; lia]).
  apply (arrays_independent_of_history AsVector3Array AsFloat32Array
           three_points (Some (fun t => t)) new_MeshLineGeometry _ Hp
           reachable_new).
  - apply reachable_setPoints, reachable_new.
  - reflexivity.
Defined.

(* ===================================================================== *)
(** ** The [points] accessors *)
(* ===================================================================== *)

(** X12: Assigning [geometry.points = value] is [setPoints(value)] without a
    callback: it never changes [widthCallback]; a non-empty array is what
    [geometry.points] returns afterwards, even when processing it threw;
    an empty array or a value that is no array leaves the old points. *)
Theorem points_assignment (value : Points) (g : MeshLineGeometry) :
  reachable g ->
  let g' := state_of (points_setter value g) in
  points_setter value g = setPoints value None g
  /\ widthCallback g' = widthCallback g
  /\ (value <> OtherValue -> points_length value <> 0%nat ->
      points_getter g' = Ok value g')
  /\ (value = OtherValue \/ points_length value = 0%nat ->
      points_getter g' = points_getter g).
Proof.
  intros Hr g'.
  assert (E : points_setter value g = setPoints value None g).
  { unfold points_setter. cbn [bind get].
    destruct g as [pos prv nxt sd wd ix uvs cnt [f|] attrs points ga gi al lg];
      [|reflexivity].
    unfold setPoints. destruct value; try reflexivity;
      cbn [points_length];
      match goal with |- context [(?n =? 0)%nat] => destruct (n =? 0)%nat end;
      reflexivity. }
  subst g'. rewrite E. split; [reflexivity|].
  unfold points_getter. cbn [bind get ret].
  destruct (setPoints_outcomes value None g (reachable_wf g Hr))
    as [(H0 & Hn & Es) | [(Hi & Es) | [(Hn & g1 & Es & Hv & Hp & Hw & Hl)
                                      | (sh & pts & He & Hpr & Es)]]];
    rewrite Es; cbn [state_of].
  - split; [reflexivity|]. split; [intros _ H; contradiction | reflexivity].
  - split; [reflexivity|]. split; [intros H; contradiction | reflexivity].
  - split; [exact Hw|]. split; [intros _ _; now rewrite Hp|].
    intros [H | H]; [|contradiction].
    rewrite H in Hn. exfalso. now apply Hn.
  - pose proof (after_setPoints_arrays value pts None g)
      as (_ & _ & _ & _ & _ & _ & _ & _ & Hw & Hp & _).
    cbv zeta in Hw, Hp.
    assert (Hlen : points_length value <> 0%nat).
    { destruct Hpr as (H1 & _). rewrite He.
      destruct pts as [|p r]; [simpl in H1; lia|].
      destruct sh; simpl; lia. }
    split; [exact Hw|]. split; [intros _ _; now rewrite Hp|].
    intros [H | H]; [|contradiction].
    rewrite H in He. now destruct sh.
Qed.

Lemma points_assignment_witness :
  let g := state_of (setPoints (Vector3Array three_points)
                       (Some (fun t => t)) new_MeshLineGeometry) in
  let g' := state_of (points_setter (NumberArray [ofZ 1; ofZ 2; ofZ 3; ofZ 4])
                        g) in
  widthCallback g' = widthCallback g
  /\ points_getter g' = Ok (NumberArray [ofZ 1; ofZ 2; ofZ 3; ofZ 4]) g'.
Proof.
  intros g g'.
  destruct (points_assignment (NumberArray [ofZ 1; ofZ 2; ofZ 3; ofZ 4]) g
              ltac:(apply reachable_setPoints, reachable_new))
    as (_ & Hw & Hget & _).
  split; [exact Hw|]. apply Hget; [discriminate | simpl; lia].
Defined.

(* ===================================================================== *)
(** ** [advance] called again and again *)
(* ===================================================================== *)

Lemma rails_drop (W : list Vector3) (k : nat) :
  drop (k * 6) (flat_map rails W) = flat_map rails (drop k W).
Proof.
  revert k. induction W as [|p W IH]; intros [|k]; try reflexivity.
  exact (IH k).
Qed.

Lemma set_attributes_twice (a b : option Attributes) (g : MeshLineGeometry) :
  set_attributes a (set_attributes b g) = set_attributes a g.
Proof. now destruct g. Qed.

Lemma set_attributes_same (a : Attributes) (g : MeshLineGeometry) :
  priv_attributes g = Some a -> set_attributes (Some a) g = g.
Proof. destruct g. simpl. now intros ->. Qed.

Lemma wf_set_attributes (M : nat) (a : Attributes) (g : MeshLineGeometry) :
  (1 <= M)%nat -> sized M a -> wf (set_attributes (Some a) g).
Proof. intros HM Hs. destruct g. exists M. now split. Qed.

Lemma rails_stored (q : Vector3) : map toFloat32 (rails q) = rails (stored q).
Proof. reflexivity. Qed.

Lemma advanced_position (q : Vector3) (a : Attributes) (W : list Vector3) :
  W <> [] ->
  array (position a) = flat_map rails W ->
  array (position (advanced q a)) = flat_map rails (drop 1 W ++ [stored q]).
Proof.
  intros HW HP. unfold advanced.
  cbn [position array with_needsUpdate with_array].
  rewrite HP, rails_stored, flat_map_app. cbn [flat_map].
  rewrite app_nil_r. f_equal. exact (rails_drop W 1).
Qed.

(** The attribute objects after [advance] has been called for each point
    of [qs]: [position] holds the last points of [W] followed by the
    points of [qs] as a [Float32Array] stores them. *)
Lemma advance_each_ok (qs : list Vector3) :
  forall (g : MeshLineGeometry) (a : Attributes) (W : list Vector3) (M : nat),
  (1 <= M)%nat -> sized M a -> W <> [] ->
  priv_attributes g = Some a ->
  array (position a) = flat_map rails W ->
  exists a',
    advance_each qs g = Ok tt (set_attributes (Some a') g)
    /\ sized M a'
    /\ array (position a')
       = flat_map rails (drop (length qs) (W ++ map stored qs))
    /\ side a' = side a /\ width a' = width a /\ uv a' = uv a
    /\ index a' = index a /\ counters a' = counters a
    /\ ids_of a' = ids_of a.
Proof.
  induction qs as [|q qs IH]; intros g a W M HM Hs HW Ha HP.
  - exists a. cbn [advance_each ret length drop map].
    rewrite (set_attributes_same a g Ha), app_nil_r.
    split; [reflexivity|]. split; [exact Hs|]. repeat split; auto.
  - cbn [advance_each].
    assert (Hwf : wf g) by (unfold wf; rewrite Ha; now exists M).
    erewrite bind_Ok by (apply (advance_ok q g a Hwf Ha)).
    destruct (IH (set_attributes (Some (advanced q a)) g) (advanced q a)
                 (drop 1 W ++ [stored q]) M HM (advanced_sized q M a HM Hs))
      as (a' & E & Hs' & HP' & H1 & H2 & H3 & H4 & H5 & H6).
    + now destruct (drop 1 W).
    + now destruct g.
    + now apply advanced_position.
    + exists a'. rewrite E, set_attributes_twice.
      split; [reflexivity|]. split; [exact Hs'|].
      split.
      { rewrite HP'. f_equal. destruct W as [|w W]; [contradiction|].
        cbn [drop length app map]. rewrite drop_0, <- app_assoc.
        reflexivity. }
      rewrite H1, H2, H3, H4, H5, H6. repeat split.
Qed.

Lemma advance_each_snoc (qs : list Vector3) (q : Vector3)
  (g : MeshLineGeometry) :
  advance_each (qs ++ [q]) g = bind (advance_each qs) (fun _ => advance q) g.
Proof.
  revert g. induction qs as [|p qs IH]; intros g.
  - cbn [app advance_each]. unfold bind, ret.
    now destruct (advance q g) as [[] s|m s].
  - cbn [app advance_each]. unfold bind.
    destruct (advance p g) as [[] s|m s]; [|reflexivity].
    rewrite IH. reflexivity.
Qed.

(** X13: [advance] makes the line a queue of fixed length.  A point enters
    it as a [Float32Array] stores it, with its coordinates rounded to
    binary32 numbers.  After [advance] has been called for the points
    [qs ++ [q]] in turn, [position] holds the last points of what it held
    followed by the new points, [previous] holds what [position] held
    before the last call, and [next] is [position] moved on by one point
    with [q] at its end.  The other five attributes, and the identity of
    all eight objects, are as before. *)
Theorem advance_is_a_queue (qs : list Vector3) (q : Vector3)
  (W : list Vector3) (g : MeshLineGeometry) (a : Attributes) :
  reachable g -> priv_attributes g = Some a ->
  array (position a) = flat_map rails W ->
  exists a',
    advance_each (qs ++ [q]) g = Ok tt (set_attributes (Some a') g)
    /\ array (position a')
       = flat_map rails (drop (length qs + 1) (W ++ map stored (qs ++ [q])))
    /\ array (previous a')
       = flat_map rails (drop (length qs) (W ++ map stored qs))
    /\ array (next a')
       = flat_map rails (drop (length qs + 2) (W ++ map stored (qs ++ [q]))
                          ++ [stored q])
    /\ length (array (position a')) = length (array (position a))
    /\ side a' = side a /\ width a' = width a /\ uv a' = uv a
    /\ index a' = index a /\ counters a' = counters a
    /\ ids_of a' = ids_of a.
Proof.
  intros Hr Ha HP. pose proof (reachable_wf g Hr) as Hwf.
  unfold wf in Hwf. rewrite Ha in Hwf. destruct Hwf as (M & HM & Hs).
  assert (HW : W <> []).
  { intros ->. destruct Hs as (H1 & _). rewrite HP in H1. simpl in H1. lia. }
  assert (HlenW : length W = M).
  { destruct Hs as (H1 & _). rewrite HP, rails_length in H1. lia. }
  destruct (advance_each_ok qs g a W M HM Hs HW Ha HP)
    as (a1 & E & Hs1 & HP1 & H1 & H2 & H3 & H4 & H5 & H6).
  rewrite map_app. cbn [map].
  assert (HlenQ : length (map stored qs) = length qs) by apply length_map.
  set (Q := map stored qs) in *. set (sq := stored q).
  set (W1 := drop (length qs) (W ++ Q)) in *.
  assert (HlenW1 : length W1 = M).
  { unfold W1. rewrite length_drop, length_app. lia. }
  assert (HW1 : W1 <> []) by (intros E0; rewrite E0 in HlenW1; simpl in *; lia).
  assert (Hwindow : drop (length qs + 1) (W ++ Q ++ [sq]) = drop 1 W1 ++ [sq]).
  { unfold W1. rewrite app_assoc, drop_drop.
    rewrite (Nat.add_comm (length qs) 1) at 1.
    rewrite <- (drop_drop _ 1 (length qs)).
    rewrite drop_app_le by (rewrite length_app; lia).
    rewrite drop_drop. f_equal. f_equal. lia. }
  exists (advanced q a1).
  rewrite advance_each_snoc.
  erewrite bind_Ok by exact E.
  rewrite (advance_ok q _ a1); [| now apply (wf_set_attributes M)
                                | now destruct g].
  rewrite set_attributes_twice.
  pose proof (advanced_position q a1 W1 HW1 HP1) as HP2. fold sq in HP2.
  split; [reflexivity|].
  split; [now rewrite Hwindow|].
  split; [exact HP1|].
  split.
  { unfold advanced at 1.
    cbn [next array with_needsUpdate with_array].
    change (drop 6 (array (position a1)) ++ map toFloat32 (rails q))
      with (array (position (advanced q a1))).
    rewrite HP2, rails_stored. fold sq.
    replace (length qs + 2)%nat with ((length qs + 1) + 1)%nat by lia.
    rewrite <- drop_drop, Hwindow.
    set (X := drop 1 W1 ++ [sq]).
    rewrite flat_map_app. cbn [flat_map].
    rewrite app_nil_r. f_equal. exact (rails_drop X 1). }
  split.
  { rewrite HP2, HP, !rails_length, length_app, length_drop. simpl. lia. }
  unfold advanced at 1 2 3 4 5.
  cbn [side width uv index counters].
  rewrite H1, H2, H3, H4, H5. repeat split.
  rewrite <- H6. reflexivity.
Qed.

(** Two points advanced into a line of three; the second has a coordinate
    1/10, which enters the arrays as 13421773 / 2^27. *)
Lemma advance_is_a_queue_witness :
  let g := state_of (setPoints (Vector3Array three_points) None
                       new_MeshLineGeometry) in
  let q := Vector3.mk (Fin (1 # 10)) (ofZ 0) (ofZ 0) in
  let sq := Vector3.mk (Fin (13421773 # 134217728)) (ofZ 0) (ofZ 0) in
  exists a a',
    reachable g
    /\ priv_attributes g = Some a
    /\ array (position a) = flat_map rails three_points
    /\ advance_each [xyz 3 0 0; q] g = Ok tt (set_attributes (Some a') g)
    /\ array (position a') = flat_map rails [xyz 2 0 0; xyz 3 0 0; sq]
    /\ array (previous a')
       = flat_map rails [xyz 1 0 0; xyz 2 0 0; xyz 3 0 0]
    /\ array (next a') = flat_map rails [xyz 3 0 0; sq; sq].
Proof.
  set (g := state_of (setPoints (Vector3Array three_points) None
                        new_MeshLineGeometry)).
  set (a := attributes_after (Vector3Array three_points) three_points None
              new_MeshLineGeometry).
  intros g0 q sq. subst g0.
  assert (Hr : reachable g) by apply reachable_setPoints, reachable_new.
  assert (Ha : priv_attributes g = Some a) by reflexivity.
  assert (HP : array (position a) = flat_map rails three_points)
    by reflexivity.
  destruct (advance_is_a_queue [xyz 3 0 0] q three_points g a
              Hr Ha HP) as (a' & E & H1 & H2 & H3 & _).
  exists a, a'.
  split; [exact Hr|]. split; [exact Ha|]. split; [exact HP|].
  split; [exact E|]. split; [exact H1|]. split; [exact H2 | exact H3].
Defined.

(* ===================================================================== *)
(** ** [memcpy] between two arrays *)
(* ===================================================================== *)

(** A loop whose first [m] iterations go through and whose next one
    throws. *)
Lemma for_loop_throws_at {S} (F : nat -> S) (n m : nat) (j0 step : Z)
  (body : Z -> M S unit) (msg : string) (s' : S) :
  (m < n)%nat ->
  (forall k, (k < m)%nat ->
     body (j0 + Z.of_nat k * step) (F k) = Ok tt (F (Datatypes.S k))) ->
  body (j0 + Z.of_nat m * step) (F m) = Throw msg s' ->
  for_loop n j0 step body (F 0%nat) = Throw msg s'.
Proof.
  revert F n j0. induction m as [|m IH]; intros F n j0 Hlt Hbody Hthrow.
  - destruct n as [|n]; [lia|]. cbn [for_loop]. apply bind_Throw.
    rewrite <- Hthrow. f_equal. lia.
  - destruct n as [|n]; [lia|]. cbn [for_loop].
    pose proof (Hbody 0%nat ltac:(lia)) as H0.
    replace (j0 + Z.of_nat 0 * step) with j0 in H0 by lia.
    erewrite bind_Ok by exact H0.
    apply (IH (fun k => F (Datatypes.S k)) n (j0 + step)); [lia| |].
    + intros k Hk. rewrite <- (Hbody (Datatypes.S k)) by lia. f_equal. lia.
    + rewrite <- Hthrow. f_equal. lia.
Qed.

Lemma copy_one_at {A} (S D : list A) (b d i : nat) (v : A) :
  (d + i < length D)%nat -> S !! (i + b)%nat = Some v ->
  <[(d + i)%nat := v]> (take d D ++ take i (drop b S) ++ drop (d + i) D)
  = take d D ++ take (Datatypes.S i) (drop b S)
      ++ drop (d + Datatypes.S i) D.
Proof.
  intros Hi Hv.
  rewrite insert_app_r_alt by (rewrite length_take; lia).
  rewrite length_take, Nat.min_l by lia.
  replace (d + i - d)%nat with i by lia.
  f_equal. rewrite <- !drop_drop.
  apply copy_one; [rewrite length_drop; lia | exact Hv].
Qed.

Section TwoArrays.
Context (src dst : Lens Attributes (list num)).
Hypothesis view_update : forall v a, view dst (update dst v a) = v.
Hypothesis update_update :
  forall v w a, update dst v (update dst w a) = update dst v a.
Hypothesis update_view : forall a, update dst (view dst a) a = a.
Hypothesis apart : forall v a, view src (update dst v a) = view src a.

(** The [k] first iterations of the loop of [memcpy], when both arrays
    are long enough for them. *)
Lemma memcpy_body_copies (a : Attributes) (b d i : nat) :
  (b + i < length (view src a))%nat ->
  (d + i < length (view dst a))%nat ->
  let S := view src a in
  let D := view dst a in
  memcpy_body src (Z.of_nat b) dst (Z.of_nat d) (0 + Z.of_nat i * 1)
    (update dst (take d D ++ take i (drop b S) ++ drop (d + i) D) a)
  = Ok tt (update dst (take d D ++ take (Datatypes.S i) (drop b S)
                         ++ drop (d + Datatypes.S i) D) a).
Proof.
  intros HS HD S D. unfold memcpy_body. cbn [bind get].
  rewrite apart.
  replace (0 + Z.of_nat i * 1 + Z.of_nat b) with (Z.of_nat (i + b)) by lia.
  rewrite at_index_nat.
  destruct (lookup_lt_is_Some_2 (view src a) (i + b)) as [v Hv]; [lia|].
  rewrite Hv. unfold modify. f_equal.
  rewrite view_update, update_update. f_equal.
  unfold typed_write.
  destruct (Z.ltb_spec (0 + Z.of_nat i * 1 + Z.of_nat d) 0); [lia|].
  replace (Z.to_nat (0 + Z.of_nat i * 1 + Z.of_nat d)) with (d + i)%nat
    by lia.
  now apply copy_one_at.
Qed.

(** All that [memcpy] can do with two different arrays. *)
Lemma memcpy_two_arrays (a : Attributes) (b d n : nat) :
  let S := view src a in
  let D := view dst a in
  memcpy src (Z.of_nat b) dst (Z.of_nat d) (Z.of_nat n) a
  = if (length D <? d + n)%nat
    then Throw "Not enough space to copy from src to dst." a
    else if ((n =? 0) || (b + n <=? length S))%nat
    then Ok tt (update dst (take d D ++ take n (drop b S)
                              ++ drop (d + n) D) a)
    else Throw "missing src value"
           (update dst (take d D ++ drop b S
                          ++ drop (d + (length S - b)) D) a).
Proof.
  intros S D. unfold memcpy. cbn [bind get]. fold D.
  destruct (Nat.ltb_spec (length D) (d + n)) as [Hbig|Hfit].
  - destruct (Z.gtb_spec (Z.of_nat d + Z.of_nat n) (Z.of_nat (length D)));
      [reflexivity | lia].
  - destruct (Z.gtb_spec (Z.of_nat d + Z.of_nat n) (Z.of_nat (length D)));
      [lia|].
    rewrite Nat2Z.id.
    set (F := fun i => update dst (take d D ++ take i (drop b S)
                                     ++ drop (d + i) D) a).
    assert (HF0 : F 0%nat = a).
    { unfold F. rewrite Nat.add_0_r. change (take 0 (drop b S)) with (@nil num).
      cbn [app]. rewrite take_drop. apply update_view. }
    destruct (Nat.eqb_spec n 0) as [->|Hn];
      [cbn [orb for_loop ret]; now rewrite <- HF0 at 1|].
    cbn [orb].
    destruct (Nat.leb_spec (b + n) (length S)) as [Hsrc|Hshort].
    + rewrite <- HF0 at 1. apply (for_loop_states F). intros i Hi.
      apply memcpy_body_copies; fold S; fold D; lia.
    + rewrite <- HF0 at 1.
      replace (take d D ++ drop b S ++ drop (d + (length S - b)) D)
        with (take d D ++ take (length S - b) (drop b S)
                ++ drop (d + (length S - b)) D)
        by (rewrite (take_ge (drop b S)) by (rewrite length_drop; lia);
            reflexivity).
      apply (for_loop_throws_at F n (length S - b)); [lia| |].
      * intros i Hi. apply memcpy_body_copies; fold S; fold D; lia.
      * unfold memcpy_body. cbn [bind get]. unfold F. rewrite apart.
        fold S. unfold at_index.
        destruct (Z.ltb_spec (0 + Z.of_nat (length S - b) * 1 + Z.of_nat b) 0);
          [lia|].
        rewrite (proj2 (lookup_ge_None S _)) by lia. reflexivity.
Qed.

End TwoArrays.

(** X14: [memcpy(position, b, next, d, n)], two different arrays, for every
    choice of the three numbers: when [d + n] exceeds the length of the
    destination nothing is written and the call throws; otherwise elements
    [b .. b + n - 1] of the source replace elements [d .. d + n - 1] of
    the destination and nothing else changes; except that a source that
    ends before [b + n] makes the call throw after it has copied what the
    source had. *)
Theorem memcpy_between_arrays (a : Attributes) (b d n : nat) :
  let S := array (position a) in
  let D := array (next a) in
  memcpy (array_of position_) (Z.of_nat b) (array_of next_) (Z.of_nat d)
         (Z.of_nat n) a
  = if (length D <? d + n)%nat
    then Throw "Not enough space to copy from src to dst." a
    else if ((n =? 0) || (b + n <=? length S))%nat
    then Ok tt (update (array_of next_)
                  (take d D ++ take n (drop b S) ++ drop (d + n) D) a)
    else Throw "missing src value"
           (update (array_of next_)
              (take d D ++ drop b S ++ drop (d + (length S - b)) D) a).
Proof.
  apply (memcpy_two_arrays (array_of position_) (array_of next_)).
  - reflexivity.
  - reflexivity.
  - intros [p v [ni Nx ns nn] sd wd u ix cn]. reflexivity.
  - reflexivity.
Qed.

(* ===================================================================== *)
(** ** [MeshLineRaycast] on every input *)
(* ===================================================================== *)

Section Scanning.
Context `{Three}.
Variable mesh : Mesh.
Variable raycaster : Raycaster.

(** One turn of the scan, whatever the numbers are. *)
Lemma raycast_body_turn (indices : list Z) (l i a b : Z) (s : PickState) :
  at_index indices i = Some a -> at_index indices (i + 1) = Some b ->
  let t := default (ofZ 1) (params_Line s) in
  raycast_body mesh raycaster (local_ray mesh raycaster) indices l i s
  = if not_skipped mesh raycaster indices t i
    then Ok l (mkPickState
                 (intersects s ++ [entry_at mesh raycaster indices i])
                 (Some t) (boundingSphere s))
    else Ok i (mkPickState (intersects s) (Some t) (boundingSphere s)).
Proof.
  intros Ha Hb t.
  unfold not_skipped, entry_at, hit_distance, hit_point,
    segment_distSq, segment_measure, raycast_body.
  rewrite Ha, Hb. change (default 0 (Some a)) with a.
  change (default 0 (Some b)) with b.
  unfold bind at 1. unfold modify at 1.
  unfold bind at 1. unfold get at 1.
  cbn [params_Line intersects boundingSphere].
  change (default (ofZ 1) (Some (default (ofZ 1) (params_Line s))))
    with t.
  fold (pick_radius mesh t i).
  destruct (distanceSqToSegment (local_ray mesh raycaster)
              (fromArray (position_array mesh) (a * 3))
              (fromArray (position_array mesh) (b * 3)))
    as [[distSq interRay] interSegment].
  cbn [fst snd].
  destruct (ngt distSq _); [reflexivity|].
  destruct (nlt _ (near raycaster) || ngt _ (far raycaster)); reflexivity.
Qed.

(** The scan from index [i] on: it returns, having recorded the first
    scanned index that neither test skips, and nothing else. *)
Lemma raycast_loop_run (indices : list Z) (n : nat) :
  forall (fuel : nat) (i : Z) (s : PickState),
    let l := Z.of_nat (length indices) - 1 in
    let t := default (ofZ 1) (params_Line s) in
    0 <= i ->
    n = trips (l - i) (raycast_step mesh) ->
    (n < fuel)%nat ->
    exists s',
      raycast_loop mesh raycaster fuel (local_ray mesh raycaster) indices l i s
      = Ok tt s'
      /\ intersects s'
         = intersects s
           ++ match List.find (not_skipped mesh raycaster indices t)
                      (scanned mesh i n) with
              | Some j => [entry_at mesh raycaster indices j]
              | None => []
              end
      /\ boundingSphere s' = boundingSphere s
      /\ params_Line s' = match n with
                          | O => params_Line s
                          | Datatypes.S _ => Some t
                          end.
Proof.
  pose proof (raycast_step_pos mesh) as Hstep.
  induction n as [|n IH]; intros fuel i s l t Hi Hn Hfuel.
  - destruct fuel as [|fuel]; [lia|]. simpl.
    destruct (Z.ltb_spec i l) as [Hlt|Hge].
    + rewrite (trips_next mesh l i Hlt) in Hn. discriminate.
    + exists s. split; [reflexivity|]. now rewrite app_nil_r.
  - destruct fuel as [|fuel]; [lia|].
    assert (Hlt : i < l).
    { destruct (Z.lt_ge_cases i l) as [|Hge]; [assumption|].
      rewrite (trips_done mesh l i Hge) in Hn. discriminate. }
    rewrite (trips_next mesh l i Hlt) in Hn. injection Hn as Hn.
    rewrite scanned_S.
    cbn [raycast_loop].
    destruct (Z.ltb_spec i l) as [_|]; [|lia].
    destruct (lookup_lt_is_Some_2 indices (Z.to_nat i)) as [a Ha];
      [subst l; lia|].
    destruct (lookup_lt_is_Some_2 indices (Z.to_nat (i + 1))) as [b Hb];
      [subst l; lia|].
    assert (Ha' : at_index indices i = Some a).
    { unfold at_index. destruct (Z.ltb_spec i 0); [lia | exact Ha]. }
    assert (Hb' : at_index indices (i + 1) = Some b).
    { unfold at_index. destruct (Z.ltb_spec (i + 1) 0); [lia | exact Hb]. }
    unfold bind at 1.
    rewrite (raycast_body_turn indices l i a b s Ha' Hb').
    fold t. cbn [List.find].
    destruct (not_skipped mesh raycaster indices t i).
    + destruct fuel as [|fuel]; [lia|]. cbn [raycast_loop].
      destruct (Z.ltb_spec (l + raycast_step mesh) l); [lia|].
      eexists. split; [reflexivity|]. repeat split.
    + destruct (IH fuel (i + raycast_step mesh)
                  (mkPickState (intersects s) (Some t) (boundingSphere s)))
        as (s' & E & Hint & Hb1 & Hp1); [lia | exact Hn | lia |].
      exists s'. split; [exact E|].
      cbn [params_Line intersects boundingSphere default] in Hint, Hb1, Hp1.
      split; [exact Hint|]. split; [exact Hb1|].
      rewrite Hp1. now destruct n.
Qed.

(** Enough fuel is handed to the scan. *)
Lemma raycast_fuel (indices : list Z) :
  (trips (Z.of_nat (length indices) - 1 - 0) (raycast_step mesh)
   < Datatypes.S (Z.to_nat (Z.of_nat (length indices) - 1)))%nat.
Proof.
  pose proof (raycast_step_pos mesh). unfold trips. rewrite Z.sub_0_r.
  assert ((Z.of_nat (length indices) - 1 + raycast_step mesh - 1)
            / raycast_step mesh
          <= Z.max 0 (Z.of_nat (length indices) - 1)).
  { apply Z.lt_succ_r. apply Z.div_lt_upper_bound; nia. }
  lia.
Qed.

(** The whole of [MeshLineRaycast], on every input. *)
Lemma raycast_run (s : PickState) :
  let sphere0 :=
    default (computeBoundingSphere (position_array mesh)) (boundingSphere s) in
  let t := default (ofZ 1) (params_Line s) in
  exists s',
    MeshLineRaycast mesh raycaster s = Ok tt s'
    /\ boundingSphere s' = Some sphere0
    /\ params_Line s'
       = (if scan_entered mesh raycaster s then Some t else params_Line s)
    /\ intersects s'
       = intersects s
         ++ match intersectSphere (ray raycaster)
                    (Sphere_applyMatrix4 sphere0 (matrixWorld mesh)),
                  geometry_index_array mesh with
            | Some _, Some indices =>
                match List.find (not_skipped mesh raycaster indices t)
                        (pick_candidates mesh indices) with
                | Some j => [entry_at mesh raycaster indices j]
                | None => []
                end
            | _, _ => []
            end.
Proof.
  intros sphere0 t. unfold MeshLineRaycast, scan_entered. cbn [bind get].
  fold sphere0.
  set (s1 := mkPickState (intersects s) (params_Line s) (Some sphere0)).
  set (s2 := match boundingSphere s with Some _ => s | None => s1 end).
  assert (E : forall k : Pick unit,
    (match boundingSphere s with
     | Some _ => ret tt
     | None => modify (fun s => mkPickState (intersects s) (params_Line s)
                 (Some (computeBoundingSphere (position_array mesh))))
     end ;; k) s = k s2).
  { intros k. unfold s2, s1, sphere0. destruct (boundingSphere s); reflexivity. }
  rewrite E. clear E.
  assert (Hs2 : boundingSphere s2 = Some sphere0
                /\ intersects s2 = intersects s
                /\ params_Line s2 = params_Line s).
  { unfold s2, s1, sphere0. destruct (boundingSphere s) eqn:Hb;
      repeat split; auto. }
  destruct Hs2 as (Hb2 & Hi2 & Hp2).
  cbn [bind get]. rewrite Hb2.
  destruct (intersectSphere (ray raycaster)
              (Sphere_applyMatrix4 sphere0 (matrixWorld mesh))).
  2:{ exists s2. split; [reflexivity|]. rewrite Hb2, Hp2, Hi2, app_nil_r.
      repeat split. }
  destruct (geometry_index_array mesh) as [indices|].
  2:{ exists s2. split; [reflexivity|]. rewrite Hb2, Hp2, Hi2, app_nil_r.
      repeat split. }
  destruct (raycast_loop_run indices
              (trips (Z.of_nat (length indices) - 1 - 0) (raycast_step mesh))
              (Datatypes.S (Z.to_nat (Z.of_nat (length indices) - 1))) 0 s2)
    as (s' & Hloop & Hint & Hb' & Hp');
    [lia | reflexivity | apply raycast_fuel |].
  exists s'. split; [exact Hloop|].
  rewrite Hb', Hb2, Hint, Hi2, Hp', Hp2. fold t.
  split; [reflexivity|]. split.
  - destruct (Z.ltb_spec 1 (Z.of_nat (length indices))) as [Hl|Hl].
    + rewrite (trips_next mesh _ 0) by lia. reflexivity.
    + rewrite (trips_done mesh _ 0) by lia. reflexivity.
  - unfold pick_candidates. now rewrite Z.sub_0_r.
Qed.

End Scanning.

Lemma ngt_NaN (a b : num) : isNaN a = true -> ngt a b = false.
Proof. destruct a; [reflexivity | discriminate | discriminate]. Qed.

Lemma nle_NaN (a b : num) : isNaN a = true -> nle a b = false.
Proof. destruct a; [reflexivity | discriminate | discriminate]. Qed.

(** X15: [MeshLineRaycast] returns normally on every mesh, ray and state,
    whatever numbers the measurements give: the index check of the scan
    cannot fire and the scan ends.  It keeps the entries [intersects] had
    and appends at most one: that of the first scanned index that neither
    test of the source skips. *)
Theorem raycast_always_returns `{Three} (mesh : Mesh) (raycaster : Raycaster)
  (s : PickState) :
  exists s',
    MeshLineRaycast mesh raycaster s = Ok tt s'
    /\ (intersects s' = intersects s
        \/ exists indices i,
             geometry_index_array mesh = Some indices
             /\ In i (pick_candidates mesh indices)
             /\ 0 <= i < Z.of_nat (length indices) - 1
             /\ not_skipped mesh raycaster indices
                  (default (ofZ 1) (params_Line s)) i = true
             /\ intersects s'
                = intersects s ++ [entry_at mesh raycaster indices i])
    /\ (length (intersects s') <= length (intersects s) + 1)%nat.
Proof.
  destruct (raycast_run mesh raycaster s) as (s' & E & _ & _ & Hint).
  cbv zeta in Hint. exists s'. split; [exact E|].
  assert (Hcases : intersects s' = intersects s
        \/ exists indices i,
             geometry_index_array mesh = Some indices
             /\ In i (pick_candidates mesh indices)
             /\ 0 <= i < Z.of_nat (length indices) - 1
             /\ not_skipped mesh raycaster indices
                  (default (ofZ 1) (params_Line s)) i = true
             /\ intersects s'
                = intersects s ++ [entry_at mesh raycaster indices i]).
  { destruct (intersectSphere _ _);
      [|left; now rewrite Hint, app_nil_r].
    destruct (geometry_index_array mesh) as [indices|];
      [|left; now rewrite Hint, app_nil_r].
    destruct (List.find _ _) as [i|] eqn:Hfind;
      [|left; now rewrite Hint, app_nil_r].
    right. exists indices, i. apply find_some in Hfind.
    destruct Hfind as (Hin & Hpass).
    split; [reflexivity|]. split; [exact Hin|]. split; [|now split].
    pose proof (raycast_step_pos mesh) as Hstep.
    unfold pick_candidates, scanned in Hin.
    rewrite <- (raycast_step_as_specified mesh) in Hin.
    apply in_map_iff in Hin. destruct Hin as (k & <- & Hk).
    apply in_seq in Hk. unfold trips in Hk.
    set (l := Z.of_nat (length indices) - 1) in *.
    set (st := raycast_step mesh) in *.
    assert (Hq : Z.of_nat k < (l + st - 1) / st) by lia.
    assert (Hk' : Z.of_nat k * st < l + st - 1 - (st - 1)).
    { pose proof (Z.div_mod (l + st - 1) st ltac:(lia)).
      pose proof (Z.mod_pos_bound (l + st - 1) st ltac:(lia)).
      nia. }
    nia. }
  split; [exact Hcases|].
  destruct Hcases as [-> | (indices & i & _ & _ & _ & _ & ->)];
    [lia | rewrite length_app; simpl; lia].
Qed.

(** X16: What [MeshLineRaycast] writes besides [intersects]: the bounding
    sphere of the geometry is computed when it is missing and never
    replaced when it is there; [raycaster.params.Line] is created with
    threshold 1 when it is missing and the scan is entered, and a
    threshold that is there is never changed. *)
Theorem raycast_side_effects `{Three} (mesh : Mesh) (raycaster : Raycaster)
  (s : PickState) :
  exists s',
    MeshLineRaycast mesh raycaster s = Ok tt s'
    /\ boundingSphere s'
       = Some (default (computeBoundingSphere (position_array mesh))
                       (boundingSphere s))
    /\ (forall b, boundingSphere s = Some b -> boundingSphere s' = Some b)
    /\ (forall t, params_Line s = Some t -> params_Line s' = Some t)
    /\ (params_Line s = None ->
        params_Line s'
        = if scan_entered mesh raycaster s then Some (ofZ 1) else None).
Proof.
  destruct (raycast_run mesh raycaster s) as (s' & E & Hb & Hp & _).
  cbv zeta in Hb, Hp. exists s'. split; [exact E|]. split; [exact Hb|].
  split; [intros b Hs; now rewrite Hb, Hs|].
  split.
  - intros t Ht. rewrite Hp, Ht. now destruct (scan_entered _ _ _).
  - intros Hn. now rewrite Hp, Hn.
Qed.

(** X17: A segment whose squared distance to the ray is NaN (as it is when an
    index names a vertex the position array does not have) is not skipped
    by the test [distSq > precisionSq]: when it is the first of the scan
    and its distance is in range it is recorded, although its squared
    distance is not at most the squared radius. *)
Theorem raycast_records_NaN_segment `{Three} (mesh : Mesh)
  (raycaster : Raycaster) (s : PickState) (indices : list Z) :
  is_Some (intersectSphere (ray raycaster)
             (Sphere_applyMatrix4
                (default (computeBoundingSphere (position_array mesh))
                         (boundingSphere s))
                (matrixWorld mesh))) ->
  geometry_index_array mesh = Some indices ->
  (1 < length indices)%nat ->
  isNaN (segment_distSq mesh raycaster indices 0) = true ->
  nlt (hit_distance mesh raycaster indices 0) (near raycaster) = false ->
  ngt (hit_distance mesh raycaster indices 0) (far raycaster) = false ->
  exists s',
    MeshLineRaycast mesh raycaster s = Ok tt s'
    /\ intersects s' = intersects s ++ [entry_at mesh raycaster indices 0]
    /\ pick_accepts mesh raycaster indices
         (default (ofZ 1) (params_Line s)) 0 = false.
Proof.
  intros [v Hsphere] Hidx Hlen Hnan Hnear Hfar.
  destruct (raycast_run mesh raycaster s) as (s' & E & _ & _ & Hint).
  cbv zeta in Hint. rewrite Hsphere, Hidx in Hint.
  exists s'. split; [exact E|]. split.
  - rewrite Hint. f_equal. unfold pick_candidates.
    rewrite <- (Z.sub_0_r (Z.of_nat (length indices) - 1)).
    rewrite (trips_next mesh _ 0) by lia. rewrite scanned_S.
    cbn [List.find]. unfold not_skipped.
    now rewrite (ngt_NaN _ _ Hnan), Hnear, Hfar.
  - unfold pick_accepts. now apply nle_NaN.
Qed.

Lemma raycast_records_NaN_segment_witness :
  isNaN (@segment_distSq toy_three dangling_mesh toy_raycaster [7; 8] 0)
  = true
  /\ exists s',
       @MeshLineRaycast toy_three dangling_mesh toy_raycaster toy_state
       = Ok tt s'
       /\ intersects s' = [mkIntersection (ofZ 0) (Vector3.mk NaN NaN NaN) 0].
Proof.
  split; [reflexivity|].
  destruct (@raycast_records_NaN_segment toy_three dangling_mesh
              toy_raycaster toy_state [7; 8])
    as (s' & E & Hint & _).
  - eexists. reflexivity.
  - reflexivity.
  - simpl. lia.
  - reflexivity.
  - reflexivity.
  - reflexivity.
  - exists s'. split; [exact E|]. rewrite Hint. reflexivity.
Defined.

(* ===================================================================== *)
(** ** [MeshLineMaterial.copy] *)
(* ===================================================================== *)

(** X19: [this.copy(source)] from another material gives the sixteen uniforms
    the values they have in [source], whatever they were and whatever
    [super.copy(this)] made of them.  This includes [useDash] where the
    source has it at odds with [dashArray]: the setter of [dashArray]
    derives [useDash], but [copy] assigns [useDash] after [dashArray]. *)
Theorem material_copy_from_another `{ShaderMaterial} (source u : Uniforms) :
  material_copy (Another source) u = Ok tt source.
Proof.
  destruct source as [a1 a2 a3 a4 a5 [c1 c2 c3] a7 [r1 r2] a9 a10 a11 a12
                        a13 a14 a15 [p1 p2]].
  reflexivity.
Qed.

(** X20: [this.copy(this)] is not the identity: the setter of [dashArray]
    resets [useDash] to [dashArray !== 0] before [useDash] is read back,
    so a material whose [useDash] was at odds with its [dashArray] loses
    it.  The other fifteen values are what [super.copy(this)] left. *)
Theorem material_copy_from_itself `{ShaderMaterial} (u : Uniforms) :
  material_copy Itself u
  = Ok tt (with_useDash (negb (strict_eq (u_dashArray (super_copy u)) (ofZ 0)))
             (super_copy u)).
Proof.
  unfold material_copy. cbn [bind modify].
  destruct (super_copy u) as [a1 a2 a3 a4 a5 [c1 c2 c3] a7 [r1 r2] a9 a10
                                a11 a12 a13 a14 a15 [p1 p2]].
  cbv [with_useDash u_dashArray]. 
  destruct (negb (strict_eq a10 (ofZ 0))) eqn:E;
    cbv -[strict_eq ofZ negb]; rewrite E; reflexivity.
Qed.

(* ===================================================================== *)
(** ** The scan of [MeshLineRaycast] over a line made by [setPoints] *)
(* ===================================================================== *)

(** The vertex [2 p + r] of a ribbon, read as [fromArray] reads it, is
    point [p]. *)
Lemma fromArray_rails (pts : list Vector3) (p r : Z) :
  0 <= p < Z.of_nat (length pts) -> 0 <= r < 2 ->
  fromArray (flat_map rails pts) ((2 * p + r) * 3)
  = nth_point pts (Z.to_nat p).
Proof.
  intros Hp Hr. unfold fromArray.
  pose proof (nth_point_lookup pts (Z.to_nat p) ltac:(lia)) as Hl.
  assert (Hc : forall c, (c < 3)%nat ->
            at_index (flat_map rails pts) ((2 * p + r) * 3 + Z.of_nat c)
            = rails (nth_point pts (Z.to_nat p)) !! c).
  { intros c Hc.
    replace ((2 * p + r) * 3 + Z.of_nat c)
      with (Z.of_nat (Z.to_nat p) * itemSize
            + Z.of_nat (Z.to_nat (3 * r) + c)) by (unfold itemSize; lia).
    rewrite at_index_rails by lia. rewrite Hl. cbn [mbind option_bind].
    assert (r = 0 \/ r = 1) as [-> | ->] by lia; [reflexivity|].
    destruct c as [|[|[|c]]]; [reflexivity | reflexivity | reflexivity | lia]. }
  pose proof (Hc 0%nat ltac:(lia)) as H0.
  pose proof (Hc 1%nat ltac:(lia)) as H1.
  pose proof (Hc 2%nat ltac:(lia)) as H2.
  rewrite Z.add_0_r in H0.
  change (Z.of_nat 1) with 1 in H1. change (Z.of_nat 2) with 2 in H2.
  rewrite H0, H1, H2. now destruct (nth_point pts (Z.to_nat p)).
Qed.

Lemma quad_at (j : Z) :
  at_index (quad j) 0 = Some (j * 2)
  /\ at_index (quad j) 1 = Some (j * 2 + 1)
  /\ at_index (quad j) 2 = Some (j * 2 + 2)
  /\ at_index (quad j) 3 = Some (j * 2 + 2)
  /\ at_index (quad j) 4 = Some (j * 2 + 1)
  /\ at_index (quad j) 5 = Some (j * 2 + 3).
Proof. repeat split. Qed.

(** The pair of vertex numbers at index [i] of the triangle indices. *)
Lemma indices_of_pair (N : nat) (i : Z) :
  0 <= i < Z.of_nat (length (indices_of N)) - 1 ->
  exists ra rb,
    0 <= ra < 2 /\ 0 <= rb < 2
    /\ at_index (indices_of N) i = Some (2 * fst (scan_ends i) + ra)
    /\ at_index (indices_of N) (i + 1) = Some (2 * snd (scan_ends i) + rb)
    /\ 0 <= i / 6 /\ i / 6 + 1 < Z.of_nat N
    /\ (fst (scan_ends i) = i / 6 \/ fst (scan_ends i) = i / 6 + 1)
    /\ (snd (scan_ends i) = i / 6 \/ snd (scan_ends i) = i / 6 + 1).
Proof.
  rewrite indices_of_length. intros Hi.
  pose proof (Z.div_mod i 6 ltac:(lia)) as Hdm.
  pose proof (Z.mod_pos_bound i 6 ltac:(lia)) as Hc.
  unfold scan_ends.
  set (j := i / 6) in *. set (c := i mod 6) in *.
  assert (Hj : 0 <= j < Z.of_nat N - 1) by lia.
  assert (Ha : at_index (indices_of N) i = at_index (quad j) c)
    by (rewrite Hdm; apply indices_of_at; lia).
  assert (Hb : c <> 5 ->
               at_index (indices_of N) (i + 1) = at_index (quad j) (c + 1)).
  { intros E. replace (i + 1) with (6 * j + (c + 1)) by lia.
    apply indices_of_at; lia. }
  assert (Hb5 : c = 5 ->
                at_index (indices_of N) (i + 1) = Some ((j + 1) * 2)).
  { intros E. replace (i + 1) with (6 * (j + 1) + 0) by lia.
    rewrite indices_of_at by lia. apply quad_at. }
  destruct (quad_at j) as (Q0 & Q1 & Q2 & Q3 & Q4 & Q5).
  rewrite Ha.
  assert (Hcases : c = 0 \/ c = 1 \/ c = 2 \/ c = 3 \/ c = 4 \/ c = 5)
    by lia.
  destruct Hcases as [E | [E | [E | [E | [E | E]]]]].
  - rewrite Hb by lia. replace (c + 1) with 1 by lia. rewrite E.
    cbn [fst snd]. rewrite Q0, Q1. exists 0, 1. repeat split; try lia; f_equal; lia.
  - rewrite Hb by lia. replace (c + 1) with 2 by lia. rewrite E.
    cbn [fst snd]. rewrite Q1, Q2. exists 1, 0. repeat split; try lia; f_equal; lia.
  - rewrite Hb by lia. replace (c + 1) with 3 by lia. rewrite E.
    cbn [fst snd]. rewrite Q2, Q3. exists 0, 0. repeat split; try lia; f_equal; lia.
  - rewrite Hb by lia. replace (c + 1) with 4 by lia. rewrite E.
    cbn [fst snd]. rewrite Q3, Q4. exists 0, 1. repeat split; try lia; f_equal; lia.
  - rewrite Hb by lia. replace (c + 1) with 5 by lia. rewrite E.
    cbn [fst snd]. rewrite Q4, Q5. exists 1, 1. repeat split; try lia; f_equal; lia.
  - rewrite (Hb5 E). rewrite E. cbn [fst snd].
    rewrite Q5. exists 1, 0. repeat split; try lia; f_equal; lia.
Qed.

(** The vertices [fromArray] reads in an array stored as binary32
    values. *)
Lemma fromArray_stored (l : list num) (o : Z) :
  fromArray (map toFloat32 l) o = stored (fromArray l o).
Proof.
  unfold fromArray, stored. rewrite !at_index_map. cbn [Vector3.x Vector3.y Vector3.z].
  destruct (at_index l o), (at_index l (o + 1)), (at_index l (o + 2));
    reflexivity.
Qed.

(** X18: Picking on a line made by [setPoints] from two points or more (up
    to 32768, where the stored indices are the generated ones): the index
    pair scanned at [i] joins two points of the input as the [position]
    attribute stores them, both among points [i / 6] and [i / 6 + 1], so
    that every pair is measured on existing vertices; the pairs at
    offsets 0, 2 and 5 of every six are a single point, those at offsets
    1, 3 and 4 the segment; the radius is taken from the stored width of
    point [i / 6], never from the default. *)
Theorem scan_measures_line_points `{Three} (sh : Shape) (pts : list Vector3)
  (wcb : option (num -> num)) (g : MeshLineGeometry) :
  (2 <= length pts)%nat -> Z.of_nat (length pts) <= 32768 -> reachable g ->
  exists g' a,
    setPoints (encode sh pts) wcb g = Ok tt g'
    /\ priv_attributes g' = Some a
    /\ forall (m : Matrix4) (w : num) (segments : bool)
              (raycaster : Raycaster) (t : num) (i : Z),
         let mesh := line_mesh m w segments a in
         0 <= i < Z.of_nat (length (array (index a))) - 1 ->
         let p := fst (scan_ends i) in
         let q := snd (scan_ends i) in
         0 <= i / 6 /\ i / 6 + 1 < Z.of_nat (length pts)
         /\ (p = i / 6 \/ p = i / 6 + 1) /\ (q = i / 6 \/ q = i / 6 + 1)
         /\ (p = q <-> i mod 6 = 0 \/ i mod 6 = 2 \/ i mod 6 = 5)
         /\ segment_measure mesh raycaster (array (index a)) i
            = distanceSqToSegment (local_ray mesh raycaster)
                (stored (nth_point pts (Z.to_nat p)))
                (stored (nth_point pts (Z.to_nat q)))
         /\ pick_radius mesh t i
            = nadd t (ndiv (nmul w (toFloat32
                                      (width_at (callback_in_force wcb g)
                                                (length pts) (i / 6))))
                           (ofZ 2)).
Proof.
  intros HN Hsmall Hr. pose proof (reachable_wf g Hr) as Hwf.
  assert (Hp : processable pts) by (split; [lia | intros; lia]).
  exists (after_setPoints (encode sh pts) pts wcb g),
         (attributes_after (encode sh pts) pts wcb g).
  pose proof (attributes_after_arrays (encode sh pts) pts wcb g Hp Hwf)
    as (Hpos & _ & _ & _ & Hwid & _ & Hidx & _).
  cbv zeta in Hpos, Hwid, Hidx.
  rewrite (indices_of_stored _ Hsmall) in Hidx.
  split; [now apply setPoints_ok|].
  split; [apply after_setPoints_attributes|].
  intros m w segments raycaster t i mesh. rewrite Hidx. intros Hi p q.
  destruct (indices_of_pair (length pts) i Hi)
    as (ra & rb & Hra & Hrb & Ha & Hb & Hj0 & Hj1 & Hpj & Hqj).
  fold p in Ha, Hpj. fold q in Hb, Hqj.
  split; [exact Hj0|]. split; [exact Hj1|].
  split; [exact Hpj|]. split; [exact Hqj|]. split; [|split].
  - subst p q. unfold scan_ends.
    pose proof (Z.mod_pos_bound i 6 ltac:(lia)) as Hc.
    set (c := i mod 6) in *. set (j := i / 6).
    assert (Hcases : c = 0 \/ c = 1 \/ c = 2 \/ c = 3 \/ c = 4 \/ c = 5)
      by lia.
    destruct Hcases as [E | [E | [E | [E | [E | E]]]]]; rewrite E;
      cbn [fst snd]; split; intros; lia.
  - unfold segment_measure, mesh, line_mesh.
    cbn [position_array]. rewrite Ha, Hb, Hpos. cbn [default]. unfold id.
    rewrite !fromArray_stored, !fromArray_rails by lia. reflexivity.
  - unfold pick_radius, mesh, line_mesh. cbn [width_array lineWidth].
    rewrite Hwid.
    pose proof (Z.div_mod i 6 ltac:(lia)) as Hdm.
    pose proof (Z.mod_pos_bound i 6 ltac:(lia)) as Hc.
    assert (Hthird : i / 3 = 2 * (i / 6) + (i mod 6) / 3).
    { rewrite Hdm at 1.
      replace (6 * (i / 6) + i mod 6) with (i mod 6 + (2 * (i / 6)) * 3)
        by lia.
      rewrite Z.div_add by lia. lia. }
    assert (Hr2 : 0 <= (i mod 6) / 3 < 2).
    { split; [apply Z.div_pos; lia | apply Z.div_lt_upper_bound; lia]. }
    rewrite Hthird.
    replace (2 * (i / 6) + i mod 6 / 3)
      with (Z.of_nat (2 * Z.to_nat (i / 6) + Z.to_nat (i mod 6 / 3))) by lia.
    rewrite at_index_nat, list_lookup_fmap, width_of_lookup by lia.
    cbn [fmap option_fmap option_map default]. unfold id.
    now rewrite Z2Nat.id by lia.
Qed.

Lemma scan_measures_line_points_witness :
  exists g' a,
    setPoints (Vector3Array three_points) None new_MeshLineGeometry = Ok tt g'
    /\ priv_attributes g' = Some a
    /\ @segment_measure toy_three (@line_mesh toy_three tt (ofZ 1) false a)
         toy_raycaster (array (index a)) 9
       = @distanceSqToSegment toy_three
           (@local_ray toy_three (@line_mesh toy_three tt (ofZ 1) false a)
              toy_raycaster)
           (xyz 2 0 0) (xyz 1 0 0).
Proof.
  destruct (@scan_measures_line_points toy_three AsVector3Array three_points
              None new_MeshLineGeometry)
    as (g' & a & Hs & Ha & Hscan).
  - simpl. lia.
  - simpl. lia.
  - exact reachable_new.
  - exists g', a. split; [exact Hs|]. split; [exact Ha|].
    destruct (Hscan tt (ofZ 1) false toy_raycaster (ofZ 1) 9)
      as (_ & _ & _ & _ & _ & Hm & _).
    + assert (Hlen : length (array (index a)) = 12%nat).
      { pose proof (setPoints_ok AsVector3Array three_points None
                      new_MeshLineGeometry
                      ltac:(split; simpl; [lia | intros; lia])
                      (reachable_wf _ reachable_new)) as Hok.
        rewrite Hs in Hok. injection Hok as Hg. rewrite Hg in Ha.
        rewrite after_setPoints_attributes in Ha. injection Ha as <-.
        reflexivity. }
      rewrite Hlen. lia.
    + exact Hm.
Defined.
